(** * Bridge lesson pipeline: a shallow embedding of [generate_pbn.py] and
    [generate_lesson.py]

    Python strings are sequences of Unicode code points; they are modelled
    as lists of code points ([N]).  The string methods, the regular
    expressions and the loops of the two scripts are transcribed function
    by function, keeping the names of the source. *)

From Stdlib Require Import NArith ZArith Ascii String List Bool Lia DecimalN.
From stdpp Require Import base list gmap.
Import ListNotations.


(** ** Python strings *)

Abbreviation char := N.
Abbreviation str := (list N).

(** [py "abc"] is the Python literal ['abc'] (ASCII literals only). *)
Definition py (s : string) : str := map N_of_ascii (list_ascii_of_string s).

(** [ch "x"] is the code point of a one-character ASCII literal. *)
Definition ch (s : string) : char :=
  match s with
  | String a _ => N_of_ascii a
  | EmptyString => 0%N
  end.

Definition in_ranges (tbl : list (N * N)) (c : char) : bool :=
  existsb (fun r => (fst r <=? c)%N && (c <=? snd r)%N) tbl.

(** [str.isspace] for one code point: the white-space code points of the
    Unicode database (also what [\s] matches and what [strip] removes). *)
Definition space_ranges : list (N * N) :=
  [(9, 13); (28, 32); (133, 133); (160, 160); (5760, 5760); (8192, 8202);
   (8232, 8233); (8239, 8239); (8287, 8287); (12288, 12288)]%N.

Definition isspace (c : char) : bool := in_ranges space_ranges c.

(** What [\w] and [\d] match in a [str] pattern (Unicode 14, CPython 3.11):
    alphanumeric code points and the underscore, resp. decimal digits. *)
Definition word_ranges : list (N * N) :=
  [(48, 57); (65, 90); (95, 95); (97, 122); (170, 170); (178, 179); 
   (181, 181); (185, 186); (188, 190); (192, 214); (216, 246); (248, 705); 
   (710, 721); (736, 740); (748, 748); (750, 750); (880, 884); (886, 887); 
   (890, 893); (895, 895); (902, 902); (904, 906); (908, 908); (910, 929); 
   (931, 1013); (1015, 1153); (1162, 1327); (1329, 1366); (1369, 1369); 
   (1376, 1416); (1488, 1514); (1519, 1522); (1568, 1610); (1632, 1641); 
   (1646, 1647); (1649, 1747); (1749, 1749); (1765, 1766); (1774, 1788); 
   (1791, 1791); (1808, 1808); (1810, 1839); (1869, 1957); (1969, 1969); 
   (1984, 2026); (2036, 2037); (2042, 2042); (2048, 2069); (2074, 2074); 
   (2084, 2084); (2088, 2088); (2112, 2136); (2144, 2154); (2160, 2183); 
   (2185, 2190); (2208, 2249); (2308, 2361); (2365, 2365); (2384, 2384); 
   (2392, 2401); (2406, 2415); (2417, 2432); (2437, 2444); (2447, 2448); 
   (2451, 2472); (2474, 2480); (2482, 2482); (2486, 2489); (2493, 2493); 
   (2510, 2510); (2524, 2525); (2527, 2529); (2534, 2545); (2548, 2553); 
   (2556, 2556); (2565, 2570); (2575, 2576); (2579, 2600); (2602, 2608); 
   (2610, 2611); (2613, 2614); (2616, 2617); (2649, 2652); (2654, 2654); 
   (2662, 2671); (2674, 2676); (2693, 2701); (2703, 2705); (2707, 2728); 
   (2730, 2736); (2738, 2739); (2741, 2745); (2749, 2749); (2768, 2768); 
   (2784, 2785); (2790, 2799); (2809, 2809); (2821, 2828); (2831, 2832); 
   (2835, 2856); (2858, 2864); (2866, 2867); (2869, 2873); (2877, 2877); 
   (2908, 2909); (2911, 2913); (2918, 2927); (2929, 2935); (2947, 2947); 
   (2949, 2954); (2958, 2960); (2962, 2965); (2969, 2970); (2972, 2972); 
   (2974, 2975); (2979, 2980); (2984, 2986); (2990, 3001); (3024, 3024); 
   (3046, 3058); (3077, 3084); (3086, 3088); (3090, 3112); (3114, 3129); 
   (3133, 3133); (3160, 3162); (3165, 3165); (3168, 3169); (3174, 3183); 
   (3192, 3198); (3200, 3200); (3205, 3212); (3214, 3216); (3218, 3240); 
   (3242, 3251); (3253, 3257); (3261, 3261); (3293, 3294); (3296, 3297); 
   (3302, 3311); (3313, 3314); (3332, 3340); (3342, 3344); (3346, 3386); 
   (3389, 3389); (3406, 3406); (3412, 3414); (3416, 3425); (3430, 3448); 
   (3450, 3455); (3461, 3478); (3482, 3505); (3507, 3515); (3517, 3517); 
   (3520, 3526); (3558, 3567); (3585, 3632); (3634, 3635); (3648, 3654); 
   (3664, 3673); (3713, 3714); (3716, 3716); (3718, 3722); (3724, 3747); 
   (3749, 3749); (3751, 3760); (3762, 3763); (3773, 3773); (3776, 3780); 
   (3782, 3782); (3792, 3801); (3804, 3807); (3840, 3840); (3872, 3891); 
   (3904, 3911); (3913, 3948); (3976, 3980); (4096, 4138); (4159, 4169); 
   (4176, 4181); (4186, 4189); (4193, 4193); (4197, 4198); (4206, 4208); 
   (4213, 4225); (4238, 4238); (4240, 4249); (4256, 4293); (4295, 4295); 
   (4301, 4301); (4304, 4346); (4348, 4680); (4682, 4685); (4688, 4694); 
   (4696, 4696); (4698, 4701); (4704, 4744); (4746, 4749); (4752, 4784); 
   (4786, 4789); (4792, 4798); (4800, 4800); (4802, 4805); (4808, 4822); 
   (4824, 4880); (4882, 4885); (4888, 4954); (4969, 4988); (4992, 5007); 
   (5024, 5109); (5112, 5117); (5121, 5740); (5743, 5759); (5761, 5786); 
   (5792, 5866); (5870, 5880); (5888, 5905); (5919, 5937); (5952, 5969); 
   (5984, 5996); (5998, 6000); (6016, 6067); (6103, 6103); (6108, 6108); 
   (6112, 6121); (6128, 6137); (6160, 6169); (6176, 6264); (6272, 6276); 
   (6279, 6312); (6314, 6314); (6320, 6389); (6400, 6430); (6470, 6509); 
   (6512, 6516); (6528, 6571); (6576, 6601); (6608, 6618); (6656, 6678); 
   (6688, 6740); (6784, 6793); (6800, 6809); (6823, 6823); (6917, 6963); 
   (6981, 6988); (6992, 7001); (7043, 7072); (7086, 7141); (7168, 7203); 
   (7232, 7241); (7245, 7293); (7296, 7304); (7312, 7354); (7357, 7359); 
   (7401, 7404); (7406, 7411); (7413, 7414); (7418, 7418); (7424, 7615); 
   (7680, 7957); (7960, 7965); (7968, 8005); (8008, 8013); (8016, 8023); 
   (8025, 8025); (8027, 8027); (8029, 8029); (8031, 8061); (8064, 8116); 
   (8118, 8124); (8126, 8126); (8130, 8132); (8134, 8140); (8144, 8147); 
   (8150, 8155); (8160, 8172); (8178, 8180); (8182, 8188); (8304, 8305); 
   (8308, 8313); (8319, 8329); (8336, 8348); (8450, 8450); (8455, 8455); 
   (8458, 8467); (8469, 8469); (8473, 8477); (8484, 8484); (8486, 8486); 
   (8488, 8488); (8490, 8493); (8495, 8505); (8508, 8511); (8517, 8521); 
   (8526, 8526); (8528, 8585); (9312, 9371); (9450, 9471); (10102, 10131); 
   (11264, 11492); (11499, 11502); (11506, 11507); (11517, 11517); 
   (11520, 11557); (11559, 11559); (11565, 11565); (11568, 11623); 
   (11631, 11631); (11648, 11670); (11680, 11686); (11688, 11694); 
   (11696, 11702); (11704, 11710); (11712, 11718); (11720, 11726); 
   (11728, 11734); (11736, 11742); (11823, 11823); (12293, 12295); 
   (12321, 12329); (12337, 12341); (12344, 12348); (12353, 12438); 
   (12445, 12447); (12449, 12538); (12540, 12543); (12549, 12591); 
   (12593, 12686); (12690, 12693); (12704, 12735); (12784, 12799); 
   (12832, 12841); (12872, 12879); (12881, 12895); (12928, 12937); 
   (12977, 12991); (13312, 19903); (19968, 42124); (42192, 42237); 
   (42240, 42508); (42512, 42539); (42560, 42606); (42623, 42653); 
   (42656, 42735); (42775, 42783); (42786, 42888); (42891, 42954); 
   (42960, 42961); (42963, 42963); (42965, 42969); (42994, 43009); 
   (43011, 43013); (43015, 43018); (43020, 43042); (43056, 43061); 
   (43072, 43123); (43138, 43187); (43216, 43225); (43250, 43255); 
   (43259, 43259); (43261, 43262); (43264, 43301); (43312, 43334); 
   (43360, 43388); (43396, 43442); (43471, 43481); (43488, 43492); 
   (43494, 43518); (43520, 43560); (43584, 43586); (43588, 43595); 
   (43600, 43609); (43616, 43638); (43642, 43642); (43646, 43695); 
   (43697, 43697); (43701, 43702); (43705, 43709); (43712, 43712); 
   (43714, 43714); (43739, 43741); (43744, 43754); (43762, 43764); 
   (43777, 43782); (43785, 43790); (43793, 43798); (43808, 43814); 
   (43816, 43822); (43824, 43866); (43868, 43881); (43888, 44002); 
   (44016, 44025); (44032, 55203); (55216, 55238); (55243, 55291); 
   (63744, 64109); (64112, 64217); (64256, 64262); (64275, 64279); 
   (64285, 64285); (64287, 64296); (64298, 64310); (64312, 64316); 
   (64318, 64318); (64320, 64321); (64323, 64324); (64326, 64433); 
   (64467, 64829); (64848, 64911); (64914, 64967); (65008, 65019); 
   (65136, 65140); (65142, 65276); (65296, 65305); (65313, 65338); 
   (65345, 65370); (65382, 65470); (65474, 65479); (65482, 65487); 
   (65490, 65495); (65498, 65500); (65536, 65547); (65549, 65574); 
   (65576, 65594); (65596, 65597); (65599, 65613); (65616, 65629); 
   (65664, 65786); (65799, 65843); (65856, 65912); (65930, 65931); 
   (66176, 66204); (66208, 66256); (66273, 66299); (66304, 66339); 
   (66349, 66378); (66384, 66421); (66432, 66461); (66464, 66499); 
   (66504, 66511); (66513, 66517); (66560, 66717); (66720, 66729); 
   (66736, 66771); (66776, 66811); (66816, 66855); (66864, 66915); 
   (66928, 66938); (66940, 66954); (66956, 66962); (66964, 66965); 
   (66967, 66977); (66979, 66993); (66995, 67001); (67003, 67004); 
   (67072, 67382); (67392, 67413); (67424, 67431); (67456, 67461); 
   (67463, 67504); (67506, 67514); (67584, 67589); (67592, 67592); 
   (67594, 67637); (67639, 67640); (67644, 67644); (67647, 67669); 
   (67672, 67702); (67705, 67742); (67751, 67759); (67808, 67826); 
   (67828, 67829); (67835, 67867); (67872, 67897); (67968, 68023); 
   (68028, 68047); (68050, 68096); (68112, 68115); (68117, 68119); 
   (68121, 68149); (68160, 68168); (68192, 68222); (68224, 68255); 
   (68288, 68295); (68297, 68324); (68331, 68335); (68352, 68405); 
   (68416, 68437); (68440, 68466); (68472, 68497); (68521, 68527); 
   (68608, 68680); (68736, 68786); (68800, 68850); (68858, 68899); 
   (68912, 68921); (69216, 69246); (69248, 69289); (69296, 69297); 
   (69376, 69415); (69424, 69445); (69457, 69460); (69488, 69505); 
   (69552, 69579); (69600, 69622); (69635, 69687); (69714, 69743); 
   (69745, 69746); (69749, 69749); (69763, 69807); (69840, 69864); 
   (69872, 69881); (69891, 69926); (69942, 69951); (69956, 69956); 
   (69959, 69959); (69968, 70002); (70006, 70006); (70019, 70066); 
   (70081, 70084); (70096, 70106); (70108, 70108); (70113, 70132); 
   (70144, 70161); (70163, 70187); (70272, 70278); (70280, 70280); 
   (70282, 70285); (70287, 70301); (70303, 70312); (70320, 70366); 
   (70384, 70393); (70405, 70412); (70415, 70416); (70419, 70440); 
   (70442, 70448); (70450, 70451); (70453, 70457); (70461, 70461); 
   (70480, 70480); (70493, 70497); (70656, 70708); (70727, 70730); 
   (70736, 70745); (70751, 70753); (70784, 70831); (70852, 70853); 
   (70855, 70855); (70864, 70873); (71040, 71086); (71128, 71131); 
   (71168, 71215); (71236, 71236); (71248, 71257); (71296, 71338); 
   (71352, 71352); (71360, 71369); (71424, 71450); (71472, 71483); 
   (71488, 71494); (71680, 71723); (71840, 71922); (71935, 71942); 
   (71945, 71945); (71948, 71955); (71957, 71958); (71960, 71983); 
   (71999, 71999); (72001, 72001); (72016, 72025); (72096, 72103); 
   (72106, 72144); (72161, 72161); (72163, 72163); (72192, 72192); 
   (72203, 72242); (72250, 72250); (72272, 72272); (72284, 72329); 
   (72349, 72349); (72368, 72440); (72704, 72712); (72714, 72750); 
   (72768, 72768); (72784, 72812); (72818, 72847); (72960, 72966); 
   (72968, 72969); (72971, 73008); (73030, 73030); (73040, 73049); 
   (73056, 73061); (73063, 73064); (73066, 73097); (73112, 73112); 
   (73120, 73129); (73440, 73458); (73648, 73648); (73664, 73684); 
   (73728, 74649); (74752, 74862); (74880, 75075); (77712, 77808); 
   (77824, 78894); (82944, 83526); (92160, 92728); (92736, 92766); 
   (92768, 92777); (92784, 92862); (92864, 92873); (92880, 92909); 
   (92928, 92975); (92992, 92995); (93008, 93017); (93019, 93025); 
   (93027, 93047); (93053, 93071); (93760, 93846); (93952, 94026); 
   (94032, 94032); (94099, 94111); (94176, 94177); (94179, 94179); 
   (94208, 100343); (100352, 101589); (101632, 101640); (110576, 110579); 
   (110581, 110587); (110589, 110590); (110592, 110882); (110928, 110930); 
   (110948, 110951); (110960, 111355); (113664, 113770); (113776, 113788); 
   (113792, 113800); (113808, 113817); (119520, 119539); (119648, 119672); 
   (119808, 119892); (119894, 119964); (119966, 119967); (119970, 119970); 
   (119973, 119974); (119977, 119980); (119982, 119993); (119995, 119995); 
   (119997, 120003); (120005, 120069); (120071, 120074); (120077, 120084); 
   (120086, 120092); (120094, 120121); (120123, 120126); (120128, 120132); 
   (120134, 120134); (120138, 120144); (120146, 120485); (120488, 120512); 
   (120514, 120538); (120540, 120570); (120572, 120596); (120598, 120628); 
   (120630, 120654); (120656, 120686); (120688, 120712); (120714, 120744); 
   (120746, 120770); (120772, 120779); (120782, 120831); (122624, 122654); 
   (123136, 123180); (123191, 123197); (123200, 123209); (123214, 123214); 
   (123536, 123565); (123584, 123627); (123632, 123641); (124896, 124902); 
   (124904, 124907); (124909, 124910); (124912, 124926); (124928, 125124); 
   (125127, 125135); (125184, 125251); (125259, 125259); (125264, 125273); 
   (126065, 126123); (126125, 126127); (126129, 126132); (126209, 126253); 
   (126255, 126269); (126464, 126467); (126469, 126495); (126497, 126498); 
   (126500, 126500); (126503, 126503); (126505, 126514); (126516, 126519); 
   (126521, 126521); (126523, 126523); (126530, 126530); (126535, 126535); 
   (126537, 126537); (126539, 126539); (126541, 126543); (126545, 126546); 
   (126548, 126548); (126551, 126551); (126553, 126553); (126555, 126555); 
   (126557, 126557); (126559, 126559); (126561, 126562); (126564, 126564); 
   (126567, 126570); (126572, 126578); (126580, 126583); (126585, 126588); 
   (126590, 126590); (126592, 126601); (126603, 126619); (126625, 126627); 
   (126629, 126633); (126635, 126651); (127232, 127244); (130032, 130041); 
   (131072, 173791); (173824, 177976); (177984, 178205); (178208, 183969); 
   (183984, 191456); (194560, 195101); (196608, 201546)]%N.

Definition digit_ranges : list (N * N) :=
  [(48, 57); (1632, 1641); (1776, 1785); (1984, 1993); (2406, 2415); 
   (2534, 2543); (2662, 2671); (2790, 2799); (2918, 2927); (3046, 3055); 
   (3174, 3183); (3302, 3311); (3430, 3439); (3558, 3567); (3664, 3673); 
   (3792, 3801); (3872, 3881); (4160, 4169); (4240, 4249); (6112, 6121); 
   (6160, 6169); (6470, 6479); (6608, 6617); (6784, 6793); (6800, 6809); 
   (6992, 7001); (7088, 7097); (7232, 7241); (7248, 7257); (42528, 42537); 
   (43216, 43225); (43264, 43273); (43472, 43481); (43504, 43513); 
   (43600, 43609); (44016, 44025); (65296, 65305); (66720, 66729); 
   (68912, 68921); (69734, 69743); (69872, 69881); (69942, 69951); 
   (70096, 70105); (70384, 70393); (70736, 70745); (70864, 70873); 
   (71248, 71257); (71360, 71369); (71472, 71481); (71904, 71913); 
   (72016, 72025); (72784, 72793); (73040, 73049); (73120, 73129); 
   (92768, 92777); (92864, 92873); (93008, 93017); (120782, 120831); 
   (123200, 123209); (123632, 123641); (125264, 125273); (130032, 130041)]%N.

Definition is_word (c : char) : bool := in_ranges word_ranges c.
Definition is_digit (c : char) : bool := in_ranges digit_ranges c.

Arguments isspace : simpl never.
Arguments is_word : simpl never.
Arguments is_digit : simpl never.

Fixpoint lstrip_by (p : char -> bool) (s : str) : str :=
  match s with
  | [] => []
  | c :: s' => if p c then lstrip_by p s' else s
  end.

Definition rstrip_by (p : char -> bool) (s : str) : str :=
  rev (lstrip_by p (rev s)).

(** [s.lstrip()], [s.rstrip()], [s.strip()] *)
Definition lstrip (s : str) : str := lstrip_by isspace s.
Definition rstrip (s : str) : str := rstrip_by isspace s.
Definition strip (s : str) : str := rstrip (lstrip s).

(** [s.startswith(p)], [s.endswith(p)], [sub in s] *)
Fixpoint startswith (p s : str) : bool :=
  match p, s with
  | [], _ => true
  | a :: p', b :: s' => (a =? b)%N && startswith p' s'
  | _ :: _, [] => false
  end.

Definition endswith (p s : str) : bool := startswith (rev p) (rev s).

Fixpoint contains (sub s : str) : bool :=
  startswith sub s ||
  match s with
  | [] => false
  | _ :: s' => contains sub s'
  end.

(** [s.replace(old, new)] for a non-empty [old]: the occurrences are taken
    from the left and do not overlap.  [skip] counts the characters of the
    occurrence that is being skipped. *)
Fixpoint replace_from (old new : str) (skip : nat) (s : str) : str :=
  match s with
  | [] => []
  | c :: s' =>
      match skip with
      | S n => replace_from old new n s'
      | O =>
          if startswith old s
          then new ++ replace_from old new (length old - 1) s'
          else c :: replace_from old new 0 s'
      end
  end.

Definition replace (old new s : str) : str := replace_from old new 0 s.

(** The line feed ['\n'] *)
Definition NL : str := [10%N].

(** [sep.join(l)] *)
Fixpoint join (sep : str) (l : list str) : str :=
  match l with
  | [] => []
  | [x] => x
  | x :: l' => x ++ sep ++ join sep l'
  end.

(** [s.split(c)[0]]: the text before the first [c]. *)
Fixpoint before_char (c : char) (s : str) : str :=
  match s with
  | [] => []
  | a :: s' => if (a =? c)%N then [] else a :: before_char c s'
  end.

(** [s.lower()] on the ASCII letters.  The only code points whose lower
    case occurs in ['all pass'] are A, L, P, S and the characters of
    ['all pass'] themselves, so the one comparison the code makes with the
    result, [elem.lower() == 'all pass'], is decided as in Python. *)
Definition lower_char (c : char) : char :=
  if (65 <=? c)%N && (c <=? 90)%N then (c + 32)%N else c.
Definition lower (s : str) : str := map lower_char s.

(** ** Stage 2: [expand_auction] *)

(** ['('] and [')'] *)
Definition LPAREN : char := 40%N.
Definition RPAREN : char := 41%N.
Definition SEP : str := Eval vm_compute in py " - ".
(** [' – '], with the en dash U+2013 *)
Definition EN_SEP : str := [32; 8211; 32]%N.
Definition PASS : str := Eval vm_compute in py "Pass".

(** The splitting loop of [expand_auction]; the index [i] of the source is
    the suffix [s] that is still to be read. *)
Fixpoint split_loop (s : str) (paren_depth : Z) (current : str)
    (elements : list str) : list str * str :=
  match s with
  | [] => (elements, current)
  | c :: rest =>
      if (c =? LPAREN)%N then
        split_loop rest (paren_depth + 1)%Z (current ++ [c]) elements
      else if (c =? RPAREN)%N then
        split_loop rest (paren_depth - 1)%Z (current ++ [c]) elements
      else if (paren_depth =? 0)%Z && startswith SEP s then
        match rest with
        | _ :: _ :: rest3 => split_loop rest3 paren_depth [] (elements ++ [current])
        | _ => (elements ++ [current], [])
        end
      else split_loop rest paren_depth (current ++ [c]) elements
  end.

Definition split_elements (normalized : str) : list str :=
  let '(elements, current) := split_loop normalized 0 [] [] in
  match current with
  | [] => elements
  | _ :: _ => elements ++ [current]
  end.

Definition is_all_pass (elem : str) : bool :=
  bool_decide (lower elem = py "all pass").

Definition is_bracketed (elem : str) : bool :=
  startswith (py "[") elem && contains (py "]") elem.

Definition strip_brackets (elem : str) : str :=
  replace (py "]") [] (replace (py "[") [] elem).

(** The main loop, [for i, elem in enumerate(elements)]. *)
Fixpoint expand_loop (i : nat) (elements : list str) (output : list str)
    (prev_was_bracketed : bool) : list str :=
  match elements with
  | [] => output
  | e :: rest =>
      let elem := strip e in
      match elem with
      | [] => expand_loop (S i) rest output prev_was_bracketed
      | _ :: _ =>
          if is_all_pass elem then
            expand_loop (S i) rest (output ++ [PASS; PASS; PASS]) false
          else if is_bracketed elem then
            expand_loop (S i) rest (output ++ [strip_brackets elem]) true
          else
            let output :=
              if (0 <? i)%nat && negb prev_was_bracketed
              then output ++ [PASS] else output in
            expand_loop (S i) rest (output ++ [elem]) false
      end
  end.

(** The body of the loop that normalizes [P] to [Pass]. *)
Definition normalize_P (elem : str) : str :=
  if bool_decide (elem = py "P") then PASS
  else if startswith (py "P ") elem || startswith (py "P(") elem
       then PASS ++ drop 1 elem
       else elem.

Definition is_pass (bid : str) : bool :=
  bool_decide (strip (before_char LPAREN bid) = PASS).

(** [output[-3:]] *)
Definition last3 (output : list str) : list str :=
  drop (length output - 3) output.

(** The condition of the final [while] loop. *)
Definition needs_pass (output : list str) : bool :=
  (length output <? 3)%nat || negb (forallb is_pass (last3 output)).

Fixpoint pad_loop (fuel : nat) (output : list str) : list str :=
  match fuel with
  | O => output
  | S fuel' =>
      if needs_pass output then pad_loop fuel' (output ++ [PASS]) else output
  end.

Definition normalize_dashes (raw_auction : str) : str :=
  replace EN_SEP SEP raw_auction.

(** The list [output] at the [return] of [expand_auction]; three rounds of
    the [while] loop are always enough ([pad_loop_exits]). *)
Definition expand_tokens (raw_auction : str) : list str :=
  let elements := split_elements (normalize_dashes raw_auction) in
  let output := expand_loop 0 elements [] false in
  pad_loop 3 (map normalize_P output).

Definition expand_auction (raw_auction : str) : str :=
  join (py " ") (expand_tokens raw_auction).


(** *** Specification vocabulary for the expansion *)

(** Where a token of the expanded auction comes from.  The source keeps no
    such record; [expand_loop_tagged] is [expand_loop] with each appended
    token labelled by the branch that appended it. *)
Inductive origin : Type :=
| Own        (* a non-bracketed element: a call of the own side *)
| Opp        (* a bracketed element: a call of the opponents *)
| Inserted   (* the [Pass] put in front of an own-side call *)
| AllPass    (* one of the three tokens of ['all pass'] *)
| Padding.   (* appended by the final [while] loop *)

Fixpoint expand_loop_tagged (i : nat) (elements : list str)
    (output : list (origin * str)) (prev_was_bracketed : bool)
    : list (origin * str) :=
  match elements with
  | [] => output
  | e :: rest =>
      let elem := strip e in
      match elem with
      | [] => expand_loop_tagged (S i) rest output prev_was_bracketed
      | _ :: _ =>
          if is_all_pass elem then
            expand_loop_tagged (S i) rest
              (output ++ [(AllPass, PASS); (AllPass, PASS); (AllPass, PASS)]) false
          else if is_bracketed elem then
            expand_loop_tagged (S i) rest
              (output ++ [(Opp, strip_brackets elem)]) true
          else
            let output :=
              if (0 <? i)%nat && negb prev_was_bracketed
              then output ++ [(Inserted, PASS)] else output in
            expand_loop_tagged (S i) rest (output ++ [(Own, elem)]) false
      end
  end.

Fixpoint pad_loop_tagged (fuel : nat) (output : list (origin * str))
    : list (origin * str) :=
  match fuel with
  | O => output
  | S fuel' =>
      if needs_pass (map snd output)
      then pad_loop_tagged fuel' (output ++ [(Padding, PASS)])
      else output
  end.

Definition expand_tagged (raw_auction : str) : list (origin * str) :=
  let elements := split_elements (normalize_dashes raw_auction) in
  let output := expand_loop_tagged 0 elements [] false in
  pad_loop_tagged 3 (map (fun x => (fst x, normalize_P (snd x))) output).

(** The number of pass tokens at the end of a token list. *)
Fixpoint leading_passes (l : list str) : nat :=
  match l with
  | [] => 0
  | x :: l' => if is_pass x then S (leading_passes l') else 0
  end.

Definition trailing_passes (output : list str) : nat :=
  leading_passes (rev output).

(** What the test [is_pass] accepts, spelt out: [Pass], with white space
    around it or not, followed by nothing or by an opening parenthesis and
    any text. *)
Definition reads_pass (elem : str) : Prop :=
  exists l r rest,
    elem = l ++ PASS ++ r ++ rest
    /\ forallb isspace l = true /\ forallb isspace r = true
    /\ (rest = [] \/ head rest = Some LPAREN).

(** Parentheses are balanced from depth [d] on: the depth never drops
    below zero and ends at zero. *)
Fixpoint balanced_from (d : Z) (s : str) : bool :=
  match s with
  | [] => (d =? 0)%Z
  | c :: s' =>
      if (c =? LPAREN)%N then balanced_from (d + 1) s'
      else if (c =? RPAREN)%N then (0 <? d)%Z && balanced_from (d - 1) s'
      else balanced_from d s'
  end.

Definition balanced (s : str) : bool := balanced_from 0 s.

(** The parenthesis depth after reading [s] from depth [d]. *)
Fixpoint depth_after (d : Z) (s : str) : Z :=
  match s with
  | [] => d
  | c :: s' =>
      if (c =? LPAREN)%N then depth_after (d + 1) s'
      else if (c =? RPAREN)%N then depth_after (d - 1) s'
      else depth_after d s'
  end.

(** The elements of the splitter before the empty last one is dropped. *)
Definition split_pieces (normalized : str) : list str :=
  let '(elements, current) := split_loop normalized 0 [] [] in
  elements ++ [current].

(** A token without white space, parentheses, brackets or dashes. *)
Definition plain_char (c : char) : bool :=
  negb (isspace c) && negb (c =? LPAREN)%N && negb (c =? RPAREN)%N
  && negb (c =? ch "[")%N && negb (c =? ch "]")%N
  && negb (c =? ch "-")%N && negb (c =? 8211)%N.

Definition plain_token (t : str) : bool :=
  match t with
  | [] => false
  | _ :: _ => forallb plain_char t
  end.

(** A token that separates two own-side calls: the inserted [Pass], or a
    call of the opponents. *)
Definition separates (x : origin * str) : Prop :=
  x = (Inserted, PASS) \/ exists t, x = (Opp, t).

(** No own-side call comes directly after a token that does not separate. *)
Definition own_guarded (out : list (origin * str)) : Prop :=
  forall k a b, out !! k = Some a -> out !! S k = Some (Own, b) -> separates a.

(** The characters of plain tokens joined by spaces. *)
Definition quiet_char (c : char) : bool := plain_char c || (c =? 32)%N.


(** ** Stage 3: [extract_bid_notes] *)

(** [str(n)], the decimal numeral of a non-negative integer *)
Fixpoint chars_of_uint (d : Decimal.uint) : str :=
  match d with
  | Decimal.Nil => []
  | Decimal.D0 d' => 48%N :: chars_of_uint d'
  | Decimal.D1 d' => 49%N :: chars_of_uint d'
  | Decimal.D2 d' => 50%N :: chars_of_uint d'
  | Decimal.D3 d' => 51%N :: chars_of_uint d'
  | Decimal.D4 d' => 52%N :: chars_of_uint d'
  | Decimal.D5 d' => 53%N :: chars_of_uint d'
  | Decimal.D6 d' => 54%N :: chars_of_uint d'
  | Decimal.D7 d' => 55%N :: chars_of_uint d'
  | Decimal.D8 d' => 56%N :: chars_of_uint d'
  | Decimal.D9 d' => 57%N :: chars_of_uint d'
  end.

Definition str_of_int (n : N) : str := chars_of_uint (N.to_uint n).

(** The inner loop, which looks for the matching close parenthesis: the
    characters [auction[i+1:j]] it runs over. *)
Fixpoint scan_close (s : str) (depth : Z) : str :=
  match s with
  | [] => []
  | c :: s' =>
      if (0 <? depth)%Z then
        let depth' :=
          if (c =? LPAREN)%N then (depth + 1)%Z
          else if (c =? RPAREN)%N then (depth - 1)%Z
          else depth in
        c :: scan_close s' depth'
      else []
  end.

(** [=N=] after a space, and the entry [N:text] *)
Definition flag (note_num : N) : str :=
  py " =" ++ str_of_int note_num ++ py "=".
Definition note_entry (note_num : N) (note_text : str) : str :=
  str_of_int note_num ++ py ":" ++ note_text.

(** The outer loop; [skip] counts the characters up to [j] that the inner
    loop has run over ([i = j]). *)
Fixpoint extract_loop (s : str) (skip : nat) (result : str)
    (notes : list str) (note_num : N) : str * list str :=
  match s with
  | [] => (result, notes)
  | c :: s' =>
      match skip with
      | S n => extract_loop s' n result notes note_num
      | O =>
          if (c =? LPAREN)%N then
            let scanned := scan_close s' 1 in
            let note_text := removelast scanned in
            let note_num := (note_num + 1)%N in
            extract_loop s' (length scanned)
              (rstrip result ++ flag note_num)
              (notes ++ [note_entry note_num note_text]) note_num
          else extract_loop s' 0 (result ++ [c]) notes note_num
      end
  end.

Definition DOUBLE_SPACE : str := Eval vm_compute in py "  ".

(** [while '  ' in result: result = result.replace('  ', ' ')]; every
    round shortens the text, so its length is fuel enough
    ([collapse_spaces_done]). *)
Fixpoint collapse_loop (fuel : nat) (result : str) : str :=
  match fuel with
  | O => result
  | S fuel' =>
      if contains DOUBLE_SPACE result
      then collapse_loop fuel' (replace DOUBLE_SPACE (py " ") result)
      else result
  end.

Definition collapse_spaces (result : str) : str :=
  collapse_loop (length result) result.

Definition extract_bid_notes (auction : str) : str * str :=
  let '(result, notes) := extract_loop auction 0 [] [] 0 in
  (strip (collapse_spaces result), join (py "|") notes).

(** *** The top-level structure of an auction text *)

(** An auction text read as a first stretch of text [t0] and then groups
    [(g)] each followed by a stretch of text [t]. *)
Fixpoint build (t0 : str) (segs : list (str * str)) : str :=
  match segs with
  | [] => t0
  | (g, t) :: segs' => t0 ++ [LPAREN] ++ g ++ [RPAREN] ++ build t segs'
  end.

Definition paren_free (t : str) : bool :=
  forallb (fun c => negb (c =? LPAREN)%N && negb (c =? RPAREN)%N) t.

Definition top_level (auction t0 : str) (segs : list (str * str)) : Prop :=
  auction = build t0 segs
  /\ paren_free t0 = true
  /\ Forall (fun gt => balanced (fst gt) = true /\ paren_free (snd gt) = true) segs.

(** The footnotes of the groups, numbered from [n + 1]. *)
Fixpoint footnotes_from (n : N) (segs : list (str * str)) : list str :=
  match segs with
  | [] => []
  | (g, _) :: segs' => note_entry (n + 1) g :: footnotes_from (n + 1) segs'
  end.

(** The text with each group, and the white space before it, replaced by
    the marker of its number. *)
Fixpoint marked_from (n : N) (result : str) (segs : list (str * str)) : str :=
  match segs with
  | [] => result
  | (_, t) :: segs' =>
      marked_from (n + 1) (rstrip result ++ flag (n + 1) ++ t) segs'
  end.

(** ** Regular expressions

    The patterns of the two scripts use character classes, literals,
    sequence, alternation, greedy repetition of a character class, groups,
    [\b], [^] and [$].  [rmatch] is a backtracking matcher in
    continuation-passing style: [rmatch r k st] matches [r] at the state
    [st] and hands the state after it to [k]; when [k] fails, the next
    alternative of [r] is tried, the longer repetition first. *)

Inductive regex : Type :=
| Chr (p : char -> bool)
| Lit (s : str)
| Seq (r1 r2 : regex)
| Alt (r1 r2 : regex)
| Star (p : char -> bool)
| Group (n : nat) (r : regex)
| WordB
| Bol
| Eol.

Record mstate : Type := MState {
  m_consumed : str;              (* the text matched so far, reversed *)
  m_before : option char;        (* the character before the match *)
  m_rest : str;                  (* the text still to be matched *)
  m_groups : list (nat * str)    (* the groups closed so far *)
}.

Definition m_prev (st : mstate) : option char :=
  match m_consumed st with
  | c :: _ => Some c
  | [] => m_before st
  end.

Definition is_word_opt (c : option char) : bool :=
  match c with
  | Some c => is_word c
  | None => false
  end.

(** [\b]: exactly one of the two neighbours is a word character. *)
Definition at_boundary (prev : option char) (rest : str) : bool :=
  xorb (is_word_opt prev) (is_word_opt (head rest)).

Fixpoint star_loop (p : char -> bool) (k : mstate -> option mstate)
    (consumed : str) (before : option char) (groups : list (nat * str))
    (s : str) : option mstate :=
  match s with
  | c :: s' =>
      if p c then
        match star_loop p k (c :: consumed) before groups s' with
        | Some m => Some m
        | None => k (MState consumed before s groups)
        end
      else k (MState consumed before s groups)
  | [] => k (MState consumed before [] groups)
  end.

Fixpoint rmatch (r : regex) (k : mstate -> option mstate) (st : mstate)
    : option mstate :=
  match r with
  | Chr p =>
      match m_rest st with
      | c :: s' =>
          if p c
          then k (MState (c :: m_consumed st) (m_before st) s' (m_groups st))
          else None
      | [] => None
      end
  | Lit l =>
      if startswith l (m_rest st)
      then k (MState (rev l ++ m_consumed st) (m_before st)
                     (drop (length l) (m_rest st)) (m_groups st))
      else None
  | Seq r1 r2 => rmatch r1 (rmatch r2 k) st
  | Alt r1 r2 =>
      match rmatch r1 k st with
      | Some m => Some m
      | None => rmatch r2 k st
      end
  | Star p =>
      star_loop p k (m_consumed st) (m_before st) (m_groups st) (m_rest st)
  | Group n r1 =>
      rmatch r1
        (fun st' =>
           let len := (length (m_consumed st') - length (m_consumed st))%nat in
           k (MState (m_consumed st') (m_before st') (m_rest st')
                     ((n, rev (take len (m_consumed st'))) :: m_groups st')))
        st
  | WordB => if at_boundary (m_prev st) (m_rest st) then k st else None
  | Bol =>
      match m_consumed st, m_before st with
      | [], None => k st
      | _, _ => None
      end
  | Eol =>
      match m_rest st with
      | [] => k st
      | [c] => if (c =? 10)%N then k st else None
      | _ => None
      end
  end.

Fixpoint seq_of (rs : list regex) : regex :=
  match rs with
  | [] => Lit []
  | [r] => r
  | r :: rs' => Seq r (seq_of rs')
  end.

(** [r+] for a character class *)
Definition Plus (p : char -> bool) : regex := Seq (Chr p) (Star p).

(** The match of [r] at a position with [before] in front of it. *)
Definition match_at (r : regex) (before : option char) (s : str)
    : option mstate :=
  rmatch r Some (MState [] before s []).

(** [re.match(r, s)] *)
Definition re_match (r : regex) (s : str) : option mstate :=
  match_at r None s.

(** [m.group(n)] *)
Fixpoint lookup_group (n : nat) (gs : list (nat * str)) : str :=
  match gs with
  | [] => []
  | (k, t) :: gs' => if (k =? n)%nat then t else lookup_group n gs'
  end.

Definition group (m : mstate) (n : nat) : str := lookup_group n (m_groups m).

(** [re.sub(r, repl, s)] for a pattern that matches no empty text: the
    matches are taken from the left and do not overlap; [skip] counts the
    characters of the match that is being skipped, [before] is the
    character in front of the position. *)
Fixpoint sub_loop (r : regex) (repl : mstate -> str) (before : option char)
    (skip : nat) (s : str) : str :=
  match s with
  | [] => []
  | c :: s' =>
      match skip with
      | S n => sub_loop r repl (Some c) n s'
      | O =>
          match match_at r before s with
          | Some m =>
              match length (m_consumed m) with
              | S n => repl m ++ sub_loop r repl (Some c) n s'
              | O => repl m ++ c :: sub_loop r repl (Some c) 0 s'
              end
          | None => c :: sub_loop r repl (Some c) 0 s'
          end
      end
  end.

Definition re_sub (r : regex) (repl : mstate -> str) (s : str) : str :=
  sub_loop r repl None 0 s.

(** ** Stage 3: [add_suit_symbols] *)

Definition in_chars (set : str) (c : char) : bool :=
  existsb (fun x => (c =? x)%N) set.

Definition is_suit (c : char) : bool := in_chars (py "CDHS") c.
Definition is_rank (c : char) : bool := in_chars (py "KQAJT") c.
(** the class [[\d+-]] *)
Definition is_count_char (c : char) : bool :=
  is_digit c || in_chars (py "+-") c.

Definition BACKSLASH : str := [92%N].

(** [(\d [\d+-]* ) [ ] ([CDHS]) \b] (atoms set apart) with the template [\1\\\2s] *)
Definition RULE_COUNT : regex :=
  seq_of [Group 1 (seq_of [Chr is_digit; Star is_count_char]);
          Lit (py " "); Group 2 (Chr is_suit); WordB].
Definition repl_count (m : mstate) : str :=
  group m 1 ++ BACKSLASH ++ group m 2 ++ py "s".

(** [([KQAJT]) ([CDHS]) \b] with the template [\1\\\2] *)
Definition RULE_CARD : regex :=
  seq_of [Group 1 (Chr is_rank); Group 2 (Chr is_suit); WordB].
Definition repl_pair (m : mstate) : str :=
  group m 1 ++ BACKSLASH ++ group m 2.

(** [(\d) ([CDHS]) \b], same template *)
Definition RULE_BID : regex :=
  seq_of [Group 1 (Chr is_digit); Group 2 (Chr is_suit); WordB].

(** [\b ([CDHS]) [ ] (keycard)] with the template [\\\1 \2] *)
Definition RULE_KEYCARD : regex :=
  seq_of [WordB; Group 1 (Chr is_suit); Lit (py " ");
          Group 2 (Lit (py "keycard"))].
Definition repl_keycard (m : mstate) : str :=
  BACKSLASH ++ group m 1 ++ py " " ++ group m 2.

(** [(for[ ]) ([CDHS]) \b] with the template [\1\\\2] *)
Definition RULE_FOR : regex :=
  seq_of [Group 1 (Lit (py "for ")); Group 2 (Chr is_suit); WordB].

Definition add_suit_symbols (text : str) : str :=
  let text := re_sub RULE_COUNT repl_count text in
  let text := re_sub RULE_CARD repl_pair text in
  let text := re_sub RULE_BID repl_pair text in
  let text := re_sub RULE_KEYCARD repl_keycard text in
  let text := re_sub RULE_FOR repl_pair text in
  text.

(** The bid notes and the deal notes of a Stage-3 row, from the expanded
    auction and the notes of the Stage-2 row. *)
Definition stage3_row (auction notes : str) : str * str * str :=
  let '(cleaned_auction, bid_notes) := extract_bid_notes auction in
  (cleaned_auction, add_suit_symbols bid_notes, add_suit_symbols notes).

(** ** Numbers *)

(** The value of a decimal digit: its offset in the block of ten digits
    it belongs to. *)
Fixpoint digit_value_in (tbl : list (N * N)) (c : char) : N :=
  match tbl with
  | [] => 0
  | (lo, hi) :: tbl' =>
      if (lo <=? c)%N && (c <=? hi)%N then ((c - lo) mod 10)%N
      else digit_value_in tbl' c
  end.

Definition digit_value (c : char) : N := digit_value_in digit_ranges c.

(** The number that a string of decimal digits denotes *)
Definition digits_value (s : str) : N :=
  fold_left (fun acc c => (acc * 10 + digit_value c)%N) s 0%N.

(** The longest numeral that [int] converts: the default of
    [sys.get_int_max_str_digits()] in the interpreters that have the
    limit (CPython from 3.11 on, and the later releases of 3.7 to 3.10) *)
Definition INT_MAX_STR_DIGITS : N := 4300.

(** [int(s)] for a string [s] that a group [\d+] of a pattern has
    matched: a run of decimal digits that is not empty, which is all that
    the two scripts convert.  [None] stands for the [ValueError] that the
    interpreter raises for a numeral of more than [INT_MAX_STR_DIGITS]
    digits, leading zeros counted. *)
Definition int_of_str (s : str) : option N :=
  if (INT_MAX_STR_DIGITS <? N.of_nat (length s))%N then None
  else Some (digits_value s).

Definition not_newline (c : char) : bool := negb (c =? 10)%N.

(** ** Stage 1: the line that opens a deal *)

(** [^(\d+)\)\s+(.* )] (without the space before the last parenthesis) *)
Definition RULE_DEAL : regex :=
  seq_of [Bol; Group 1 (Plus is_digit); Lit (py ")"); Plus isspace;
          Group 2 (Star not_newline)].

(** The number and the auction text of a stripped line [N) auction], for
    deals up to 40.  [None]: the line opens no deal (it does not match,
    its number is above 40, or the conversion of the number raises). *)
Definition deal_line (stripped : str) : option (N * str) :=
  match re_match RULE_DEAL stripped with
  | Some m =>
      match int_of_str (group m 1) with
      | Some deal_num =>
          if (40 <? deal_num)%N then None
          else Some (deal_num, strip (group m 2))
      | None => None
      end
  | None => None
  end.

(** ** [generate_lesson.py]: rotation *)

Definition ROTATE_MAP : gmap str str :=
  list_to_map [(py "N", py "S"); (py "S", py "N");
               (py "E", py "W"); (py "W", py "E")].

(** [ROTATE_MAP[seat]]; [None] stands for the [KeyError]. *)
Definition rotate_seat (seat : str) : option str := ROTATE_MAP !! seat.

(** [None] stands for the [IndexError] of an empty value or the
    [KeyError] of [rotate_seat]. *)
Definition rotate_deal_tag (deal_value : str) : option str :=
  match deal_value with
  | [] => None
  | c :: rest =>
      match rotate_seat [c] with
      | Some prefix => Some (prefix ++ rest)
      | None => None
      end
  end.

Definition SEATS : list str := [py "N"; py "E"; py "S"; py "W"].

(** ** [generate_lesson.py]: commentary *)

(** [s.upper()] on the ASCII letters, the sharp s and the long s.  These
    are all the code points whose upper case occurs in ['PASS'] or ['P'],
    so the comparisons of the code with these words are decided as in
    Python. *)
Definition upper_char (c : char) : str :=
  if (97 <=? c)%N && (c <=? 122)%N then [(c - 32)%N]
  else if (c =? 223)%N then [83; 83]%N
  else if (c =? 383)%N then [83%N]
  else [c].
Definition upper (s : str) : str := flat_map upper_char s.

Definition str_eqb (a b : str) : bool := bool_decide (a = b).

(** [re.match(r'^(\d)(C|D|H|S)$', bid)] *)
Definition RULE_SUIT_BID : regex :=
  seq_of [Bol; Group 1 (Chr is_digit);
          Group 2 (Alt (Lit (py "C")) (Alt (Lit (py "D"))
                     (Alt (Lit (py "H")) (Lit (py "S")))));
          Eol].

Definition format_bid_display (bid : str) : str :=
  let bid := rstrip_by (fun c => (c =? 63)%N) bid in
  if str_eqb (upper bid) (py "PASS") || str_eqb (upper bid) (py "P")
  then py "pass"
  else match re_match RULE_SUIT_BID bid with
       | Some m => group m 1 ++ BACKSLASH ++ group m 2
       | None => bid
       end.

Definition format_meaning (meaning : str) : str :=
  match meaning with
  | [] => []
  | _ :: _ =>
    if str_eqb meaning (py "waiting") then py " waiting"
    else if str_eqb meaning (py "cue") || str_eqb meaning (py "cue bid")
    then py " showing a control"
    else if startswith (py "to play") meaning then py " " ++ meaning
    else if endswith (py "?") meaning then py " asking " ++ meaning
    else if str_eqb meaning (py "sets trump") || str_eqb meaning (py "set trump")
    then py ", setting trump"
    else if str_eqb meaning (py "sets suit") || str_eqb meaning (py "set suit")
    then py ", setting the suit"
    else if str_eqb meaning (py "start cuebidding") then py ", starting cuebidding"
    else if str_eqb meaning (py "forced") then py ", forced"
    else if str_eqb meaning (py "relay") then py ", a relay"
    else if contains (py "keycard") meaning && negb (contains (py "keycards") meaning)
    then py " asking " ++ meaning
    else if startswith (py "ask") meaning then py ", asking" ++ drop 3 meaning
    else py " showing " ++ meaning
  end.

(** [notes.get(note_num, '') if note_num else ''] *)
Definition meaning_of (notes : gmap N str) (note_num : option N) : str :=
  match note_num with
  | Some n => if (n =? 0)%N then [] else default [] (notes !! n)
  | None => []
  end.

(** What the verb of a call is: [X passes], [X doubles], ... *)
Definition call_line (subject pass double redouble bids : str)
    (bid display : str) : str :=
  if str_eqb (upper bid) (py "PASS") then subject ++ pass
  else if str_eqb bid (py "X") then subject ++ double
  else if str_eqb bid (py "XX") then subject ++ redouble
  else subject ++ bids ++ display.

(** One round of the loop [for seat, bid, note_num in bids]: the lines
    after it. *)
Definition commentary_step (notes : gmap N str) (lines : list str)
    (b : str * str * option N) : list str :=
  let '(seat, bid, note_num) := b in
  let meaning := meaning_of notes note_num in
  let display := format_bid_display bid in
  if str_eqb seat (py "N") then
    let line :=
      call_line (py "North") (py " passes") (py " doubles") (py " redoubles")
                (py " bids ") bid display in
    lines ++ [line ++ format_meaning meaning ++ py "."]
  else if str_eqb seat (py "S") then
    let line :=
      call_line (py "You") (py " pass") (py " double") (py " redouble")
                (py " bid ") bid display in
    lines ++ [py "What will you bid now? [BID " ++ display ++ py "]";
              line ++ format_meaning meaning ++ py ".";
              []]
  else if str_eqb seat (py "E") || str_eqb seat (py "W") then
    let name := if str_eqb seat (py "E") then py "East" else py "West" in
    if negb (str_eqb (upper bid) (py "PASS")) then
      if str_eqb bid (py "X") then lines ++ [name ++ py " doubles."]
      else if str_eqb bid (py "XX") then lines ++ [name ++ py " redoubles."]
      else lines ++ [name ++ py " bids " ++ display ++ py "."]
    else lines
  else lines.

Definition commentary_lines (notes : gmap N str)
    (bids : list (str * str * option N)) : list str :=
  fold_left (commentary_step notes) bids [].

(** [re.sub(r'^\{', '', text)] and [re.sub(r'\}\s*$', '', text)] *)
Definition RULE_OPEN_BRACE : regex := seq_of [Bol; Lit (py "{")].
Definition RULE_CLOSE_BRACE : regex :=
  seq_of [Lit (py "}"); Star isspace; Eol].

Definition generate_south_commentary (bids : list (str * str * option N))
    (notes : gmap N str) (board_num existing_commentary : str) : str :=
  let lines := commentary_lines notes bids in
  let body := strip (join NL lines) in
  let result :=
    py "{Precision 1C " ++ board_num ++ py "}" ++ NL
    ++ py "{[show S]" ++ NL ++ NL
    ++ body
    ++ NL ++ NL ++ py "[show NS]" ++ NL ++ NL in
  let result :=
    match existing_commentary with
    | [] => result
    | _ :: _ =>
        let text := re_sub RULE_OPEN_BRACE (fun _ => []) existing_commentary in
        let text := re_sub RULE_CLOSE_BRACE (fun _ => []) text in
        let text := strip text in
        match text with
        | [] => result
        | _ :: _ => result ++ text ++ NL ++ NL
        end
    end in
  result ++ py "}".

(** ** Stage 4: [format_auction_lines] and [stage4] *)

(** The double quote *)
Definition QUOTE : str := [34%N].

(** [s.split(c)] for a one-character separator *)
Fixpoint split_char_loop (c : char) (s : str) (cur : str) : list str :=
  match s with
  | [] => [cur]
  | a :: s' =>
      if (a =? c)%N then cur :: split_char_loop c s' []
      else split_char_loop c s' (cur ++ [a])
  end.

Definition split_char (c : char) (s : str) : list str := split_char_loop c s [].

(** [s.split()]: the words between runs of white space *)
Fixpoint words_loop (s : str) (cur : str) : list str :=
  match s with
  | [] => match cur with [] => [] | _ :: _ => [cur] end
  | a :: s' =>
      if isspace a then
        match cur with
        | [] => words_loop s' []
        | _ :: _ => cur :: words_loop s' []
        end
      else words_loop s' (cur ++ [a])
  end.

Definition words (s : str) : list str := words_loop s [].

(** A token [=N=]: it starts and ends with [=]. *)
Definition is_flag_token (t : str) : bool :=
  startswith (py "=") t && endswith (py "=") t.

(** The loop that pairs a bid with the flag after it. *)
Fixpoint group_bids (tokens : list str) : list str :=
  match tokens with
  | [] => []
  | bid :: tl =>
      match tl with
      | nxt :: rest =>
          if is_flag_token nxt then (bid ++ py " " ++ nxt) :: group_bids rest
          else bid :: group_bids tl
      | [] => [bid]
      end
  end.

(** [for j in range(0, len(bids), 4): lines.append(' '.join(bids[j:j+4]))] *)
Fixpoint chunk4 (bids : list str) : list str :=
  match bids with
  | [] => []
  | a :: b :: c :: d :: rest => join (py " ") [a; b; c; d] :: chunk4 rest
  | a :: short => [join (py " ") (a :: short)]
  end.

(** The list [lines] of [format_auction_lines] *)
Definition auction_body_lines (auction_str : str) : list str :=
  chunk4 (group_bids (words auction_str)).

Definition format_auction_lines (auction_str : str) : str :=
  join NL (auction_body_lines auction_str).

(** A row of the Stage-3 table *)
Record row3 : Type := Row3 {
  r_deal : str;
  r_auction : str;
  r_bid_notes : str;
  r_notes : str
}.

(** [board.get(key, default)] *)
Definition get (board : gmap str str) (key dflt : str) : str :=
  default dflt (board !! key).

(** [[name "value"]] *)
Definition tag_line (name value : str) : str :=
  py "[" ++ name ++ py " " ++ QUOTE ++ value ++ QUOTE ++ py "]".

Definition note_tags (bid_notes : str) : list str :=
  match bid_notes with
  | [] => []
  | _ :: _ => map (fun entry => tag_line (py "Note") entry) (split_char 124 bid_notes)
  end.

Definition notes_block (notes : str) : list str :=
  match notes with
  | [] => []
  | _ :: _ => [py "{ " ++ notes ++ py " }"]
  end.

(** One element for every [f.write] of the loop body, without the ['\n']
    that ends it; the auction is written in one piece. *)
Definition stage4_writes (board : gmap str str) (row : row3) : list str :=
  [tag_line (py "Event") (get board (py "Event") []);
   tag_line (py "Site") (get board (py "Site") []);
   tag_line (py "Date") (get board (py "Date") []);
   tag_line (py "Board") (r_deal row);
   tag_line (py "West") [];
   tag_line (py "North") [];
   tag_line (py "East") [];
   tag_line (py "South") [];
   tag_line (py "Dealer") (get board (py "Dealer") (py "N"));
   tag_line (py "Vulnerable") (get board (py "Vulnerable") (py "None"));
   tag_line (py "Deal") (get board (py "Deal") []);
   tag_line (py "Scoring") [];
   tag_line (py "Declarer") [];
   tag_line (py "Contract") [];
   tag_line (py "Result") [];
   tag_line (py "Auction") (get board (py "Dealer") (py "N"));
   format_auction_lines (r_auction row)]
  ++ note_tags (r_bid_notes row)
  ++ notes_block (r_notes row)
  ++ [[]].

(** Each write followed by a line feed *)
Definition unlines (ls : list str) : str := concat (map (fun l => l ++ NL) ls).

(** [boards.get(base_num)] with [if not board: continue]: a missing or
    empty board is skipped. *)
Definition resolve (boards : gmap str (gmap str str)) (row : row3)
    : option (gmap str str) :=
  let base_num := before_char 45 (r_deal row) in
  match boards !! base_num with
  | Some board => if decide (board = ∅) then None else Some board
  | None => None
  end.

Definition stage4_row (boards : gmap str (gmap str str)) (row : row3) : str :=
  match resolve boards row with
  | Some board => unlines (stage4_writes board row)
  | None => []
  end.

Definition PBN_HEADER : str :=
  py "% PBN 2.1" ++ NL ++ py "% EXPORT" ++ NL
  ++ py "%Content-type: text/x-pbn; charset=ISO-8859-1" ++ NL ++ NL.

(** The text that [stage4] writes to the output file *)
Definition stage4 (boards : gmap str (gmap str str)) (rows : list row3) : str :=
  PBN_HEADER ++ concat (map (stage4_row boards) rows).

(** ** Files

    A file written in text mode on a system whose line separator is ['\n']
    holds the text as it is; read in text mode, every ['\r\n'] and every
    other ['\r'] of it comes back as ['\n']. *)
Fixpoint universal_newlines (s : str) : str :=
  match s with
  | [] => []
  | c :: s' =>
      if (c =? 13)%N then
        match s' with
        | d :: s'' =>
            if (d =? 10)%N then 10%N :: universal_newlines s''
            else 10%N :: universal_newlines s'
        | [] => [10%N]
        end
      else c :: universal_newlines s'
  end.

Definition read_text (written : str) : str := universal_newlines written.

(** ** [generate_lesson.py]: [parse_boards] *)

Record board_rec : Type := Board {
  meta_tags : list (str * str);
  auction_dealer : str;
  auction_lines : list str;
  b_notes : gmap N str;
  note_lines : list str;
  commentary : str
}.

Definition new_board : board_rec := Board [] (py "N") [] ∅ [] [].

Record pstate : Type := PState {
  p_boards : list board_rec;
  p_current : option board_rec;
  in_auction : bool;
  in_commentary : bool;
  commentary_text : str
}.

Definition init_pstate : pstate := PState [] None false false [].

(** [\[(\w+)\s+"(.* )"\]] (without the space in the second group) *)
Definition RULE_TAG : regex :=
  seq_of [Lit (py "["); Group 1 (Plus is_word); Plus isspace; Lit QUOTE;
          Group 2 (Star not_newline); Lit QUOTE; Lit (py "]")].

Definition tag_match (stripped : str) : option (str * str) :=
  match re_match RULE_TAG stripped with
  | Some m => Some (group m 1, group m 2)
  | None => None
  end.

(** [(\d+):(.+)] *)
Definition RULE_NOTE : regex :=
  seq_of [Group 1 (Plus is_digit); Lit (py ":"); Group 2 (Plus not_newline)].

(** [nm = re.match(...)] with [int(nm.group(1))] and [nm.group(2)] when
    there is a match.  [Some None]: no match; [None] stands for the
    [ValueError] of [int]. *)
Definition note_match (value : str) : option (option (N * str)) :=
  match re_match RULE_NOTE value with
  | Some m =>
      match int_of_str (group m 1) with
      | Some n => Some (Some (n, group m 2))
      | None => None
      end
  | None => Some None
  end.

(** [if current: ...; boards.append(current)] *)
Definition flush (st : pstate) : pstate :=
  match p_current st with
  | Some cur =>
      match commentary_text st with
      | [] =>
          PState (p_boards st ++ [cur]) (p_current st)
                 (in_auction st) (in_commentary st) []
      | _ :: _ =>
          let cur' := Board (meta_tags cur) (auction_dealer cur)
                            (auction_lines cur) (b_notes cur) (note_lines cur)
                            (strip (commentary_text st)) in
          PState (p_boards st ++ [cur']) (p_current st)
                 (in_auction st) (in_commentary st) []
      end
  | None => st
  end.

(** The branch of a tag line.  [None] stands for the [TypeError] of a tag
    met before the first [Event] tag, when [current] is [None], and for
    the [ValueError] of the number of a [Note] tag. *)
Definition parse_tag (st : pstate) (stripped tag value : str) : option pstate :=
  let st :=
    if str_eqb tag (py "Event") then
      let st := flush st in
      PState (p_boards st) (Some new_board) false false (commentary_text st)
    else st in
  match p_current st with
  | None => None
  | Some cur =>
      if str_eqb tag (py "Auction") then
        let cur' := Board (meta_tags cur) value (auction_lines cur)
                          (b_notes cur) (note_lines cur) (commentary cur) in
        Some (PState (p_boards st) (Some cur') true (in_commentary st)
                     (commentary_text st))
      else if str_eqb tag (py "Note") then
        match note_match value with
        | Some nm =>
            let notes' :=
              match nm with
              | Some (n, text) => <[n := text]> (b_notes cur)
              | None => b_notes cur
              end in
            let cur' := Board (meta_tags cur) (auction_dealer cur)
                              (auction_lines cur) notes'
                              (note_lines cur ++ [stripped]) (commentary cur) in
            Some (PState (p_boards st) (Some cur') false (in_commentary st)
                         (commentary_text st))
        | None => None
        end
      else
        let cur' := Board (meta_tags cur ++ [(tag, value)]) (auction_dealer cur)
                          (auction_lines cur) (b_notes cur) (note_lines cur)
                          (commentary cur) in
        Some (PState (p_boards st) (Some cur') (in_auction st) (in_commentary st)
                     (commentary_text st))
  end.

(** One round of the loop [for line in lines]. *)
Definition parse_line (st : pstate) (line : str) : option pstate :=
  let stripped := strip line in
  if startswith (py "%") stripped then Some st
  else
    match tag_match stripped with
    | Some (tag, value) => parse_tag st stripped tag value
    | None =>
        if startswith (py "{") stripped then
          Some (PState (p_boards st) (p_current st) false
                       (negb (contains (py "}") (drop 1 stripped)))
                       (commentary_text st ++ stripped ++ NL))
        else if in_commentary st then
          Some (PState (p_boards st) (p_current st) (in_auction st)
                       (negb (contains (py "}") stripped))
                       (commentary_text st ++ stripped ++ NL))
        else if in_auction st && negb (bool_decide (stripped = [])) then
          match p_current st with
          | Some cur =>
              let cur' := Board (meta_tags cur) (auction_dealer cur)
                                (auction_lines cur ++ [stripped]) (b_notes cur)
                                (note_lines cur) (commentary cur) in
              Some (PState (p_boards st) (Some cur') (in_auction st)
                           (in_commentary st) (commentary_text st))
          | None => None
          end
        else Some st
    end.

Fixpoint parse_lines (st : pstate) (lines : list str) : option pstate :=
  match lines with
  | [] => Some st
  | line :: lines' =>
      match parse_line st line with
      | Some st' => parse_lines st' lines'
      | None => None
      end
  end.

Definition parse_boards (content : str) : option (list board_rec) :=
  match parse_lines init_pstate (split_char 10 content) with
  | Some st => Some (p_boards (flush st))
  | None => None
  end.

(** *** What the round trip is about *)

(** The dealer, the auction-body lines and the footnotes of a board *)
Definition summary (b : board_rec) : str * list str * gmap N str :=
  (auction_dealer b, auction_lines b, b_notes b).

(** The footnote string of Stage 3 for the footnotes [fs] *)
Definition bid_notes_of (fs : list (N * str)) : str :=
  join (py "|") (map (fun f => note_entry (fst f) (snd f)) fs).

(** The footnotes as a lookup table *)
Definition notes_map (fs : list (N * str)) : gmap N str :=
  fold_left (fun m f => <[fst f := snd f]> m) fs ∅.

Definition one_line (s : str) : bool :=
  forallb (fun c => negb (c =? 10)%N && negb (c =? 13)%N) s.

(** A footnote text that the tag format can carry: not empty, on one
    line, without the separator [|]. *)
Definition note_text_ok (t : str) : bool :=
  match t with
  | [] => false
  | _ :: _ => one_line t && forallb (fun c => negb (c =? 124)%N) t
  end.

(** A number whose numeral [int] converts: it has at most
    [INT_MAX_STR_DIGITS] digits. *)
Definition numeral_ok (n : N) : Prop :=
  (N.of_nat (length (str_of_int n)) <= INT_MAX_STR_DIGITS)%N.

(** An auction-body line that the parser takes for one: neither a
    comment line, nor a tag, nor the start of a commentary block. *)
Definition body_line_ok (l : str) : bool :=
  negb (startswith (py "%") l) && negb (startswith (py "{") l)
  && match tag_match l with Some _ => false | None => true end.

(** The conditions on a row with the footnotes [fs] and its board under
    which the round trip is proved. *)
Definition row_ok (board : gmap str str) (row : row3) (fs : list (N * str))
    : Prop :=
  r_bid_notes row = bid_notes_of fs
  /\ Forall (fun f => numeral_ok (fst f)) fs
  /\ Forall (fun f => note_text_ok (snd f) = true) fs
  /\ forallb body_line_ok (auction_body_lines (r_auction row)) = true
  /\ one_line (r_deal row) = true
  /\ one_line (r_notes row) = true
  /\ map_Forall (fun _ value => one_line value = true) board.

(** The summaries expected for the rows whose board is resolved *)
Fixpoint expected_summaries (boards : gmap str (gmap str str))
    (rows : list (row3 * list (N * str))) : list (str * list str * gmap N str) :=
  match rows with
  | [] => []
  | (row, fs) :: rows' =>
      match resolve boards row with
      | Some board =>
          (get board (py "Dealer") (py "N"),
           auction_body_lines (r_auction row), notes_map fs)
          :: expected_summaries boards rows'
      | None => expected_summaries boards rows'
      end
  end.

(** The summaries of the boards of a parser state, the current one last *)
Definition summaries (st : pstate) : list (str * list str * gmap N str) :=
  map summary (p_boards st)
  ++ match p_current st with
     | Some cur => [summary cur]
     | None => []
     end.

(** A text that starts and ends with a character that is not white space *)
Definition tight (s : str) : bool :=
  match s with
  | c :: _ => negb (isspace c)
  | [] => false
  end
  && match rev s with
     | e :: _ => negb (isspace e)
     | [] => false
     end.

(** A text whose only white space is the space character *)
Definition inline (s : str) : bool :=
  forallb (fun c => negb (isspace c) || (c =? 32)%N) s.

(** What the tokens, the bids and the lines of an auction are *)
Definition good (s : str) : Prop := tight s = true /\ inline s = true.

(** The lines that the write of the auction makes: one empty line when
    the auction has no bid *)
Definition body_or_blank (body : list str) : list str :=
  match body with
  | [] => [[]]
  | _ :: _ => body
  end.

(** The lines of a board in the output file *)
Definition stage4_lines (board : gmap str str) (row : row3) : list str :=
  [tag_line (py "Event") (get board (py "Event") [])]
  ++ map (fun nv => tag_line (fst nv) (snd nv))
       [(py "Site", get board (py "Site") []);
        (py "Date", get board (py "Date") []);
        (py "Board", r_deal row);
        (py "West", []); (py "North", []); (py "East", []); (py "South", []);
        (py "Dealer", get board (py "Dealer") (py "N"));
        (py "Vulnerable", get board (py "Vulnerable") (py "None"));
        (py "Deal", get board (py "Deal") []);
        (py "Scoring", []); (py "Declarer", []); (py "Contract", []);
        (py "Result", [])]
  ++ [tag_line (py "Auction") (get board (py "Dealer") (py "N"))]
  ++ body_or_blank (auction_body_lines (r_auction row))
  ++ note_tags (r_bid_notes row)
  ++ notes_block (r_notes row)
  ++ [[]].

(** A tag name that is kept among the [meta_tags] *)
Definition meta_name_ok (name : str) : bool :=
  negb (bool_decide (name = [])) && forallb is_word name
  && negb (str_eqb name (py "Event")) && negb (str_eqb name (py "Auction"))
  && negb (str_eqb name (py "Note")).

Definition add_meta (cur : board_rec) (tag value : str) : board_rec :=
  Board (meta_tags cur ++ [(tag, value)]) (auction_dealer cur)
        (auction_lines cur) (b_notes cur) (note_lines cur) (commentary cur).

Definition add_body (cur : board_rec) (body : list str) : board_rec :=
  Board (meta_tags cur) (auction_dealer cur) (auction_lines cur ++ body)
        (b_notes cur) (note_lines cur) (commentary cur).

Definition note_tag (f : N * str) : str :=
  tag_line (py "Note") (note_entry (fst f) (snd f)).

Definition add_notes (cur : board_rec) (fs : list (N * str)) : board_rec :=
  Board (meta_tags cur) (auction_dealer cur) (auction_lines cur)
        (fold_left (fun m f => <[fst f := snd f]> m) fs (b_notes cur))
        (note_lines cur ++ map note_tag fs) (commentary cur).

Definition HEADER_LINES : list str :=
  [py "% PBN 2.1"; py "% EXPORT";
   py "%Content-type: text/x-pbn; charset=ISO-8859-1"; []].

(** The lines that [stage4] writes for a row: none when its board is not
    resolved *)
Definition row_lines (boards : gmap str (gmap str str)) (row : row3) : list str :=
  match resolve boards row with
  | Some board => stage4_lines board row
  | None => []
  end.

(** The rows, with their footnotes, whose resolved board meets the
    conditions *)
Definition rows_ok (boards : gmap str (gmap str str))
    (rows : list (row3 * list (N * str))) : Prop :=
  Forall (fun rf => forall board, resolve boards (fst rf) = Some board ->
                                  row_ok board (fst rf) (snd rf)) rows.


(** A reference document with the one board 3, dealt by South *)
Definition EXAMPLE_BOARDS : gmap str (gmap str str) :=
  {[ py "3" := {[ py "Dealer" := py "S" ]} ]}.

(** *** Vocabulary for the escaping rules *)

Arguments is_suit : simpl never.
Arguments is_rank : simpl never.
Arguments is_count_char : simpl never.

(** The pattern [r] matches nowhere in [s], which comes after [before]. *)
Fixpoint free (r : regex) (before : option char) (s : str) : Prop :=
  match s with
  | [] => True
  | c :: s' => match_at r before s = None /\ free r (Some c) s'
  end.

(** [Ins G before s y]: the text [y] is the text [s] with a backslash put
    in front of some suit letters, each of which comes directly after a
    character of the class [G].  [before] is the character in front of
    [s]. *)
Inductive Ins (G : char -> bool) : option char -> str -> str -> Prop :=
| Ins_nil before : Ins G before [] []
| Ins_copy before c s y :
    Ins G (Some c) s y -> Ins G before (c :: s) (c :: y)
| Ins_esc a X s y :
    G a = true -> is_suit X = true ->
    Ins G (Some X) s y -> Ins G (Some a) (X :: s) (92%N :: X :: y).

(** The character in front of the text that follows [w] *)
Definition last_or (before : option char) (w : str) : option char :=
  match last w with
  | Some c => Some c
  | None => before
  end.

(** The five passes of [add_suit_symbols] *)
Definition sub_count (text : str) : str := re_sub RULE_COUNT repl_count text.
Definition sub_card (text : str) : str := re_sub RULE_CARD repl_pair text.
Definition sub_bid (text : str) : str := re_sub RULE_BID repl_pair text.
Definition sub_keycard (text : str) : str := re_sub RULE_KEYCARD repl_keycard text.
Definition sub_for (text : str) : str := re_sub RULE_FOR repl_pair text.

(** The shape that the card rule and the bid rule share: a character of
    the class [P], a suit letter, a word boundary. *)
Definition RULE_PAIR (P : char -> bool) : regex :=
  seq_of [Group 1 (Chr P); Group 2 (Chr is_suit); WordB].

(** What the count rule asks of the text after the run of digits and
    signs: a space, a suit letter, a word boundary. *)
Definition count_tail (rest : str) : bool :=
  match rest with
  | c0 :: X :: t => (32 =? c0)%N && is_suit X && at_boundary (Some X) t
  | _ => false
  end.

Definition is_space_char (c : char) : bool := (c =? 32)%N.

Definition KEYCARD_TAIL : str := Eval vm_compute in py " keycard".
Definition FOR_HEAD : str := Eval vm_compute in py "for ".

(** The substitution keeps the first character when the replacement
    starts with the first character of the match. *)
Definition keeps_head (r : regex) (repl : mstate -> str) : Prop :=
  forall before c s m,
    match_at r before (c :: s) = Some m ->
    exists n out, length (m_consumed m) = S n /\ repl m = c :: out.


(** ** [generate_lesson.py]: reading the bids of an auction *)

(** [re.match(r'^\d(C|D|H|S|NT)$', t)] *)
Definition RULE_BID_TOKEN : regex :=
  seq_of [Bol; Chr is_digit;
          Group 1 (Alt (Lit (py "C")) (Alt (Lit (py "D"))
                     (Alt (Lit (py "H")) (Alt (Lit (py "S"))
                        (Lit (py "NT"))))));
          Eol].

(** [s.rstrip('?')] *)
Definition rstrip_question (s : str) : str :=
  rstrip_by (fun c => (c =? 63)%N) s.

(** The only code points whose upper case is [X] are [x] and [X], so the
    comparisons with ['X'] and ['XX'] are decided by [upper] as in Python,
    as those with ['PASS'] and ['P'] are. *)
Definition is_valid_bid_token (token : str) : bool :=
  let t := rstrip_question token in
  if str_eqb (upper t) (py "PASS") || str_eqb (upper t) (py "P")
     || str_eqb (upper t) (py "X") || str_eqb (upper t) (py "XX")
  then true
  else match re_match RULE_BID_TOKEN t with
       | Some _ => true
       | None => false
       end.

(** [re.match(r'^=\d+=$', token)] and [re.match(r'^=(\d+)=$', token)]: the
    two tests differ by the group, which the code does not read. *)
Definition RULE_FLAG : regex :=
  seq_of [Bol; Lit (py "="); Group 1 (Plus is_digit); Lit (py "="); Eol].

Definition is_note_flag (token : str) : bool :=
  match re_match RULE_FLAG token with
  | Some _ => true
  | None => false
  end.

(** [int(token.strip('='))] for a token that is a flag: what is left of it
    is its run of decimal digits.  [None] stands for the [ValueError] of
    [int]. *)
Definition flag_number (token : str) : option N :=
  let is_eq := fun c => (c =? 61)%N in
  int_of_str (rstrip_by is_eq (lstrip_by is_eq token)).

(** [seats.index(dealer)]; [None] stands for the [ValueError]. *)
Fixpoint index_of_str (x : str) (l : list str) : option nat :=
  match l with
  | [] => None
  | y :: l' =>
      if str_eqb y x then Some 0%nat
      else option_map S (index_of_str x l')
  end.

(** [seats[(dealer_idx + bid_idx) % 4]] *)
Definition seat_at (dealer_idx bid_idx : nat) : str :=
  default [] (SEATS !! ((dealer_idx + bid_idx) mod 4)%nat).

(** [clean], the token without its question marks, with [P] written out *)
Definition clean_bid (token : str) : str :=
  let clean := rstrip_question token in
  if str_eqb (upper clean) (py "P") then py "Pass" else clean.

(** The [while] loop of [parse_auction_bids]; the index [i] of the source
    is the suffix [tokens] that is still to be read, and [None] stands for
    the [ValueError] of [int].  The only code points whose lower case is
    [o] or [r] are these letters and [O] and [R], so
    [token.lower() == 'or'] is decided by [lower] as in Python. *)
Fixpoint bids_loop (dealer_idx bid_idx : nat) (tokens : list str)
    : option (list (str * str * option N)) :=
  match tokens with
  | [] => Some []
  | token :: tl =>
      if str_eqb (lower token) (py "or") then Some []
      else if is_note_flag token then bids_loop dealer_idx bid_idx tl
      else if negb (is_valid_bid_token token) then Some []
      else
        let clean := clean_bid token in
        let seat := seat_at dealer_idx bid_idx in
        match tl with
        | nxt :: rest =>
            if is_note_flag nxt
            then match flag_number nxt with
                 | Some note_num =>
                     match bids_loop dealer_idx (S bid_idx) rest with
                     | Some bids => Some ((seat, clean, Some note_num) :: bids)
                     | None => None
                     end
                 | None => None
                 end
            else match bids_loop dealer_idx (S bid_idx) tl with
                 | Some bids => Some ((seat, clean, None) :: bids)
                 | None => None
                 end
        | [] => Some [(seat, clean, None)]
        end
  end.

(** [None] stands for the [ValueError] of [seats.index] and of [int]. *)
Definition parse_auction_bids (auction_lines : list str) (dealer : str)
    : option (list (str * str * option N)) :=
  match index_of_str dealer SEATS with
  | Some dealer_idx =>
      bids_loop dealer_idx 0 (words (join (py " ") auction_lines))
  | None => None
  end.

(** ** [generate_lesson.py]: [trim_trailing_passes] *)

(** The condition of the loop on the last bid: a pass without footnote *)
Definition is_plain_pass (b : str * str * option N) : bool :=
  str_eqb (upper (snd (fst b))) (py "PASS")
  && match snd b with
     | None => true
     | Some _ => false
     end.

(** [while bids and ...: bids.pop()], on the list read from its end *)
Fixpoint pop_passes (reversed : list (str * str * option N))
    : list (str * str * option N) :=
  match reversed with
  | [] => []
  | b :: rest => if is_plain_pass b then pop_passes rest else reversed
  end.

Definition trim_trailing_passes (bids : list (str * str * option N))
    : list (str * str * option N) :=
  rev (pop_passes (rev bids)).

(** ** [generate_lesson.py]: [get_tag] and [write_lesson_pbn] *)

Fixpoint get_tag (tags : list (str * str)) (name : str) : str :=
  match tags with
  | [] => []
  | (tag, value) :: tags' =>
      if str_eqb tag name then value else get_tag tags' name
  end.

(** [rotate == 'all' or (rotate == 'alternate' and board_idx % 2 == 1)] *)
Definition do_rotate_at (rotate : str) (board_idx : nat) : bool :=
  str_eqb rotate (py "all")
  || (str_eqb rotate (py "alternate") && (board_idx mod 2 =? 1)%nat).

(** The value that is written for a tag of [meta_tags]; [None] stands for
    the exception of [rotate_deal_tag]. *)
Definition meta_value (event_name : str) (do_rotate : bool)
    (tag value : str) : option str :=
  if str_eqb tag (py "Event") then Some event_name
  else if str_eqb tag (py "Deal") && do_rotate then rotate_deal_tag value
  else Some value.

(** The lines of the loop [for tag, value in board['meta_tags']] *)
Fixpoint meta_lines (event_name : str) (do_rotate : bool)
    (tags : list (str * str)) : option (list str) :=
  match tags with
  | [] => Some []
  | (tag, value) :: tags' =>
      match meta_value event_name do_rotate tag value with
      | Some v =>
          match meta_lines event_name do_rotate tags' with
          | Some ls => Some (tag_line tag v :: ls)
          | None => None
          end
      | None => None
      end
  end.

(** The dealer that is written: [rotate_seat(dealer)] when the board is
    rotated; [None] stands for its [KeyError]. *)
Definition lesson_dealer (do_rotate : bool) (board : board_rec) : option str :=
  if do_rotate then rotate_seat (auction_dealer board)
  else Some (auction_dealer board).

Definition lesson_tags (skill_path : str) : list str :=
  [tag_line (py "Student") (py "S");
   tag_line (py "BCFlags") (py "1f");
   tag_line (py "Category") (py "Precision");
   tag_line (py "Difficulty") (py "intermediate");
   tag_line (py "SkillPath") skill_path].

(** What the body of the loop over the boards writes for one board, one
    element for every line feed that ends a write.  [None] stands for an
    exception, which leaves the file unfinished. *)
Definition lesson_board (event_name skill_path : str) (do_rotate : bool)
    (board : board_rec) : option str :=
  let board_num := get_tag (meta_tags board) (py "Board") in
  match meta_lines event_name do_rotate (meta_tags board) with
  | None => None
  | Some metas =>
      match lesson_dealer do_rotate board with
      | None => None
      | Some dealer =>
          match parse_auction_bids (auction_lines board) dealer with
          | None => None
          | Some bids =>
              let bids := trim_trailing_passes bids in
              let commentary :=
                generate_south_commentary bids (b_notes board) board_num
                  (commentary board) in
              Some (unlines (metas
                             ++ [tag_line (py "Auction") dealer]
                             ++ auction_lines board
                             ++ note_lines board
                             ++ lesson_tags skill_path
                             ++ [commentary; []]))
          end
      end
  end.

(** [for board_idx, board in enumerate(boards)] *)
Fixpoint lesson_boards (event_name skill_path rotate : str)
    (board_idx : nat) (boards : list board_rec) : option str :=
  match boards with
  | [] => Some []
  | board :: boards' =>
      match lesson_board event_name skill_path
              (do_rotate_at rotate board_idx) board with
      | None => None
      | Some text =>
          match lesson_boards event_name skill_path rotate (S board_idx)
                  boards' with
          | Some rest => Some (text ++ rest)
          | None => None
          end
      end
  end.

(** The text that [write_lesson_pbn] writes to the output file *)
Definition write_lesson_pbn (boards : list board_rec)
    (event_name skill_path rotate : str) : option str :=
  match lesson_boards event_name skill_path rotate 0 boards with
  | Some text => Some (PBN_HEADER ++ text)
  | None => None
  end.

(** ** Stage 2: [stage2] *)

(** A row of the Stage-1 and of the Stage-2 table, as the reader of the
    table gives it *)
Record row2 : Type := Row2 {
  r2_deal : str;
  r2_auction : str;
  r2_notes : str
}.

(** [raw_by_deal], after the loop that fills it *)
Definition raw_by_deal (rows : list row2) : gmap str str :=
  fold_left (fun m row => <[r2_deal row := r2_auction row]> m) rows ∅.

Definition LIKE : str := Eval vm_compute in py "Like #".

(** [raw.split('#')[1].strip()]; the text starts with ['Like #'], so the
    list has a second element. *)
Definition ref_num_of (raw : str) : str :=
  strip (default [] (split_char 35 raw !! 1%nat)).

(** The raw auction that is expanded for a row *)
Definition resolve_like (lookup : gmap str str) (raw : str) : str :=
  if startswith LIKE raw then default raw (lookup !! ref_num_of raw)
  else raw.

Definition stage2_row (lookup : gmap str str) (row : row2) : row2 :=
  Row2 (r2_deal row) (expand_auction (resolve_like lookup (r2_auction row)))
       (r2_notes row).

(** The rows that [stage2] writes *)
Definition stage2 (rows : list row2) : list row2 :=
  map (stage2_row (raw_by_deal rows)) rows.

(** ** Stage 4: [parse_pbn_boards] *)

(** The lines that the iteration over a text file gives: each with the
    line feed that ends it, the last one without when the text does not
    end with one. *)
Fixpoint file_lines_loop (s : str) (cur : str) : list str :=
  match s with
  | [] =>
      match cur with
      | [] => []
      | _ :: _ => [cur]
      end
  | c :: s' =>
      if (c =? 10)%N then (cur ++ [c]) :: file_lines_loop s' []
      else file_lines_loop s' (cur ++ [c])
  end.

Definition file_lines (content : str) : list str := file_lines_loop content [].

(** [s.index(c)]; [None] stands for the [ValueError]. *)
Fixpoint index_of (c : char) (s : str) : option nat :=
  match s with
  | [] => None
  | a :: s' => if (a =? c)%N then Some 0%nat else option_map S (index_of c s')
  end.

(** [s.rindex(c)] *)
Definition rindex_of (c : char) (s : str) : option nat :=
  match index_of c (rev s) with
  | Some k => Some (length s - 1 - k)%nat
  | None => None
  end.

(** [s[i:j]] for indices that are not negative *)
Definition slice (i j : nat) (s : str) : str := take (j - i) (drop i s).

Record pbn_state : Type := PbnState {
  pb_boards : gmap str (gmap str str);
  current_tags : gmap str str
}.

Definition BOARD : str := Eval vm_compute in py "Board".

(** [if current_tags and 'Board' in current_tags: ...] *)
Definition close_block (st : pbn_state) : pbn_state :=
  match current_tags st !! BOARD with
  | Some number => PbnState (<[number := current_tags st]> (pb_boards st)) ∅
  | None => st
  end.

(** One round of the loop [for line in f].  [None] stands for the
    [ValueError] of [line.index(' ')]. *)
Definition pbn_line (st : pbn_state) (line : str) : option pbn_state :=
  let line := strip line in
  match line with
  | [] => Some (close_block st)
  | _ :: _ =>
      if startswith (py "[") line && contains QUOTE line then
        match index_of 32 line with
        | Some tag_end =>
            let tag_name := slice 1 tag_end line in
            match index_of 34 line, rindex_of 34 line with
            | Some first, Some last =>
                let tag_value := slice (first + 1) last line in
                Some (PbnState (pb_boards st)
                               (<[tag_name := tag_value]> (current_tags st)))
            | _, _ => None
            end
        | None => None
        end
      else Some st
  end.

Fixpoint pbn_lines (st : pbn_state) (lines : list str) : option pbn_state :=
  match lines with
  | [] => Some st
  | line :: lines' =>
      match pbn_line st line with
      | Some st' => pbn_lines st' lines'
      | None => None
      end
  end.

(** The dictionary that [parse_pbn_boards] returns for a file with the
    text [content] *)
Definition parse_pbn_boards (content : str)
    : option (gmap str (gmap str str)) :=
  match pbn_lines (PbnState ∅ ∅) (file_lines content) with
  | Some st => Some (pb_boards (close_block st))
  | None => None
  end.

(** A stripped line at which [parse_pbn_boards] stops with an error: it
    starts with a bracket, holds a double quote and no space. *)
Definition bad_tag_line (line : str) : bool :=
  startswith (py "[") (strip line) && contains QUOTE (strip line)
  && negb (existsb (fun c => (c =? 32)%N) (strip line)).

(** The text of a block of tag lines, closed by an empty line *)
Definition block_text (tags : list (str * str)) : str :=
  unlines (map (fun nv => tag_line (fst nv) (snd nv)) tags ++ [[]]).

(** The tags of a block, put into a dictionary one after the other *)
Definition add_tags (tags : list (str * str)) (m : gmap str str)
    : gmap str str :=
  fold_left (fun m nv => <[fst nv := snd nv]> m) tags m.

(** A tag name that [parse_pbn_boards] reads back: without space, double
    quote or line break *)
Definition pbn_name_ok (name : str) : bool :=
  forallb (fun c => negb (c =? 32)%N && negb (c =? 34)%N && negb (c =? 10)%N)
          name.

(** *** Vocabulary for the properties of the readers *)

(** A token: a text that is not empty and holds no white space *)
Definition is_token (t : str) : bool :=
  match t with
  | [] => false
  | _ :: _ => forallb (fun c => negb (isspace c)) t
  end.

(** A token at which the loop of [parse_auction_bids] breaks: [or] in any
    case, or a token that is neither a footnote flag nor a valid bid. *)
Definition stops_reading (token : str) : bool :=
  str_eqb (lower token) (py "or")
  || (negb (is_note_flag token) && negb (is_valid_bid_token token)).

(** Auction lines without a token of more than [INT_MAX_STR_DIGITS]
    characters: no footnote flag among their tokens is too long for
    [int]. *)
Definition short_tokens (auction_lines : list str) : bool :=
  forallb (fun token => (N.of_nat (length token) <=? INT_MAX_STR_DIGITS)%N)
          (words (join (py " ") auction_lines)).

(** A board at which [write_lesson_pbn] raises an exception: its dealer
    is none of the four seats, or the board is rotated and has a [Deal]
    tag whose value is empty or starts with no seat letter. *)
Definition lesson_board_fails (do_rotate : bool) (board : board_rec) : Prop :=
  auction_dealer board ∉ SEATS
  \/ (do_rotate = true
      /\ exists value, (py "Deal", value) ∈ meta_tags board
                       /\ forall c, head value = Some c -> [c] ∉ SEATS).

(** What reading one closed block of tag lines does to the state of
    [parse_pbn_boards]: the tags are put into the current dictionary, and
    the block is closed. *)
Definition read_block (st : pbn_state) (tags : list (str * str)) : pbn_state :=
  close_block (PbnState (pb_boards st) (add_tags tags (current_tags st))).

(** The names and the values of a block that are read back as written *)
Definition block_ok (tags : list (str * str)) : bool :=
  forallb (fun nv => pbn_name_ok (fst nv) && forallb not_newline (snd nv)) tags.

(** A closed block that has a [Board] tag, filed under its number *)
Definition file_block (boards : gmap str (gmap str str))
    (tags : list (str * str)) : gmap str (gmap str str) :=
  match add_tags tags ∅ !! BOARD with
  | Some number => <[number := add_tags tags ∅]> boards
  | None => boards
  end.

(** The line that asks for a bid *)
Definition PROMPT : str := Eval vm_compute in py "What will you bid now? [BID ".

Definition is_prompt (line : str) : bool := startswith PROMPT line.

Definition count_if {A : Type} (p : A -> bool) (l : list A) : nat :=
  length (List.filter p l).

Definition is_south (b : str * str * option N) : bool :=
  str_eqb (fst (fst b)) (py "S").

(** A line at which [parse_boards] reads a footnote number that [int]
    does not convert: stripped, it is no [%] line, its tag is [Note], and
    its value starts with more than [INT_MAX_STR_DIGITS] digits, a colon
    and a character that is no line break. *)
Definition note_overflows (line : str) : bool :=
  negb (startswith (py "%") (strip line))
  && match tag_match (strip line) with
     | Some (tag, value) =>
         str_eqb tag (py "Note")
         && match re_match RULE_NOTE value with
            | Some m =>
                (INT_MAX_STR_DIGITS <? N.of_nat (length (group m 1)))%N
            | None => false
            end
     | None => false
     end.

(** The name of the first tag of a document: that of the first line
    which, stripped, is not a [%] line and matches the tag pattern of
    [parse_boards] *)
Fixpoint first_tag (lines : list str) : option str :=
  match lines with
  | [] => None
  | line :: rest =>
      if startswith (py "%") (strip line) then first_tag rest
      else match tag_match (strip line) with
           | Some (tag, _) => Some tag
           | None => first_tag rest
           end
  end.

(** ** Stage 1: [stage1] *)

(** A deal block: the number, the auction of the line that opens it, and
    the lines that follow *)
Record block : Type := Block {
  b_num : N;
  b_auction : str;
  extra_lines : list str
}.

(** [deal_blocks.append(current_block)] when there is a current block *)
Definition with_current (deal_blocks : list block)
    (current_block : option block) : list block :=
  match current_block with
  | Some b => deal_blocks ++ [b]
  | None => deal_blocks
  end.

(** The loop [for line in lines] that collects the deal blocks; a [break]
    returns the state as it is.  The result is the list [deal_blocks] and
    the block [current_block] after the loop; [None] stands for the
    [ValueError] of [int]. *)
Fixpoint blocks_loop (lines : list str) (deal_blocks : list block)
    (current_block : option block) (consecutive_blanks : nat)
    : option (list block * option block) :=
  match lines with
  | [] => Some (deal_blocks, current_block)
  | line :: lines' =>
      let stripped := strip line in
      match stripped with
      | [] =>
          let consecutive_blanks := S consecutive_blanks in
          match current_block with
          | Some b =>
              if (2 <=? consecutive_blanks)%nat
              then blocks_loop lines' (deal_blocks ++ [b]) None
                     consecutive_blanks
              else blocks_loop lines' deal_blocks current_block
                     consecutive_blanks
          | None =>
              blocks_loop lines' deal_blocks current_block consecutive_blanks
          end
      | _ :: _ =>
          match current_block, deal_blocks with
          | None, _ :: _ => Some (deal_blocks, current_block)
          | _, _ =>
              match re_match RULE_DEAL stripped with
              | Some m =>
                  match int_of_str (group m 1) with
                  | Some deal_num =>
                      if (40 <? deal_num)%N
                      then Some (deal_blocks, current_block)
                      else blocks_loop lines'
                             (with_current deal_blocks current_block)
                             (Some (Block deal_num (strip (group m 2)) [])) 0
                  | None => None
                  end
              | None =>
                  match current_block with
                  | Some b =>
                      blocks_loop lines' deal_blocks
                        (Some (Block (b_num b) (b_auction b)
                                     (extra_lines b ++ [stripped]))) 0
                  | None => blocks_loop lines' deal_blocks None 0
                  end
              end
          end
      end
  end.

(** The list [deal_blocks] after the last block has been added *)
Definition deal_blocks_of (lines : list str) : option (list block) :=
  match blocks_loop lines [] None 0 with
  | Some (deal_blocks, current_block) =>
      Some match current_block with
           | Some b =>
               if (b_num b <=? 40)%N then deal_blocks ++ [b] else deal_blocks
           | None => deal_blocks
           end
  | None => None
  end.

(** What a character of a pattern matches under [re.IGNORECASE], for the
    characters of the pattern of the alternate auctions: the letter in
    both cases and, for [i], the dotted capital I and the dotless i. *)
Definition ci_char (p x : char) : bool :=
  (lower_char x =? lower_char p)%N
  || ((lower_char p =? 105)%N && ((x =? 304)%N || (x =? 305)%N)).

Definition ci_lit (l : str) : regex := seq_of (map (fun p => Chr (ci_char p)) l).

(** [^(Alternative|Without interference|No interference):\s*(1C\b.* )]
    (without the space before the last parenthesis), with
    [re.IGNORECASE] *)
Definition RULE_ALT : regex :=
  seq_of [Bol;
          Group 1 (Alt (ci_lit (py "Alternative"))
                     (Alt (ci_lit (py "Without interference"))
                          (ci_lit (py "No interference"))));
          Lit (py ":"); Star isspace;
          Group 2 (seq_of [Lit (py "1"); Chr (ci_char 67); WordB;
                           Star not_newline])].

Definition alt_match (extra : str) : option (str * str) :=
  match re_match RULE_ALT extra with
  | Some m => Some (strip (group m 1), strip (group m 2))
  | None => None
  end.

(** [^\*?Note:\s*(.* )] (without the space before the last parenthesis) *)
Definition RULE_NOTE_LINE : regex :=
  seq_of [Bol; Alt (Lit (py "*")) (Lit []); Lit (py "Note:"); Star isspace;
          Group 1 (Star not_newline)].

Definition note_line_match (extra : str) : option str :=
  match re_match RULE_NOTE_LINE extra with
  | Some m => Some (strip (group m 1))
  | None => None
  end.

(** The loop [for extra in block['extra_lines']] *)
Fixpoint extras_loop (extras : list str) (notes : list str)
    (alternates : list (str * str)) : list str * list (str * str) :=
  match extras with
  | [] => (notes, alternates)
  | extra :: rest =>
      match alt_match extra with
      | Some a => extras_loop rest notes (alternates ++ [a])
      | None =>
          match note_line_match extra with
          | Some n => extras_loop rest (notes ++ [n]) alternates
          | None => extras_loop rest (notes ++ [extra]) alternates
          end
      end
  end.

(** [for i, (label, alt_auction) in enumerate(alternates, 1)] *)
Fixpoint alt_rows (deal_num : str) (i : N) (alternates : list (str * str))
    : list row2 :=
  match alternates with
  | [] => []
  | (label, alt_auction) :: rest =>
      Row2 (deal_num ++ py "-" ++ str_of_int i) alt_auction label
      :: alt_rows deal_num (i + 1) rest
  end.

(** The rows of a block *)
Definition block_rows (b : block) : list row2 :=
  let deal_num := str_of_int (b_num b) in
  let '(notes, alternates) := extras_loop (extra_lines b) [] [] in
  Row2 deal_num (b_auction b) (strip (join (py " ") notes))
  :: alt_rows deal_num 1 alternates.

(** The rows that [stage1] writes for a file with the lines [lines];
    [None] stands for an exception, which leaves no table. *)
Definition stage1_rows (lines : list str) : option (list row2) :=
  match deal_blocks_of lines with
  | Some deal_blocks => Some (flat_map block_rows deal_blocks)
  | None => None
  end.

(** The rows that [stage1] writes for a file with the text [content] *)
Definition stage1 (content : str) : option (list row2) :=
  stage1_rows (file_lines content).


(** *** Vocabulary for the block loop *)

(** What one round of the loop of [blocks_loop] does: it goes on with a
    new state, leaves the loop with a [break], or raises. *)
Inductive loop_round : Type :=
| Next (deal_blocks : list block) (current_block : option block)
       (consecutive_blanks : nat)
| Break
| Raise.

Definition blocks_step (line : str) (deal_blocks : list block)
    (current_block : option block) (consecutive_blanks : nat) : loop_round :=
  match strip line with
  | [] =>
      match current_block with
      | Some b =>
          if (2 <=? S consecutive_blanks)%nat
          then Next (deal_blocks ++ [b]) None (S consecutive_blanks)
          else Next deal_blocks current_block (S consecutive_blanks)
      | None => Next deal_blocks current_block (S consecutive_blanks)
      end
  | _ :: _ =>
      match current_block, deal_blocks with
      | None, _ :: _ => Break
      | _, _ =>
          match re_match RULE_DEAL (strip line) with
          | Some m =>
              match int_of_str (group m 1) with
              | Some deal_num =>
                  if (40 <? deal_num)%N then Break
                  else Next (with_current deal_blocks current_block)
                            (Some (Block deal_num (strip (group m 2)) []))
                            0%nat
              | None => Raise
              end
          | None =>
              match current_block with
              | Some b =>
                  Next deal_blocks
                       (Some (Block (b_num b) (b_auction b)
                                    (extra_lines b ++ [strip line]))) 0%nat
              | None => Next deal_blocks None 0%nat
              end
          end
      end
  end.

(** The list [deal_blocks] after the last block has been added, for the
    state in which the loop ends *)
Definition finish_blocks (state : list block * option block) : list block :=
  match snd state with
  | Some b => if (b_num b <=? 40)%N then fst state ++ [b] else fst state
  | None => fst state
  end.

(** The line [N) auction] that opens the deal [N] *)
Definition deal_text (deal : N * str) : str :=
  str_of_int (fst deal) ++ py ") " ++ snd deal.

(** A deal that a line of its own carries: a number up to 40 and an
    auction on one line that neither starts nor ends with white space *)
Definition deal_ok (deal : N * str) : Prop :=
  (fst deal <= 40)%N /\ tight (snd deal) = true
  /\ forallb not_newline (snd deal) = true.
(** * Proofs *)

(** ** Facts on the string primitives *)

(** Replace the ASCII literals of the goal by their code points. *)
Ltac norm_lits :=
  repeat match goal with
         | |- context [py ?s] =>
             let v := eval vm_compute in (py s) in change (py s) with v
         end.

Ltac norm_lits_in H :=
  repeat match type of H with
         | context [py ?s] =>
             let v := eval vm_compute in (py s) in change (py s) with v in H
         end.

Lemma startswith_app (p t : str) : startswith p (p ++ t) = true.
Proof.
  induction p as [|a p IH]; simpl; [reflexivity|].
  rewrite N.eqb_refl. exact IH.
Qed.

Lemma startswith_inv (p s : str) :
  startswith p s = true -> exists t, s = p ++ t.
Proof.
  revert s. induction p as [|a p IH]; intros s H.
  - exists s. reflexivity.
  - destruct s as [|b s]; simpl in H; [discriminate|].
    apply andb_prop in H as [Hab Hp].
    apply N.eqb_eq in Hab. subst b.
    destruct (IH _ Hp) as [t ->]. exists t. reflexivity.
Qed.

Lemma lstrip_by_all (p : char -> bool) (s : str) :
  forallb p s = true -> lstrip_by p s = [].
Proof.
  induction s as [|c s IH]; simpl; [reflexivity|].
  intros H. apply andb_prop in H as [Hc Hs]. rewrite Hc. auto.
Qed.

Lemma last3_app3 (out : list str) (a b c : str) :
  last3 (out ++ [a; b; c]) = [a; b; c].
Proof.
  unfold last3. rewrite length_app. simpl.
  replace (length out + 3 - 3)%nat with (length out + 0)%nat by lia.
  rewrite drop_app_add. reflexivity.
Qed.

Lemma is_pass_PASS : is_pass PASS = true.
Proof. reflexivity. Qed.

Lemma needs_pass_app3 (out : list str) :
  needs_pass (out ++ [PASS; PASS; PASS]) = false.
Proof.
  unfold needs_pass. rewrite last3_app3, length_app. simpl.
  rewrite orb_false_r. apply Nat.ltb_ge. lia.
Qed.

(** The [while] loop of [expand_auction] stops within three rounds. *)
Lemma pad_loop_exits (out : list str) : needs_pass (pad_loop 3 out) = false.
Proof.
  simpl.
  destruct (needs_pass out) eqn:H0; [|exact H0].
  destruct (needs_pass (out ++ [PASS])) eqn:H1; [|exact H1].
  destruct (needs_pass ((out ++ [PASS]) ++ [PASS])) eqn:H2; [|exact H2].
  rewrite <- !app_assoc. simpl. apply needs_pass_app3.
Qed.

(** Further fuel changes nothing. *)
Lemma pad_loop_stable (n : nat) (out : list str) :
  needs_pass out = false -> pad_loop n out = out.
Proof. intros H. destruct n; simpl; [reflexivity|]. rewrite H. reflexivity. Qed.

Lemma pad_loop_fuel (n : nat) (out : list str) :
  (3 <= n)%nat -> pad_loop n out = pad_loop 3 out.
Proof.
  intros Hn.
  destruct n as [|[|[|n]]]; try lia. clear Hn.
  change (pad_loop (S (S (S n))) out) with
    (if needs_pass out then
       if needs_pass (out ++ [PASS]) then
         if needs_pass ((out ++ [PASS]) ++ [PASS])
         then pad_loop n (((out ++ [PASS]) ++ [PASS]) ++ [PASS])
         else (out ++ [PASS]) ++ [PASS]
       else out ++ [PASS]
     else out).
  simpl.
  destruct (needs_pass out); [|reflexivity].
  destruct (needs_pass (out ++ [PASS])); [|reflexivity].
  destruct (needs_pass ((out ++ [PASS]) ++ [PASS])); [|reflexivity].
  apply pad_loop_stable. rewrite <- !app_assoc. apply needs_pass_app3.
Qed.

Lemma needs_pass_false (out : list str) :
  needs_pass out = false ->
  (3 <= length out)%nat /\ forallb is_pass (last3 out) = true.
Proof.
  unfold needs_pass. intros H. apply orb_false_elim in H as [H1 H2].
  apply Nat.ltb_ge in H1. apply negb_false_iff in H2. auto.
Qed.


(** *** White-space-only input *)

Lemma SEP_eq : SEP = [32; 45; 32]%N.
Proof. reflexivity. Qed.

Lemma isspace_not (c d : char) :
  isspace c = true -> isspace d = false -> (c =? d)%N = false.
Proof.
  intros Hc Hd. destruct (N.eqb_spec c d) as [->|]; [congruence|reflexivity].
Qed.

Lemma normalize_dashes_space (s : str) :
  forallb isspace s = true -> normalize_dashes s = s.
Proof.
  unfold normalize_dashes, replace.
  induction s as [|c s IH]; [reflexivity|].
  intros H. simpl in H. apply andb_prop in H as [Hc Hs].
  cbn [replace_from].
  replace (startswith EN_SEP (c :: s)) with false.
  - rewrite IH by exact Hs. reflexivity.
  - unfold EN_SEP.
    destruct s as [|d s]; cbn [startswith]; [now rewrite andb_false_r|].
    simpl in Hs. apply andb_prop in Hs as [Hd _].
    rewrite (N.eqb_sym 8211 d), (isspace_not d 8211 Hd eq_refl).
    now rewrite andb_false_r.
Qed.

Lemma split_loop_space (s : str) (d : Z) (cur : str) (els : list str) :
  forallb isspace s = true -> split_loop s d cur els = (els, cur ++ s).
Proof.
  revert cur. induction s as [|c s IH]; intros cur H.
  - now rewrite app_nil_r.
  - simpl in H. apply andb_prop in H as [Hc Hs].
    cbn [split_loop].
    rewrite (isspace_not c LPAREN Hc eq_refl), (isspace_not c RPAREN Hc eq_refl).
    replace (startswith SEP (c :: s)) with false.
    + rewrite andb_false_r, IH by exact Hs. now rewrite <- app_assoc.
    + rewrite SEP_eq.
      destruct s as [|e s]; cbn [startswith]; [now rewrite andb_false_r|].
      simpl in Hs. apply andb_prop in Hs as [He _].
      rewrite (N.eqb_sym 45 e), (isspace_not e 45 He eq_refl).
      now rewrite andb_false_r.
Qed.

Lemma strip_space (s : str) : forallb isspace s = true -> strip s = [].
Proof.
  intros H. unfold strip, lstrip. now rewrite lstrip_by_all.
Qed.

Lemma expand_tokens_space (raw : str) :
  forallb isspace raw = true -> expand_tokens raw = [PASS; PASS; PASS].
Proof.
  intros H. unfold expand_tokens, split_elements.
  rewrite normalize_dashes_space, split_loop_space by exact H.
  destruct raw as [|c raw]; [reflexivity|].
  cbn [app expand_loop]. now rewrite (strip_space _ H).
Qed.

(** *** C10 *)

(** C10: [expand_auction] is a total function; the token list it joins has
    at least three tokens (the final loop stops, within three rounds, with
    its condition false, whatever fuel beyond three it is given), and on an
    empty or white-space-only raw auction the result is exactly
    ['Pass Pass Pass']. *)
Theorem expand_auction_total_three (raw : str) :
  (3 <= length (expand_tokens raw))%nat
  /\ needs_pass (expand_tokens raw) = false
  /\ expand_auction raw = join (py " ") (expand_tokens raw)
  /\ (forallb isspace raw = true -> expand_auction raw = py "Pass Pass Pass").
Proof.
  assert (Hexit : needs_pass (expand_tokens raw) = false)
    by apply pad_loop_exits.
  split; [apply needs_pass_false, Hexit|].
  split; [exact Hexit|].
  split; [reflexivity|].
  intros H. unfold expand_auction. now rewrite expand_tokens_space.
Qed.

Lemma expand_auction_total_three_witness :
  forallb isspace (py "  ") = true
  /\ expand_auction (py "  ") = py "Pass Pass Pass"
  /\ expand_auction [] = py "Pass Pass Pass".
Proof.
  split; [reflexivity|]. split.
  - apply (proj2 (proj2 (proj2 (expand_auction_total_three (py "  "))))).
    reflexivity.
  - apply (proj2 (proj2 (proj2 (expand_auction_total_three [])))).
    reflexivity.
Defined.

(** *** The splitter *)

Lemma join_snoc (sep : str) (l : list str) (x : str) :
  l <> [] -> join sep (l ++ [x]) = join sep l ++ sep ++ x.
Proof.
  induction l as [|a l IH]; [congruence|]. intros _.
  destruct l as [|b l]; [reflexivity|].
  change (join sep ((a :: b :: l) ++ [x]))
    with (a ++ sep ++ join sep ((b :: l) ++ [x])).
  rewrite IH by congruence.
  change (join sep (a :: b :: l)) with (a ++ sep ++ join sep (b :: l)).
  now rewrite <- !app_assoc.
Qed.

Lemma join_snoc_app (sep : str) (l : list str) (x y : str) :
  join sep (l ++ [x ++ y]) = join sep (l ++ [x]) ++ y.
Proof.
  destruct l as [|a l]; [reflexivity|].
  rewrite !join_snoc by congruence. now rewrite <- !app_assoc.
Qed.

(** A loop rule for [split_loop]: an invariant on the remaining input, the
    depth, the current element and the elements found so far that is kept
    by each of the four branches holds when the input is used up. *)
Section split_loop_rule.
Variable Inv : str -> Z -> str -> list str -> Prop.
Hypothesis Inv_open : forall rest d cur els,
  Inv (LPAREN :: rest) d cur els -> Inv rest (d + 1)%Z (cur ++ [LPAREN]) els.
Hypothesis Inv_close : forall rest d cur els,
  Inv (RPAREN :: rest) d cur els -> Inv rest (d - 1)%Z (cur ++ [RPAREN]) els.
Hypothesis Inv_split : forall rest cur els,
  Inv (SEP ++ rest) 0%Z cur els -> Inv rest 0%Z [] (els ++ [cur]).
Hypothesis Inv_char : forall c rest d cur els,
  c <> LPAREN -> c <> RPAREN ->
  Inv (c :: rest) d cur els -> Inv rest d (cur ++ [c]) els.

Lemma split_loop_rule_len (n : nat) : forall s d cur els,
  (length s <= n)%nat ->
  Inv s d cur els ->
  exists d', Inv [] d' (snd (split_loop s d cur els))
                      (fst (split_loop s d cur els)).
Proof.
  induction n as [|n IH]; intros s d cur els Hlen HI.
  - destruct s; [|simpl in Hlen; lia]. exists d. exact HI.
  - destruct s as [|c rest]; [exists d; exact HI|].
    simpl in Hlen. cbn [split_loop].
    destruct (N.eqb_spec c LPAREN) as [->|Hno].
    { apply IH; [lia|]. now apply Inv_open. }
    destruct (N.eqb_spec c RPAREN) as [->|Hnc].
    { apply IH; [lia|]. now apply Inv_close. }
    destruct ((d =? 0)%Z && startswith SEP (c :: rest)) eqn:Hs.
    + apply andb_prop in Hs as [Hd Hs]. apply Z.eqb_eq in Hd. subst d.
      apply startswith_inv in Hs as [t Ht].
      rewrite SEP_eq in Ht. injection Ht as -> ->.
      cbn [app]. apply IH; [simpl in Hlen |- *; lia|].
      apply Inv_split. rewrite SEP_eq. exact HI.
    + apply IH; [lia|]. now apply Inv_char.
Qed.

Lemma split_loop_rule (s : str) (d : Z) (cur : str) (els : list str) :
  Inv s d cur els ->
  exists d', Inv [] d' (snd (split_loop s d cur els))
                      (fst (split_loop s d cur els)).
Proof. apply (split_loop_rule_len (length s)). lia. Qed.
End split_loop_rule.

Lemma split_pieces_eq (s : str) :
  split_pieces s = fst (split_loop s 0 [] []) ++ [snd (split_loop s 0 [] [])].
Proof. unfold split_pieces. now destruct (split_loop s 0 [] []). Qed.

(** The pieces, put together again with the separator, give the input. *)
Lemma split_pieces_join (s : str) : join SEP (split_pieces s) = s.
Proof.
  rewrite split_pieces_eq.
  destruct (split_loop_rule
    (fun rest _ cur els => join SEP (els ++ [cur]) ++ rest = s)) with
    (s := s) (d := 0%Z) (cur := @nil N) (els := @nil (list N)) as [_ H].
  - intros rest d cur els H. now rewrite join_snoc_app, <- app_assoc.
  - intros rest d cur els H. now rewrite join_snoc_app, <- app_assoc.
  - intros rest cur els H.
    rewrite join_snoc, app_nil_r, <- app_assoc by (now destruct els). exact H.
  - intros c rest d cur els _ _ H. now rewrite join_snoc_app, <- app_assoc.
  - reflexivity.
  - now rewrite app_nil_r in H.
Qed.

Lemma depth_after_app (d : Z) (a b : str) :
  depth_after d (a ++ b) = depth_after (depth_after d a) b.
Proof.
  revert d. induction a as [|c a IH]; intros d; [reflexivity|].
  cbn [app depth_after].
  destruct (c =? LPAREN)%N; [apply IH|].
  destruct (c =? RPAREN)%N; apply IH.
Qed.

(** Every split is made at depth zero: the text up to the end of each
    piece but the last has as many opening as closing parentheses. *)
Lemma split_pieces_depth (s : str) (k : nat) :
  (S k < length (split_pieces s))%nat ->
  depth_after 0 (join SEP (take (S k) (split_pieces s))) = 0%Z.
Proof.
  rewrite split_pieces_eq.
  destruct (split_loop_rule
    (fun _ d cur els =>
       (forall k, (S k <= length els)%nat ->
                  depth_after 0 (join SEP (take (S k) els)) = 0%Z)
       /\ d = depth_after 0 (join SEP (els ++ [cur])))) with
    (s := s) (d := 0%Z) (cur := @nil N) (els := @nil (list N)) as [d' [H _]].
  - intros rest d cur els [H1 H2]. split; [exact H1|].
    rewrite join_snoc_app, depth_after_app, <- H2. reflexivity.
  - intros rest d cur els [H1 H2]. split; [exact H1|].
    rewrite join_snoc_app, depth_after_app, <- H2. reflexivity.
  - intros rest cur els [H1 H2]. split.
    + intros j Hj. rewrite length_app in Hj. simpl in Hj.
      destruct (decide (S j <= length els)%nat) as [Hle|Hgt].
      * rewrite take_app_le by exact Hle. now apply H1.
      * rewrite take_ge by (rewrite length_app; simpl; lia). now symmetry.
    + rewrite join_snoc, app_nil_r, depth_after_app, <- H2 by (now destruct els).
      reflexivity.
  - intros c rest d cur els Hno Hnc [H1 H2]. split; [exact H1|].
    rewrite join_snoc_app, depth_after_app, <- H2. cbn [depth_after].
    apply N.eqb_neq in Hno, Hnc. now rewrite Hno, Hnc.
  - split; [simpl; lia|reflexivity].
  - intros Hk. rewrite length_app in Hk. simpl in Hk.
    rewrite take_app_le by lia. apply H. lia.
Qed.

Lemma balanced_from_app_plain (d : Z) (a b : str) :
  forallb (fun c => negb (c =? LPAREN)%N && negb (c =? RPAREN)%N) a = true ->
  balanced_from d (a ++ b) = balanced_from d b.
Proof.
  induction a as [|c a IH]; [reflexivity|]. intros H.
  simpl in H. apply andb_prop in H as [Hc Ha].
  apply andb_prop in Hc as [H1 H2].
  apply negb_true_iff in H1, H2.
  cbn [app balanced_from]. rewrite H1, H2. now apply IH.
Qed.

(** In balanced text no piece cuts a parenthesized span: each piece is
    balanced by itself. *)
Lemma split_pieces_balanced (s : str) :
  balanced s = true -> Forall (fun e => balanced e = true) (split_pieces s).
Proof.
  intros Hb. rewrite split_pieces_eq.
  destruct (split_loop_rule
    (fun rest d cur els =>
       balanced_from d rest = true
       /\ (forall t, balanced_from d t = true -> balanced_from 0 (cur ++ t) = true)
       /\ Forall (fun e => balanced e = true) els)) with
    (s := s) (d := 0%Z) (cur := @nil N) (els := @nil (list N))
    as [d' (H1 & H2 & H3)].
  - intros rest d cur els (H1 & H2 & H3). repeat split; [exact H1| |exact H3].
    intros t Ht. rewrite <- app_assoc. apply H2. exact Ht.
  - intros rest d cur els (H1 & H2 & H3).
    cbn in H1. apply andb_prop in H1 as [Hd H1].
    repeat split; [exact H1| |exact H3].
    intros t Ht. rewrite <- app_assoc. apply H2. cbn. now rewrite Hd.
  - intros rest cur els (H1 & H2 & H3).
    rewrite balanced_from_app_plain in H1 by reflexivity.
    repeat split; [exact H1|auto|].
    apply Forall_app. split; [exact H3|].
    constructor; [|constructor].
    unfold balanced. rewrite <- (app_nil_r cur). now apply H2.
  - intros c rest d cur els Hno Hnc (H1 & H2 & H3).
    apply N.eqb_neq in Hno, Hnc.
    cbn [balanced_from] in H1. rewrite Hno, Hnc in H1.
    repeat split; [exact H1| |exact H3].
    intros t Ht. rewrite <- app_assoc. apply H2.
    cbn [app balanced_from]. now rewrite Hno, Hnc.
  - repeat split; [exact Hb|auto|constructor].
  - apply Forall_app. split; [exact H3|].
    constructor; [|constructor].
    unfold balanced. rewrite <- (app_nil_r (snd _)). now apply H2.
Qed.

(** Replacing the en-dash separator leaves the parentheses as they are. *)
Lemma balanced_replace_dashes (s : str) (k : nat) (d : Z) :
  balanced_from d (replace_from EN_SEP SEP k s) = balanced_from d (drop k s).
Proof.
  revert k d. induction s as [|c s IH]; intros k d.
  - now destruct k.
  - destruct k as [|k]; cbn [replace_from drop]; [|apply IH].
    destruct (startswith EN_SEP (c :: s)) eqn:Hs.
    + apply startswith_inv in Hs as [t Ht].
      unfold EN_SEP in Ht. injection Ht as -> ->.
      rewrite balanced_from_app_plain by reflexivity.
      rewrite IH. reflexivity.
    + cbn [balanced_from].
      destruct (c =? LPAREN)%N; [apply IH|].
      destruct (c =? RPAREN)%N; [|apply IH].
      now rewrite IH.
Qed.

Lemma balanced_normalize_dashes (raw : str) :
  balanced (normalize_dashes raw) = balanced raw.
Proof. apply (balanced_replace_dashes raw 0 0). Qed.

Lemma split_elements_pieces (s : str) :
  split_pieces s = split_elements s \/ split_pieces s = split_elements s ++ [[]].
Proof.
  unfold split_pieces, split_elements.
  destruct (split_loop s 0 [] []) as [els [|c cur]]; auto.
Qed.

(** *** C6 *)

(** C6: the splitter of [expand_auction] splits only at depth zero.  For
    every raw auction, the pieces it cuts the normalized text into are
    separated by exactly the occurrences of [' - '] that it split on (joining
    them with [' - '] gives the text back), the text before each of these
    split points has parenthesis depth zero, and when the parentheses of the
    raw auction are balanced every piece is balanced: no separator inside a
    parenthesized span is a split point.  The elements are the pieces, less
    an empty last one.  ['1C (shows 4+ - or more C) - Pass'] is split at
    its second separator only, into two elements. *)
Theorem split_only_at_depth_zero (raw : str) :
  let normalized := normalize_dashes raw in
  let pieces := split_pieces normalized in
  join SEP pieces = normalized
  /\ (forall k, (S k < length pieces)%nat ->
        depth_after 0 (join SEP (take (S k) pieces)) = 0%Z)
  /\ (balanced raw = true -> Forall (fun e => balanced e = true) pieces)
  /\ (pieces = split_elements normalized
      \/ pieces = split_elements normalized ++ [[]])
  /\ split_elements (normalize_dashes (py "1C (shows 4+ - or more C) - Pass"))
     = [py "1C (shows 4+ - or more C)"; py "Pass"].
Proof.
  intros normalized pieces. subst pieces.
  split; [apply split_pieces_join|].
  split; [apply split_pieces_depth|].
  split.
  { intros Hb. apply split_pieces_balanced.
    subst normalized. now rewrite balanced_normalize_dashes. }
  split; [apply split_elements_pieces|].
  vm_compute. reflexivity.
Qed.

Lemma split_only_at_depth_zero_witness :
  balanced (py "1C (shows 4+ - or more C) - Pass") = true
  /\ Forall (fun e => balanced e = true)
       (split_pieces (normalize_dashes (py "1C (shows 4+ - or more C) - Pass"))).
Proof.
  split; [reflexivity|].
  apply (split_only_at_depth_zero (py "1C (shows 4+ - or more C) - Pass")).
  reflexivity.
Defined.

(** *** The labelled loop and the invariant on own-side calls *)

Lemma expand_loop_tagged_erase (els : list str) : forall i out prev,
  map snd (expand_loop_tagged i els out prev)
  = expand_loop i els (map snd out) prev.
Proof.
  induction els as [|e els IH]; intros i out prev; [reflexivity|].
  cbn [expand_loop_tagged expand_loop].
  destruct (strip e) as [|c elem]; [apply IH|].
  destruct (is_all_pass (c :: elem)).
  { rewrite IH, map_app. reflexivity. }
  destruct (is_bracketed (c :: elem)).
  { rewrite IH, map_app. reflexivity. }
  rewrite IH, map_app.
  destruct ((0 <? i)%nat && negb prev); [rewrite map_app|]; reflexivity.
Qed.

Lemma pad_loop_tagged_erase (n : nat) : forall out,
  map snd (pad_loop_tagged n out) = pad_loop n (map snd out).
Proof.
  induction n as [|n IH]; intros out; [reflexivity|].
  cbn [pad_loop_tagged pad_loop].
  destruct (needs_pass (map snd out)); [|reflexivity].
  rewrite IH, map_app. reflexivity.
Qed.

Lemma expand_tagged_erase (raw : str) :
  map snd (expand_tagged raw) = expand_tokens raw.
Proof.
  unfold expand_tagged, expand_tokens.
  rewrite pad_loop_tagged_erase, map_map. cbn [snd].
  rewrite <- (map_map snd normalize_P), expand_loop_tagged_erase.
  reflexivity.
Qed.

Lemma own_guarded_snoc (out : list (origin * str)) (x : origin * str) :
  own_guarded out ->
  (fst x = Own -> out = [] \/ exists out' y, out = out' ++ [y] /\ separates y) ->
  own_guarded (out ++ [x]).
Proof.
  intros Hg Hx k a b Ha Hb.
  destruct (decide (S k < length out)%nat) as [Hlt|Hge].
  - rewrite lookup_app_l in Ha by lia. rewrite lookup_app_l in Hb by lia.
    now apply (Hg k a b).
  - assert (Hk : S k = length out).
    { apply lookup_lt_Some in Hb. rewrite length_app in Hb. simpl in Hb. lia. }
    rewrite lookup_app_r in Hb by lia.
    replace (S k - length out)%nat with 0%nat in Hb by lia.
    cbn in Hb. injection Hb as ->.
    destruct (Hx eq_refl) as [-> | (out' & y & -> & Hy)]; [discriminate|].
    rewrite length_app in Hk. simpl in Hk.
    rewrite lookup_app_l in Ha by (rewrite length_app; simpl; lia).
    rewrite lookup_app_r in Ha by lia.
    replace (k - length out')%nat with 0%nat in Ha by lia.
    cbn in Ha. now injection Ha as <-.
Qed.

Lemma own_guarded_snoc_other (out : list (origin * str)) (x : origin * str) :
  own_guarded out -> fst x <> Own -> own_guarded (out ++ [x]).
Proof. intros Hg Hx. apply own_guarded_snoc; [exact Hg|]. intros H. now destruct Hx. Qed.

Lemma expand_loop_tagged_guarded (els : list str) : forall i out prev,
  own_guarded out ->
  (i = 0%nat -> out = []) ->
  (prev = true -> exists out' t, out = out' ++ [(Opp, t)]) ->
  own_guarded (expand_loop_tagged i els out prev).
Proof.
  induction els as [|e els IH]; intros i out prev Hg Hi Hp; [exact Hg|].
  cbn [expand_loop_tagged].
  destruct (strip e) as [|c elem].
  { apply IH; [exact Hg|discriminate|exact Hp]. }
  destruct (is_all_pass (c :: elem)).
  { apply IH; [|discriminate|discriminate].
    change [(AllPass, PASS); (AllPass, PASS); (AllPass, PASS)]
      with ([(AllPass, PASS)] ++ [(AllPass, PASS)] ++ [(AllPass, PASS)]).
    rewrite !app_assoc.
    repeat (apply own_guarded_snoc_other; [|discriminate]). exact Hg. }
  destruct (is_bracketed (c :: elem)).
  { apply IH; [|discriminate|].
    - apply own_guarded_snoc_other; [exact Hg|discriminate].
    - intros _. eauto. }
  apply IH; [|discriminate|discriminate].
  destruct i as [|i].
  - rewrite (Hi eq_refl). cbn.
    intros k a b Ha Hb. destruct k; discriminate.
  - destruct prev; cbn [Nat.ltb Nat.leb andb negb].
    + apply own_guarded_snoc; [exact Hg|]. intros _. right.
      destruct (Hp eq_refl) as (out' & t & ->).
      exists out', (Opp, t). split; [reflexivity|]. right. eauto.
    + apply own_guarded_snoc.
      * apply own_guarded_snoc_other; [exact Hg|discriminate].
      * intros _. right. exists out, (Inserted, PASS).
        split; [reflexivity|]. now left.
Qed.

Lemma own_guarded_normalize (out : list (origin * str)) :
  own_guarded out ->
  own_guarded (map (fun x => (fst x, normalize_P (snd x))) out).
Proof.
  intros Hg k a b Ha Hb.
  rewrite list_lookup_fmap in Ha, Hb.
  destruct (out !! k) as [[oa ta]|] eqn:Eka; [|discriminate].
  destruct (out !! S k) as [[ob tb]|] eqn:Ekb; [|discriminate].
  cbn in Ha, Hb. injection Ha as <-. injection Hb as -> _.
  destruct (Hg k _ _ Eka Ekb) as [H | [t H]]; injection H as -> ->.
  - now left.
  - right. eauto.
Qed.

Lemma pad_loop_tagged_guarded (n : nat) : forall out,
  own_guarded out -> own_guarded (pad_loop_tagged n out).
Proof.
  induction n as [|n IH]; intros out Hg; [exact Hg|].
  cbn [pad_loop_tagged].
  destruct (needs_pass (map snd out)); [|exact Hg].
  apply IH. apply own_guarded_snoc_other; [exact Hg|discriminate].
Qed.

Lemma expand_tagged_guarded (raw : str) : own_guarded (expand_tagged raw).
Proof.
  unfold expand_tagged.
  apply pad_loop_tagged_guarded, own_guarded_normalize.
  apply expand_loop_tagged_guarded.
  - intros k a b Ha. destruct k; discriminate.
  - reflexivity.
  - discriminate.
Qed.

(** Between two own-side calls there is a separating token. *)
Lemma own_guarded_between (out : list (origin * str)) (p q : nat) (a b : str) :
  own_guarded out -> (p < q)%nat ->
  out !! p = Some (Own, a) -> out !! q = Some (Own, b) ->
  exists r x, (p < r < q)%nat /\ out !! r = Some x /\ separates x.
Proof.
  intros Hg Hpq Hp Hq.
  destruct q as [|r]; [lia|].
  destruct (out !! r) as [x|] eqn:Hr.
  - pose proof (Hg r x b Hr Hq) as Hx.
    exists r, x. split; [|auto].
    destruct (decide (p = r)) as [->|]; [|lia].
    rewrite Hp in Hr. injection Hr as <-.
    destruct Hx as [H | [t H]]; discriminate.
  - apply lookup_ge_None in Hr. apply lookup_lt_Some in Hq. lia.
Qed.

Lemma trailing_passes_three (out : list str) :
  needs_pass out = false -> (3 <= trailing_passes out)%nat.
Proof.
  intros H. apply needs_pass_false in H as [Hlen Hall].
  unfold last3 in Hall.
  rewrite <- (take_drop (length out - 3) out).
  destruct (drop (length out - 3) out) as [|a [|b [|c [|e l]]]] eqn:Hd;
    try (apply (f_equal length) in Hd; rewrite length_drop in Hd;
         simpl in Hd; lia).
  cbn in Hall. rewrite andb_true_r in Hall.
  apply andb_prop in Hall as [Ha Hall]. apply andb_prop in Hall as [Hb Hc].
  unfold trailing_passes. rewrite rev_app_distr. cbn.
  rewrite Hc, Hb, Ha. lia.
Qed.

(** *** The tokens of a joined text *)

Lemma words_loop_app (a : str) : forall (sp : char) (b cur : str),
  isspace sp = true ->
  words_loop (a ++ sp :: b) cur = words_loop a cur ++ words_loop b [].
Proof.
  induction a as [|c a IH]; intros sp b cur Hsp.
  - cbn [app words_loop]. rewrite Hsp. now destruct cur.
  - cbn [app words_loop]. destruct (isspace c).
    + destruct cur; [now apply IH|]. cbn [app]. f_equal. now apply IH.
    + now apply IH.
Qed.

(** White space between two texts separates their tokens. *)
Lemma words_app (a b : str) (sp : char) :
  isspace sp = true -> words (a ++ sp :: b) = words a ++ words b.
Proof. intros Hsp. unfold words. now apply words_loop_app. Qed.

Lemma words_join (sp : char) (ls : list str) :
  isspace sp = true -> words (join [sp] ls) = concat (map words ls).
Proof.
  intros Hsp. induction ls as [|x ls IH]; [reflexivity|].
  destruct ls as [|y ls].
  - cbn [join map concat]. now rewrite app_nil_r.
  - change (join [sp] (x :: y :: ls)) with (x ++ sp :: join [sp] (y :: ls)).
    rewrite words_app, IH by exact Hsp. reflexivity.
Qed.

Lemma words_space (s : str) : forallb isspace s = true -> words s = [].
Proof.
  unfold words. induction s as [|c s IH]; [reflexivity|]. intros H.
  cbn [forallb] in H. apply andb_prop in H as [Hc Hs].
  cbn [words_loop]. rewrite Hc. now apply IH.
Qed.

Lemma words_lead (l x : str) :
  forallb isspace l = true -> words (l ++ x) = words x.
Proof.
  unfold words. induction l as [|c l IH]; [reflexivity|]. intros H.
  cbn [forallb] in H. apply andb_prop in H as [Hc Hl].
  cbn [app words_loop]. rewrite Hc. now apply IH.
Qed.

Lemma words_trail (x r : str) :
  forallb isspace r = true -> words (x ++ r) = words x.
Proof.
  destruct r as [|c r]; [now rewrite app_nil_r|]. intros H.
  cbn [forallb] in H. apply andb_prop in H as [Hc Hr].
  rewrite words_app by exact Hc. rewrite (words_space r Hr).
  apply app_nil_r.
Qed.

(** *** The last three elements *)

Lemma forallb_rev {A : Type} (p : A -> bool) (l : list A) :
  forallb p (rev l) = forallb p l.
Proof.
  induction l as [|a l IH]; [reflexivity|].
  cbn [rev forallb]. rewrite forallb_app, IH. cbn [forallb].
  rewrite andb_true_r. apply andb_comm.
Qed.

Lemma lstrip_by_split (p : char -> bool) (s : str) :
  exists l, s = l ++ lstrip_by p s /\ forallb p l = true.
Proof.
  induction s as [|c s (l & E & Hl)]; [now exists []|].
  cbn [lstrip_by]. destruct (p c) eqn:Hc; [|now exists []].
  exists (c :: l). split; [cbn [app]; now rewrite <- E|].
  cbn [forallb]. now rewrite Hc.
Qed.

Lemma rstrip_by_split (p : char -> bool) (s : str) :
  exists r, s = rstrip_by p s ++ r /\ forallb p r = true.
Proof.
  unfold rstrip_by. destruct (lstrip_by_split p (rev s)) as (l & E & Hl).
  exists (rev l). split; [|now rewrite forallb_rev].
  rewrite <- rev_app_distr, <- E. now rewrite rev_involutive.
Qed.

Lemma strip_split (s : str) :
  exists l r, s = l ++ strip s ++ r
              /\ forallb isspace l = true /\ forallb isspace r = true.
Proof.
  unfold strip, lstrip, rstrip.
  destruct (lstrip_by_split isspace s) as (l & El & Hl).
  destruct (rstrip_by_split isspace (lstrip_by isspace s)) as (r & Er & Hr).
  exists l, r. split; [|now split]. now rewrite <- Er.
Qed.

Lemma before_char_split (c : char) (s : str) :
  exists rest, s = before_char c s ++ rest
               /\ (rest = [] \/ head rest = Some c).
Proof.
  induction s as [|a s (rest & E & Hr)]; [exists []; now split; [|left]|].
  cbn [before_char]. destruct (N.eqb_spec a c) as [->|_].
  - exists (c :: s). split; [reflexivity|now right].
  - exists rest. split; [cbn [app]; now rewrite <- E|exact Hr].
Qed.

Lemma is_pass_reads (elem : str) : is_pass elem = true -> reads_pass elem.
Proof.
  unfold is_pass. intros H. apply bool_decide_eq_true in H.
  destruct (before_char_split LPAREN elem) as (rest & E & Hr).
  destruct (strip_split (before_char LPAREN elem)) as (l & r & Es & Hl & Hrr).
  rewrite H in Es. exists l, r, rest. split; [|now repeat split].
  rewrite E at 1. rewrite Es. now rewrite <- !app_assoc.
Qed.

Lemma before_char_none (c : char) (s : str) :
  forallb (fun a => negb (a =? c)%N) s = true -> before_char c s = s.
Proof.
  induction s as [|a s IH]; [reflexivity|]. intros H.
  cbn [forallb] in H. apply andb_prop in H as [Ha Hs].
  apply negb_true_iff in Ha. cbn [before_char]. now rewrite Ha, IH.
Qed.

(** An element without parenthesis that is taken for a pass is the one
    token [Pass]. *)
Lemma is_pass_words (elem : str) :
  is_pass elem = true ->
  forallb (fun a => negb (a =? LPAREN)%N) elem = true ->
  words elem = [PASS].
Proof.
  unfold is_pass. intros H Hp. apply bool_decide_eq_true in H.
  rewrite before_char_none in H by exact Hp.
  destruct (strip_split elem) as (l & r & Es & Hl & Hr).
  rewrite H in Es. rewrite Es.
  rewrite words_lead by exact Hl. now rewrite words_trail by exact Hr.
Qed.

Lemma last_three (out : list str) :
  needs_pass out = false ->
  exists front e1 e2 e3,
    out = front ++ [e1; e2; e3]
    /\ is_pass e1 = true /\ is_pass e2 = true /\ is_pass e3 = true.
Proof.
  intros H. apply needs_pass_false in H as [Hlen Hall].
  unfold last3 in Hall.
  pose proof (take_drop (length out - 3) out) as E.
  destruct (drop (length out - 3) out) as [|a [|b [|c [|e l]]]] eqn:Hd;
    try (apply (f_equal length) in Hd; rewrite length_drop in Hd;
         simpl in Hd; lia).
  cbn in Hall. rewrite andb_true_r in Hall.
  apply andb_prop in Hall as [Ha Hall]. apply andb_prop in Hall as [Hb Hc].
  exists (take (length out - 3) out), a, b, c.
  split; [now symmetry|]. now repeat split.
Qed.

Lemma last_three_pass (out : list str) :
  needs_pass out = false ->
  exists front e1 e2 e3,
    out = front ++ [e1; e2; e3]
    /\ reads_pass e1 /\ reads_pass e2 /\ reads_pass e3.
Proof.
  intros H. destruct (last_three out H) as (front & a & b & c & E & Ha & Hb & Hc).
  exists front, a, b, c. split; [exact E|].
  repeat split; now apply is_pass_reads.
Qed.

(** When the last three elements hold no parenthesis, the joined text
    ends with three tokens [Pass]. *)
Lemma last_three_tokens (out front : list str) (e1 e2 e3 : str) :
  needs_pass out = false ->
  out = front ++ [e1; e2; e3] ->
  forallb (fun a => negb (a =? LPAREN)%N) (e1 ++ e2 ++ e3) = true ->
  words (join (py " ") out)
  = concat (map words front) ++ [PASS; PASS; PASS].
Proof.
  intros H E Hp.
  destruct (last_three out H) as (front' & a & b & c & E' & Ha & Hb & Hc).
  rewrite E in E'.
  apply app_inj_2 in E' as [_ E']; [|reflexivity].
  injection E' as <- <- <-.
  rewrite !forallb_app in Hp.
  apply andb_prop in Hp as [H1 Hp]. apply andb_prop in Hp as [H2 H3].
  change (py " ") with [32%N]. rewrite words_join by reflexivity.
  rewrite E, map_app, concat_app. cbn [map concat].
  rewrite (is_pass_words e1 Ha H1), (is_pass_words e2 Hb H2),
    (is_pass_words e3 Hc H3).
  reflexivity.
Qed.

(** *** C1 *)

(** C1 (amended): for every raw auction, the list of output elements that
    [expand_auction] joins with spaces ends with at least three elements
    that the pass test of the code accepts (not with exactly three: an
    element ['all pass'] after a pass gives four), and its last three
    elements are each [Pass], with white space around it or not, followed
    by nothing or by an opening parenthesis and any text: what follows the
    first parenthesis of an element is not looked at, so that the element
    ['Pass(a) 1C'] counts as a pass.  When none of the last three
    elements holds a parenthesis, the expanded auction ends with the three
    tokens [Pass Pass Pass].  And between any two output elements that
    come from own-side (non-bracketed) elements there is a [Pass] inserted
    by the expander or a call of the opponents. *)
Theorem expand_ends_in_passes_and_separates (raw : str) :
  map snd (expand_tagged raw) = expand_tokens raw
  /\ expand_auction raw = join (py " ") (expand_tokens raw)
  /\ (3 <= trailing_passes (expand_tokens raw))%nat
  /\ (exists front e1 e2 e3,
        expand_tokens raw = front ++ [e1; e2; e3]
        /\ reads_pass e1 /\ reads_pass e2 /\ reads_pass e3)
  /\ (forall front e1 e2 e3,
        expand_tokens raw = front ++ [e1; e2; e3] ->
        forallb (fun a => negb (a =? LPAREN)%N) (e1 ++ e2 ++ e3) = true ->
        words (expand_auction raw)
        = concat (map words front) ++ [PASS; PASS; PASS])
  /\ (forall p q a b, (p < q)%nat ->
        expand_tagged raw !! p = Some (Own, a) ->
        expand_tagged raw !! q = Some (Own, b) ->
        exists r x, (p < r < q)%nat
                    /\ expand_tagged raw !! r = Some x /\ separates x).
Proof.
  split; [apply expand_tagged_erase|].
  split; [reflexivity|].
  split; [apply trailing_passes_three, pad_loop_exits|].
  split; [apply last_three_pass, pad_loop_exits|].
  split.
  - intros front e1 e2 e3 E Hp.
    now apply (last_three_tokens _ front e1 e2 e3 (pad_loop_exits _)).
  - intros p q a b. apply own_guarded_between, expand_tagged_guarded.
Qed.

Lemma expand_ends_in_passes_and_separates_witness :
  (expand_tagged (py "1C - 1D") !! 0%nat = Some (Own, py "1C")
   /\ expand_tagged (py "1C - 1D") !! 2%nat = Some (Own, py "1D")
   /\ exists r x, (0 < r < 2)%nat
        /\ expand_tagged (py "1C - 1D") !! r = Some x /\ separates x)
  /\ words (expand_auction (py "1C - 1D(0-7)"))
     = [py "1C"; py "Pass"; py "1D(0-7)"; py "Pass"; py "Pass"; py "Pass"].
Proof.
  split.
  - split; [reflexivity|]. split; [reflexivity|].
    apply (proj2 (proj2 (proj2 (proj2 (proj2
      (expand_ends_in_passes_and_separates (py "1C - 1D"))))))
      0%nat 2%nat (py "1C") (py "1D")).
    + lia.
    + reflexivity.
    + reflexivity.
  - apply (proj1 (proj2 (proj2 (proj2 (proj2
      (expand_ends_in_passes_and_separates (py "1C - 1D(0-7)"))))))
      [py "1C"; py "Pass"; py "1D(0-7)"] PASS PASS PASS).
    + vm_compute. reflexivity.
    + reflexivity.
Defined.

(** C1 as stated fails.  A passed-out auction ends with four Pass tokens;
    and an element whose text goes on after its annotation is taken for a
    pass, so that the expanded auction ['1C Pass Pass(a) 1C Pass'] ends
    with one Pass token. *)
Lemma expand_not_exactly_three_passes :
  expand_auction (py "P - all pass") = py "Pass Pass Pass Pass"
  /\ trailing_passes (expand_tokens (py "P - all pass")) <> 3%nat
  /\ expand_tokens (py "1C - Pass(a) 1C")
     = [py "1C"; py "Pass"; py "Pass(a) 1C"; py "Pass"]
  /\ expand_auction (py "1C - Pass(a) 1C") = py "1C Pass Pass(a) 1C Pass".
Proof.
  split; [vm_compute; reflexivity|].
  split; [vm_compute; discriminate|].
  split; vm_compute; reflexivity.
Qed.

(** *** Expanding an expansion *)

Lemma needs_pass_short (out : list str) :
  (length out < 3)%nat -> needs_pass out = true.
Proof.
  intros H. unfold needs_pass.
  apply Nat.ltb_lt in H. now rewrite H.
Qed.

(** A text that the splitter reads as one own-side element which is not a
    pass gets three Pass tokens appended. *)
Lemma expand_tokens_single (s : str) :
  normalize_dashes s = s ->
  split_elements s = [s] ->
  strip s = s ->
  is_all_pass s = false ->
  is_bracketed s = false ->
  normalize_P s = s ->
  is_pass s = false ->
  expand_tokens s = [s; PASS; PASS; PASS].
Proof.
  intros Hn Hs Hstrip Hall Hbr HP Hpass.
  unfold expand_tokens. rewrite Hn, Hs.
  cbn [expand_loop]. rewrite Hstrip.
  destruct s as [|c s]; [discriminate Hs|].
  rewrite Hall, Hbr. cbn [Nat.ltb Nat.leb andb app map]. rewrite HP.
  cbn [pad_loop].
  rewrite (needs_pass_short [c :: s]) by (simpl; lia).
  rewrite (needs_pass_short ([c :: s] ++ [PASS])) by (simpl; lia).
  replace (needs_pass (([c :: s] ++ [PASS]) ++ [PASS])) with true; [reflexivity|].
  unfold needs_pass, last3. cbn. now rewrite Hpass.
Qed.

Lemma plain_char_inv (c : char) :
  plain_char c = true ->
  isspace c = false /\ c <> LPAREN /\ c <> RPAREN /\ c <> 91%N
  /\ c <> 45%N /\ c <> 8211%N.
Proof.
  unfold plain_char. intros H.
  repeat (apply andb_prop in H as [H ?]).
  repeat match goal with
         | H : negb _ = true |- _ => apply negb_true_iff in H
         end.
  repeat split; try assumption; now apply N.eqb_neq.
Qed.

Lemma quiet_char_inv (c : char) :
  quiet_char c = true ->
  c <> LPAREN /\ c <> RPAREN /\ c <> 45%N /\ c <> 8211%N.
Proof.
  unfold quiet_char. intros H. apply orb_prop in H as [H|H].
  - apply plain_char_inv in H. tauto.
  - apply N.eqb_eq in H. subst c. repeat split; discriminate.
Qed.

Lemma plain_token_quiet (t : str) :
  plain_token t = true -> forallb quiet_char t = true.
Proof.
  destruct t as [|c t]; [discriminate|]. unfold plain_token.
  intros H. apply forallb_forall. intros x Hx.
  rewrite forallb_forall in H. unfold quiet_char. now rewrite (H x Hx).
Qed.

Lemma join_quiet (toks : list str) :
  Forall (fun t => plain_token t = true) toks ->
  forallb quiet_char (join (py " ") toks) = true.
Proof.
  induction 1 as [|t toks Ht Hall IH]; [reflexivity|].
  destruct toks as [|u toks]; [now apply plain_token_quiet|].
  change (join (py " ") (t :: u :: toks))
    with (t ++ py " " ++ join (py " ") (u :: toks)).
  rewrite !forallb_app, IH, (plain_token_quiet t Ht). reflexivity.
Qed.

Lemma normalize_dashes_quiet (s : str) :
  forallb quiet_char s = true -> normalize_dashes s = s.
Proof.
  unfold normalize_dashes, replace.
  induction s as [|c s IH]; [reflexivity|].
  intros H. simpl in H. apply andb_prop in H as [Hc Hs].
  cbn [replace_from].
  replace (startswith EN_SEP (c :: s)) with false.
  - now rewrite IH.
  - unfold EN_SEP.
    destruct s as [|d s]; cbn [startswith]; [now rewrite andb_false_r|].
    simpl in Hs. apply andb_prop in Hs as [Hd _].
    apply quiet_char_inv in Hd as (_ & _ & _ & Hd).
    apply not_eq_sym, N.eqb_neq in Hd. rewrite Hd.
    now rewrite andb_false_r.
Qed.

Lemma split_loop_quiet (s : str) (d : Z) (cur : str) (els : list str) :
  forallb quiet_char s = true -> split_loop s d cur els = (els, cur ++ s).
Proof.
  revert cur. induction s as [|c s IH]; intros cur H.
  - now rewrite app_nil_r.
  - simpl in H. apply andb_prop in H as [Hc Hs].
    cbn [split_loop].
    apply quiet_char_inv in Hc as (Ho & Hcl & _ & _).
    apply N.eqb_neq in Ho, Hcl. rewrite Ho, Hcl.
    replace (startswith SEP (c :: s)) with false.
    + rewrite andb_false_r, IH by exact Hs. now rewrite <- app_assoc.
    + rewrite SEP_eq.
      destruct s as [|e s]; cbn [startswith]; [now rewrite andb_false_r|].
      simpl in Hs. apply andb_prop in Hs as [He _].
      apply quiet_char_inv in He as (_ & _ & He & _).
      apply not_eq_sym, N.eqb_neq in He. rewrite He.
      now rewrite andb_false_r.
Qed.

Lemma before_char_quiet (s : str) :
  forallb quiet_char s = true -> before_char LPAREN s = s.
Proof.
  induction s as [|c s IH]; [reflexivity|].
  intros H. simpl in H. apply andb_prop in H as [Hc Hs].
  apply quiet_char_inv in Hc as (Ho & _).
  apply N.eqb_neq in Ho. cbn [before_char]. rewrite Ho. now rewrite IH.
Qed.

Lemma rstrip_by_snoc (p : char -> bool) (s : str) (c : char) :
  p c = false -> rstrip_by p (s ++ [c]) = s ++ [c].
Proof.
  intros H. unfold rstrip_by. rewrite rev_app_distr. cbn. rewrite H.
  cbn. now rewrite rev_involutive.
Qed.

Lemma plain_token_strip (t : str) : plain_token t = true -> strip t = t.
Proof.
  intros H.
  destruct t as [|c t]; [discriminate|]. unfold plain_token in H.
  assert (Hc : isspace c = false).
  { simpl in H. apply andb_prop in H as [Hc _]. now apply plain_char_inv in Hc. }
  unfold strip, lstrip. cbn [lstrip_by]. rewrite Hc.
  destruct (exists_last (l := c :: t)) as (u & e & Hu); [discriminate|].
  rewrite Hu. apply rstrip_by_snoc.
  rewrite Hu, forallb_app in H. apply andb_prop in H as [_ He].
  simpl in He. rewrite andb_true_r in He. now apply plain_char_inv in He.
Qed.

(** A plain token that passes for a pass is the token [Pass]. *)
Lemma plain_pass (t : str) :
  plain_token t = true -> is_pass t = true -> t = PASS.
Proof.
  intros Hp H. unfold is_pass in H. apply bool_decide_eq_true in H.
  now rewrite (before_char_quiet t (plain_token_quiet t Hp)),
    (plain_token_strip t Hp) in H.
Qed.

Lemma normalize_P_not_P (x : str) : normalize_P x <> py "P".
Proof.
  unfold normalize_P. case_bool_decide as Hx; [discriminate|].
  destruct (startswith (py "P ") x || startswith (py "P(") x);
    [discriminate|exact Hx].
Qed.

Lemma pad_loop_Forall (P : str -> Prop) (n : nat) : forall out,
  P PASS -> Forall P out -> Forall P (pad_loop n out).
Proof.
  induction n as [|n IH]; intros out HP H; [exact H|].
  cbn [pad_loop]. destruct (needs_pass out); [|exact H].
  apply IH; [exact HP|]. apply Forall_app. split; [exact H|]. now constructor.
Qed.

Lemma expand_tokens_not_P (raw : str) :
  Forall (fun t => t <> py "P") (expand_tokens raw).
Proof.
  unfold expand_tokens. apply pad_loop_Forall; [discriminate|].
  apply Forall_map, Forall_forall. intros x _. apply normalize_P_not_P.
Qed.

Lemma join_app (sep : str) (l1 l2 : list str) :
  l1 <> [] -> l2 <> [] ->
  join sep (l1 ++ l2) = join sep l1 ++ sep ++ join sep l2.
Proof.
  intros H1 H2. induction l1 as [|a l1 IH]; [congruence|].
  destruct l1 as [|b l1].
  - destruct l2; [congruence|reflexivity].
  - change (join sep ((a :: b :: l1) ++ l2))
      with (a ++ sep ++ join sep ((b :: l1) ++ l2)).
    rewrite IH by congruence.
    change (join sep (a :: b :: l1)) with (a ++ sep ++ join sep (b :: l1)).
    now rewrite <- !app_assoc.
Qed.

(** Plain expanded tokens end with the three tokens [Pass]. *)
Lemma plain_tokens_end (toks : list str) :
  needs_pass toks = false ->
  Forall (fun t => plain_token t = true) toks ->
  exists pre, toks = pre ++ [PASS; PASS; PASS].
Proof.
  intros Hn Hplain. apply needs_pass_false in Hn as [Hlen Hall].
  exists (take (length toks - 3) toks).
  rewrite <- (take_drop (length toks - 3) toks) at 1. f_equal.
  unfold last3 in Hall.
  assert (Hp : Forall (fun t => plain_token t = true) (drop (length toks - 3) toks))
    by now apply Forall_drop.
  destruct (drop (length toks - 3) toks) as [|a [|b [|c [|e l]]]] eqn:Hd;
    try (apply (f_equal length) in Hd; rewrite length_drop in Hd;
         simpl in Hd; lia).
  cbn in Hall. rewrite andb_true_r in Hall.
  apply andb_prop in Hall as [Ha Hall]. apply andb_prop in Hall as [Hb Hc].
  inversion Hp as [|? ? Pa Hp1]; subst. inversion Hp1 as [|? ? Pb Hp2]; subst.
  inversion Hp2 as [|? ? Pc _]; subst.
  now rewrite (plain_pass a Pa Ha), (plain_pass b Pb Hb), (plain_pass c Pc Hc).
Qed.

Lemma join_ends_passes (pre : list str) :
  exists u, join (py " ") (pre ++ [PASS; PASS; PASS]) = u ++ py "Pass Pass Pass".
Proof.
  destruct pre as [|a pre].
  - exists []. reflexivity.
  - exists (join (py " ") (a :: pre) ++ py " ").
    rewrite join_app by congruence. now rewrite <- app_assoc.
Qed.

Lemma lit_P_space : py "P " = [80; 32]%N.
Proof. reflexivity. Qed.

Lemma lit_P_paren : py "P(" = [80; 40]%N.
Proof. reflexivity. Qed.

Lemma lit_bracket : py "[" = [91]%N.
Proof. reflexivity. Qed.

(** Re-expanding the joined text of plain expanded tokens. *)
Lemma expand_tokens_plain_again (toks : list str) :
  needs_pass toks = false ->
  Forall (fun t => plain_token t = true) toks ->
  Forall (fun t => t <> py "P") toks ->
  expand_tokens (join (py " ") toks)
  = [join (py " ") toks; PASS; PASS; PASS].
Proof.
  intros Hn Hplain HnotP.
  pose proof (join_quiet toks Hplain) as Hq.
  destruct (plain_tokens_end toks Hn Hplain) as [pre Hpre].
  destruct (join_ends_passes pre) as [u Hu]. rewrite <- Hpre in Hu.
  assert (Hlen : (14 <= length (join (py " ") toks))%nat).
  { rewrite Hu, length_app. simpl. lia. }
  (* the first token and the first characters of the text *)
  assert (Hfirst : exists c s', join (py " ") toks = c :: s'
            /\ plain_char c = true
            /\ startswith (py "P ") (c :: s') = false
            /\ startswith (py "P(") (c :: s') = false).
  { destruct toks as [|t1 [|t2 toks]];
      [destruct pre; discriminate Hpre| |].
    { destruct pre as [|? [|? ?]]; discriminate Hpre. }
    inversion Hplain as [|? ? Ht1 _]; subst.
    inversion HnotP as [|? ? Hn1 _]; subst.
    change (join (py " ") (t1 :: t2 :: toks))
      with (t1 ++ py " " ++ join (py " ") (t2 :: toks)).
    destruct t1 as [|c [|c2 t1]]; [discriminate Ht1| |].
    - exists c, (py " " ++ join (py " ") (t2 :: toks)).
      split; [reflexivity|].
      unfold plain_token in Ht1. simpl in Ht1. rewrite andb_true_r in Ht1.
      split; [exact Ht1|].
      assert (Hc : (80 =? c)%N = false).
      { apply N.eqb_neq. intros <-. now apply Hn1. }
      rewrite lit_P_space, lit_P_paren. cbn [startswith app]. rewrite Hc. auto.
    - exists c, (c2 :: t1 ++ py " " ++ join (py " ") (t2 :: toks)).
      split; [reflexivity|].
      unfold plain_token in Ht1. simpl in Ht1.
      apply andb_prop in Ht1 as [Hc Ht1]. apply andb_prop in Ht1 as [Hc2 _].
      split; [exact Hc|].
      apply plain_char_inv in Hc2 as (Hsp & Hop & _).
      assert (H32 : (32 =? c2)%N = false).
      { apply N.eqb_neq. intros <-. discriminate Hsp. }
      assert (H40 : (40 =? c2)%N = false).
      { apply N.eqb_neq. intros <-. now apply Hop. }
      rewrite lit_P_space, lit_P_paren. cbn [startswith app].
      rewrite H32, H40, !andb_false_r. auto. }
  destruct Hfirst as (c & s' & Hs & Hc & HP1 & HP2).
  apply plain_char_inv in Hc as (Hsp & _ & _ & Hbr & _).
  assert (Hstrip : strip (join (py " ") toks) = join (py " ") toks).
  { unfold strip, lstrip. rewrite Hs. cbn [lstrip_by]. rewrite Hsp.
    rewrite <- Hs, Hu.
    change (py "Pass Pass Pass") with (py "Pass Pass Pas" ++ [115%N]).
    rewrite app_assoc. now apply rstrip_by_snoc. }
  apply expand_tokens_single.
  - now apply normalize_dashes_quiet.
  - unfold split_elements. rewrite split_loop_quiet by exact Hq.
    rewrite Hs. reflexivity.
  - exact Hstrip.
  - unfold is_all_pass. apply bool_decide_eq_false. intros H.
    apply (f_equal length) in H. unfold lower in H. rewrite length_map in H.
    simpl in H. lia.
  - unfold is_bracketed. rewrite Hs, lit_bracket. cbn [startswith].
    apply not_eq_sym, N.eqb_neq in Hbr. now rewrite Hbr.
  - unfold normalize_P. case_bool_decide as HP.
    { apply (f_equal length) in HP. simpl in HP. lia. }
    rewrite Hs, HP1, HP2. reflexivity.
  - unfold is_pass. apply bool_decide_eq_false.
    rewrite before_char_quiet, Hstrip by exact Hq. intros H.
    apply (f_equal length) in H. simpl in H. lia.
Qed.

(** *** C3 *)

(** C3 (amended): expansion is not idempotent on its own output.  Only the
    final padding loop is: run on a token list it has padded, it adds no
    further Pass.  The joined text, however, contains no [' - '] between its
    tokens and is read as a single own-side element: for every raw auction
    whose expanded tokens are plain (non-empty, without white space,
    parentheses, brackets or dashes), expanding the expanded auction appends
    three more Pass tokens. *)
Theorem expand_twice_appends_passes (raw : str) :
  pad_loop 3 (expand_tokens raw) = expand_tokens raw
  /\ (Forall (fun t => plain_token t = true) (expand_tokens raw) ->
      expand_auction (expand_auction raw)
      = expand_auction raw ++ py " Pass Pass Pass").
Proof.
  split.
  - apply pad_loop_stable, pad_loop_exits.
  - intros Hplain. unfold expand_auction.
    rewrite (expand_tokens_plain_again (expand_tokens raw));
      [| apply pad_loop_exits | exact Hplain | apply expand_tokens_not_P].
    cbn [join]. reflexivity.
Qed.

Lemma expand_twice_appends_passes_witness :
  Forall (fun t => plain_token t = true) (expand_tokens (py "1C - [P] - 1D"))
  /\ expand_auction (expand_auction (py "1C - [P] - 1D"))
     = expand_auction (py "1C - [P] - 1D") ++ py " Pass Pass Pass".
Proof.
  assert (H : Forall (fun t => plain_token t = true)
                (expand_tokens (py "1C - [P] - 1D"))).
  { vm_compute. repeat constructor. }
  split; [exact H|].
  apply (proj2 (expand_twice_appends_passes (py "1C - [P] - 1D"))). exact H.
Defined.

(** C3 as stated fails: the output for ['1C'] is not a fixed point. *)
Lemma expand_not_idempotent :
  expand_auction (py "1C") = py "1C Pass Pass Pass"
  /\ expand_auction (expand_auction (py "1C")) <> expand_auction (py "1C").
Proof. split; [vm_compute; reflexivity|]. vm_compute. discriminate. Qed.

(** ** Stage 3: footnote extraction *)

Lemma scan_close_zero (s : str) : scan_close s 0 = [].
Proof. now destruct s. Qed.

(** The inner loop stops right after the parenthesis that closes a
    balanced group. *)
Lemma scan_close_balanced (g : str) : forall d rest,
  (0 <= d)%Z -> balanced_from d g = true ->
  scan_close (g ++ RPAREN :: rest) (d + 1) = g ++ [RPAREN].
Proof.
  induction g as [|c g IH]; intros d rest Hd Hb.
  - cbn in Hb. apply Z.eqb_eq in Hb. subst d. cbn. now rewrite scan_close_zero.
  - cbn [app scan_close balanced_from] in *.
    replace (0 <? d + 1)%Z with true by (symmetry; apply Z.ltb_lt; lia).
    destruct (c =? LPAREN)%N.
    + f_equal. apply IH; [lia|exact Hb].
    + destruct (c =? RPAREN)%N.
      * apply andb_prop in Hb as [Hpos Hb]. apply Z.ltb_lt in Hpos.
        f_equal. replace (d + 1 - 1)%Z with (d - 1 + 1)%Z by lia.
        apply IH; [lia|exact Hb].
      * f_equal. now apply IH.
Qed.

Lemma extract_loop_skip (u : str) : forall rest result notes n,
  extract_loop (u ++ rest) (length u) result notes n
  = extract_loop rest 0 result notes n.
Proof.
  induction u as [|c u IH]; intros rest result notes n; [reflexivity|].
  cbn [app length extract_loop]. apply IH.
Qed.

Lemma extract_loop_text (t : str) : forall rest result notes n,
  paren_free t = true ->
  extract_loop (t ++ rest) 0 result notes n
  = extract_loop rest 0 (result ++ t) notes n.
Proof.
  induction t as [|c t IH]; intros rest result notes n H.
  - now rewrite app_nil_r.
  - cbn in H. apply andb_prop in H as [Hc Ht].
    apply andb_prop in Hc as [Hc _]. apply negb_true_iff in Hc.
    cbn [app extract_loop]. rewrite Hc, IH by exact Ht.
    now rewrite <- app_assoc.
Qed.

Lemma extract_loop_build (segs : list (str * str)) :
  forall t0 result notes n,
  paren_free t0 = true ->
  Forall (fun gt => balanced (fst gt) = true /\ paren_free (snd gt) = true) segs ->
  extract_loop (build t0 segs) 0 result notes n
  = (marked_from n (result ++ t0) segs, notes ++ footnotes_from n segs).
Proof.
  induction segs as [|[g t] segs IH]; intros t0 result notes n Ht0 Hsegs.
  - cbn [build marked_from footnotes_from].
    rewrite <- (app_nil_r t0) at 1.
    rewrite extract_loop_text by exact Ht0. now rewrite app_nil_r.
  - inversion Hsegs as [|? ? [Hg Ht] Hrest]; subst. cbn [fst snd] in *.
    cbn [build marked_from footnotes_from].
    rewrite extract_loop_text by exact Ht0.
    cbn [app extract_loop]. rewrite N.eqb_refl.
    assert (Hsc : scan_close (g ++ RPAREN :: build t segs) 1 = g ++ [RPAREN])
      by (apply (scan_close_balanced g 0); [lia|exact Hg]).
    rewrite Hsc, removelast_last.
    replace (g ++ RPAREN :: build t segs)
      with ((g ++ [RPAREN]) ++ build t segs) by now rewrite <- app_assoc.
    rewrite extract_loop_skip, IH by assumption.
    rewrite <- !app_assoc. reflexivity.
Qed.

(** [replace] by something shorter shortens a text that has an occurrence. *)
Lemma replace_double_space_le (s : str) (k : nat) :
  (length (replace_from DOUBLE_SPACE (py " ") k s) <= length (drop k s))%nat.
Proof.
  norm_lits.
  revert k. induction s as [|c s IH]; intros k; [now destruct k|].
  destruct k as [|k]; cbn [replace_from drop]; [|apply IH].
  destruct (startswith DOUBLE_SPACE (c :: s)) eqn:Hs.
  - apply startswith_inv in Hs as [t Ht]. injection Ht as -> ->.
    specialize (IH 1%nat). cbn [length app skipn Nat.sub DOUBLE_SPACE] in *.
    rewrite drop_0 in IH. lia.
  - specialize (IH 0%nat). rewrite drop_0 in IH. cbn [length app] in *. lia.
Qed.

Lemma replace_double_space_lt (s : str) :
  contains DOUBLE_SPACE s = true ->
  (length (replace DOUBLE_SPACE (py " ") s) < length s)%nat.
Proof.
  unfold replace. induction s as [|c s IH]; [discriminate|].
  cbn [contains replace_from]. intros H.
  destruct (startswith DOUBLE_SPACE (c :: s)) eqn:Hs.
  - apply startswith_inv in Hs as [t Ht]. injection Ht as -> ->.
    pose proof (replace_double_space_le (32%N :: t) 1) as Hle.
    cbn [length app skipn Nat.sub DOUBLE_SPACE] in *.
    rewrite drop_0 in Hle. norm_lits_in Hle. norm_lits. cbn [length app]. lia.
  - cbn [orb] in H. specialize (IH H). cbn [length]. lia.
Qed.

(** The loop that collapses double spaces stops before its fuel is used up. *)
Lemma collapse_loop_done (fuel : nat) : forall result,
  (length result <= fuel)%nat ->
  contains DOUBLE_SPACE (collapse_loop fuel result) = false.
Proof.
  induction fuel as [|fuel IH]; intros result Hlen.
  - destruct result; [reflexivity|simpl in Hlen; lia].
  - cbn [collapse_loop].
    destruct (contains DOUBLE_SPACE result) eqn:Hc; [|exact Hc].
    apply IH. apply replace_double_space_lt in Hc. lia.
Qed.

Lemma collapse_spaces_done (result : str) :
  contains DOUBLE_SPACE (collapse_spaces result) = false.
Proof. apply collapse_loop_done. lia. Qed.

(** *** Balanced texts have a top-level structure *)

Lemma balanced_first_group (s : str) : forall e d,
  (0 <= e)%Z -> (0 <= d)%Z ->
  balanced_from (d + 1 + e) s = true ->
  exists g r, s = g ++ RPAREN :: r
              /\ balanced_from e g = true /\ balanced_from d r = true.
Proof.
  induction s as [|c s IH]; intros e d He Hd Hb.
  - cbn in Hb. apply Z.eqb_eq in Hb. lia.
  - cbn [balanced_from] in Hb.
    destruct (N.eqb_spec c LPAREN) as [->|Hno].
    { replace (d + 1 + e + 1)%Z with (d + 1 + (e + 1))%Z in Hb by lia.
      destruct (IH (e + 1)%Z d) as (g & r & -> & Hg & Hr); [lia|lia|exact Hb|].
      exists (LPAREN :: g), r. repeat split; [|exact Hr]. exact Hg. }
    destruct (N.eqb_spec c RPAREN) as [->|Hnc].
    { apply andb_prop in Hb as [_ Hb].
      destruct (Z.eq_dec e 0%Z) as [->|Hne].
      - exists [], s. repeat split.
        now replace (d + 1 + 0 - 1)%Z with d in Hb by lia.
      - replace (d + 1 + e - 1)%Z with (d + 1 + (e - 1))%Z in Hb by lia.
        destruct (IH (e - 1)%Z d) as (g & r & -> & Hg & Hr); [lia|lia|exact Hb|].
        exists (RPAREN :: g), r. repeat split; [|exact Hr].
        cbn. rewrite Hg.
        replace (0 <? e)%Z with true by (symmetry; apply Z.ltb_lt; lia).
        reflexivity. }
    destruct (IH e d) as (g & r & -> & Hg & Hr); [lia|lia|exact Hb|].
    exists (c :: g), r. repeat split; [|exact Hr].
    apply N.eqb_neq in Hno, Hnc. cbn. now rewrite Hno, Hnc.
Qed.

Lemma balanced_top_level_len (n : nat) : forall s,
  (length s <= n)%nat -> balanced s = true ->
  exists t0 segs, top_level s t0 segs.
Proof.
  induction n as [|n IH]; intros s Hlen Hb.
  - destruct s; [|simpl in Hlen; lia].
    exists [], []. repeat split. constructor.
  - destruct s as [|c s].
    { exists [], []. repeat split. constructor. }
    simpl in Hlen. unfold balanced in Hb. cbn [balanced_from] in Hb.
    destruct (N.eqb_spec c LPAREN) as [->|Hno].
    { destruct (balanced_first_group s 0%Z 0%Z) as (g & r & -> & Hg & Hr);
        [lia|lia|exact Hb|].
      destruct (IH r) as (t & segs & -> & Ht & Hsegs).
      { rewrite length_app in Hlen. simpl in Hlen. lia. }
      { exact Hr. }
      exists [], ((g, t) :: segs). repeat split.
      constructor; [split; assumption|exact Hsegs]. }
    destruct (N.eqb_spec c RPAREN) as [->|Hnc]; [discriminate Hb|].
    destruct (IH s) as (t0 & segs & -> & Ht0 & Hsegs); [lia|exact Hb|].
    exists (c :: t0), segs. repeat split; [now destruct segs as [|[? ?] ?]| |exact Hsegs].
    apply N.eqb_neq in Hno, Hnc. unfold paren_free in *. cbn [forallb].
    now rewrite Hno, Hnc, Ht0.
Qed.

Lemma balanced_top_level (s : str) :
  balanced s = true -> exists t0 segs, top_level s t0 segs.
Proof. apply (balanced_top_level_len (length s)). lia. Qed.

Lemma extract_bid_notes_top_level (auction t0 : str) (segs : list (str * str)) :
  top_level auction t0 segs ->
  extract_bid_notes auction
  = (strip (collapse_spaces (marked_from 0 t0 segs)),
     join (py "|") (footnotes_from 0 segs)).
Proof.
  intros (-> & Ht0 & Hsegs). unfold extract_bid_notes.
  now rewrite (extract_loop_build segs t0 [] [] 0 Ht0 Hsegs).
Qed.

(** *** C5 *)

(** C5: footnote extraction keeps the nesting.  Every auction text with
    balanced parentheses is a stretch of text followed by top-level groups
    [(g)], each followed by a stretch of text, and for each such reading of
    it [extract_bid_notes] returns, as footnotes, the entries [N:g] of the
    groups in order, numbered from 1 at every call, and as cleaned text the
    text in which each group and the white space before it has given way to
    [ =N=], with double spaces collapsed (that loop stops with none left)
    and the ends stripped.  ['2C (shows (at least) 4+ clubs)'] gives
    ['2C =1='] and ['1:shows (at least) 4+ clubs']. *)
Theorem extract_preserves_nesting (auction : str) :
  (balanced auction = true ->
   exists t0 segs, top_level auction t0 segs)
  /\ (forall t0 segs, top_level auction t0 segs ->
      extract_bid_notes auction
      = (strip (collapse_spaces (marked_from 0 t0 segs)),
         join (py "|") (footnotes_from 0 segs))
      /\ contains DOUBLE_SPACE (collapse_spaces (marked_from 0 t0 segs)) = false)
  /\ extract_bid_notes (py "2C (shows (at least) 4+ clubs)")
     = (py "2C =1=", py "1:shows (at least) 4+ clubs").
Proof.
  split; [apply balanced_top_level|].
  split.
  - intros t0 segs H. split.
    + now apply extract_bid_notes_top_level.
    + apply collapse_spaces_done.
  - vm_compute. reflexivity.
Qed.

Lemma extract_preserves_nesting_witness :
  top_level (py "1C (16+) - 1D (0-7 (any))") (py "1C ")
    [(py "16+", py " - 1D "); (py "0-7 (any)", [])]
  /\ extract_bid_notes (py "1C (16+) - 1D (0-7 (any))")
     = (py "1C =1= - 1D =2=", py "1:16+|2:0-7 (any)").
Proof.
  assert (H : top_level (py "1C (16+) - 1D (0-7 (any))") (py "1C ")
                [(py "16+", py " - 1D "); (py "0-7 (any)", [])]).
  { repeat split. repeat constructor. }
  split; [exact H|].
  destruct (proj1 (proj2 (extract_preserves_nesting
              (py "1C (16+) - 1D (0-7 (any))"))) _ _ H) as [-> _].
  vm_compute. reflexivity.
Defined.

(** ** The end-to-end scenario *)

(** C2 (amended): the raw block ['3) 1C - [P] - 1D(shows 4+ diamonds) -
    all pass'] has the auction text ['1C - [P] - 1D(shows 4+ diamonds) - all
    pass'], which expands to ['1C Pass 1D(shows 4+ diamonds) Pass Pass Pass']
    (the bracketed pass is the only call between [1C] and [1D]); footnote
    extraction gives ['1C Pass 1D =1= Pass Pass Pass'] and the one footnote
    ['1:shows 4+ diamonds'], which suit-symbol escaping leaves as it is
    (no suit letter follows the count). *)
Theorem end_to_end_scenario :
  deal_line (py "3) 1C - [P] - 1D(shows 4+ diamonds) - all pass")
  = Some (3%N, py "1C - [P] - 1D(shows 4+ diamonds) - all pass")
  /\ expand_auction (py "1C - [P] - 1D(shows 4+ diamonds) - all pass")
     = py "1C Pass 1D(shows 4+ diamonds) Pass Pass Pass"
  /\ extract_bid_notes (py "1C Pass 1D(shows 4+ diamonds) Pass Pass Pass")
     = (py "1C Pass 1D =1= Pass Pass Pass", py "1:shows 4+ diamonds")
  /\ add_suit_symbols (py "1:shows 4+ diamonds") = py "1:shows 4+ diamonds"
  /\ stage3_row (expand_auction (py "1C - [P] - 1D(shows 4+ diamonds) - all pass")) []
     = (py "1C Pass 1D =1= Pass Pass Pass", py "1:shows 4+ diamonds", []).
Proof. repeat split; vm_compute; reflexivity. Qed.

(** C2 as stated fails twice: the expansion has one pass, not two, between
    [1C] and [1D], and the footnote text is not escaped. *)
Lemma end_to_end_scenario_differs :
  expand_auction (py "1C - [P] - 1D(shows 4+ diamonds) - all pass")
  <> py "1C Pass Pass 1D(shows 4+ diamonds) Pass Pass Pass"
  /\ fst (extract_bid_notes
            (expand_auction (py "1C - [P] - 1D(shows 4+ diamonds) - all pass")))
     <> py "1C Pass Pass 1D =1= Pass Pass Pass"
  /\ add_suit_symbols (py "shows 4+ diamonds") <> py "shows 4+\Ds diamonds".
Proof. repeat split; vm_compute; discriminate. Qed.

(** ** Suit-symbol escaping twice *)


(** ** Rotation *)

Lemma SEATS_inv (s : str) :
  s ∈ SEATS -> s = py "N" \/ s = py "E" \/ s = py "S" \/ s = py "W".
Proof.
  unfold SEATS. rewrite !elem_of_cons, elem_of_nil. tauto.
Qed.

Ltac seats_goal :=
  split; [vm_compute; reflexivity|];
  split; [unfold SEATS; rewrite !elem_of_cons; auto 10|vm_compute; reflexivity].

(** C9: rotation is an involution.  For each of the four seats
    [rotate_seat] returns a seat whose rotation is the seat again, and for
    every Deal value that starts with a seat letter [rotate_deal_tag]
    returns a value with the same characters after the first whose rotation
    is the value again. *)
Theorem rotation_involution :
  (forall s, s ∈ SEATS ->
     exists s', rotate_seat s = Some s' /\ s' ∈ SEATS /\ rotate_seat s' = Some s)
  /\ (forall (c : char) (rest : str), [c] ∈ SEATS ->
        exists d', rotate_deal_tag (c :: rest) = Some d'
                   /\ drop 1 d' = rest
                   /\ rotate_deal_tag d' = Some (c :: rest)).
Proof.
  split.
  - intros s Hs.
    destruct (SEATS_inv s Hs) as [-> | [-> | [-> | ->]]].
    + exists (py "S"). seats_goal.
    + exists (py "W"). seats_goal.
    + exists (py "N"). seats_goal.
    + exists (py "E"). seats_goal.
  - intros c rest Hc.
    destruct (SEATS_inv [c] Hc) as [H | [H | [H | H]]];
      injection H as ->.
    + exists (py "S" ++ rest). repeat split.
    + exists (py "W" ++ rest). repeat split.
    + exists (py "N" ++ rest). repeat split.
    + exists (py "E" ++ rest). repeat split.
Qed.

Lemma rotation_involution_witness :
  py "E" ∈ SEATS
  /\ (exists s', rotate_seat (py "E") = Some s' /\ s' ∈ SEATS
                 /\ rotate_seat s' = Some (py "E"))
  /\ (exists d', rotate_deal_tag (py "W:AK.QJ.T9.87") = Some d'
                 /\ drop 1 d' = py ":AK.QJ.T9.87"
                 /\ rotate_deal_tag d' = Some (py "W:AK.QJ.T9.87")).
Proof.
  assert (HE : py "E" ∈ SEATS) by (unfold SEATS; rewrite !elem_of_cons; auto 10).
  assert (HW : [87%N] ∈ SEATS) by (unfold SEATS; rewrite !elem_of_cons; auto 10).
  split; [exact HE|]. split.
  - apply (proj1 rotation_involution (py "E") HE).
  - apply (proj2 rotation_involution 87%N (py ":AK.QJ.T9.87") HW).
Defined.

(** ** Commentary: the opponents *)

Lemma str_eqb_true (a b : str) : a = b -> str_eqb a b = true.
Proof. intros ->. unfold str_eqb. now apply bool_decide_eq_true. Qed.

(** C8: in the commentary loop, a turn of East or West adds no line when
    the bid is a pass (its upper case is [PASS]; whatever the footnote), and
    exactly one line when the bid is [X] or [XX], with or without a
    footnote. *)
Theorem opponents_pass_silently (notes : gmap N str) (lines : list str)
    (seat bid : str) (note_num : option N) :
  seat = py "E" \/ seat = py "W" ->
  let name := if str_eqb seat (py "E") then py "East" else py "West" in
  (upper bid = py "PASS" ->
     commentary_step notes lines (seat, bid, note_num) = lines)
  /\ (bid = py "X" ->
      commentary_step notes lines (seat, bid, note_num)
      = lines ++ [name ++ py " doubles."])
  /\ (bid = py "XX" ->
      commentary_step notes lines (seat, bid, note_num)
      = lines ++ [name ++ py " redoubles."])
  /\ upper (py "Pass") = py "PASS".
Proof.
  intros Hseat name. subst name.
  assert (Hstep : commentary_step notes lines (seat, bid, note_num)
    = if negb (str_eqb (upper bid) (py "PASS")) then
        if str_eqb bid (py "X")
        then lines ++ [(if str_eqb seat (py "E") then py "East" else py "West")
                       ++ py " doubles."]
        else if str_eqb bid (py "XX")
        then lines ++ [(if str_eqb seat (py "E") then py "East" else py "West")
                       ++ py " redoubles."]
        else lines ++ [(if str_eqb seat (py "E") then py "East" else py "West")
                       ++ py " bids " ++ format_bid_display bid ++ py "."]
      else lines).
  { unfold commentary_step.
    destruct Hseat as [-> | ->].
    - replace (str_eqb (py "E") (py "N")) with false by reflexivity.
      replace (str_eqb (py "E") (py "S")) with false by reflexivity.
      replace (str_eqb (py "E") (py "E")) with true by reflexivity.
      reflexivity.
    - replace (str_eqb (py "W") (py "N")) with false by reflexivity.
      replace (str_eqb (py "W") (py "S")) with false by reflexivity.
      replace (str_eqb (py "W") (py "E")) with false by reflexivity.
      replace (str_eqb (py "W") (py "W")) with true by reflexivity.
      reflexivity. }
  rewrite Hstep. repeat split.
  - intros Hup. now rewrite (str_eqb_true _ _ Hup).
  - intros ->. reflexivity.
  - intros ->. reflexivity.
Qed.

Lemma opponents_pass_silently_witness :
  commentary_step {[1%N := py "takeout"]} [py "North bids 1\C."]
    (py "E", py "Pass", Some 1%N) = [py "North bids 1\C."]
  /\ commentary_step {[1%N := py "takeout"]} [py "North bids 1\C."]
       (py "E", py "X", Some 1%N)
     = [py "North bids 1\C."; py "East doubles."]
  /\ commentary_step ∅ [] (py "W", py "XX", None) = [py "West redoubles."].
Proof.
  split; [|split].
  - apply (opponents_pass_silently {[1%N := py "takeout"]}
             [py "North bids 1\C."] (py "E") (py "Pass") (Some 1%N)).
    + left. reflexivity.
    + reflexivity.
  - apply (opponents_pass_silently {[1%N := py "takeout"]}
             [py "North bids 1\C."] (py "E") (py "X") (Some 1%N)).
    + left. reflexivity.
    + reflexivity.
  - apply (opponents_pass_silently ∅ [] (py "W") (py "XX") None).
    + right. reflexivity.
    + reflexivity.
Defined.

(** ** The matcher *)

(** A repetition that can run over [v] and then succeeds does so. *)
Lemma star_loop_prefix (p : char -> bool) (k : mstate -> option mstate)
    (v : str) : forall consumed before groups rest m,
  forallb p v = true ->
  star_loop p k (rev v ++ consumed) before groups rest = Some m ->
  star_loop p k consumed before groups (v ++ rest) = Some m.
Proof.
  induction v as [|c v IH]; intros consumed before groups rest m Hv H.
  - exact H.
  - cbn in Hv. apply andb_prop in Hv as [Hc Hv].
    cbn [app star_loop]. rewrite Hc.
    rewrite (IH (c :: consumed) before groups rest m Hv); [reflexivity|].
    cbn [rev] in H. now rewrite <- app_assoc in H.
Qed.

Lemma star_loop_end (p : char -> bool) (k : mstate -> option mstate)
    (v : str) (consumed : str) (before : option char)
    (groups : list (nat * str)) (m : mstate) :
  forallb p v = true ->
  k (MState (rev v ++ consumed) before [] groups) = Some m ->
  star_loop p k consumed before groups v = Some m.
Proof.
  intros Hv H.
  pose proof (star_loop_prefix p k v consumed before groups [] m Hv) as Hp.
  rewrite app_nil_r in Hp. apply Hp.
  destruct v; exact H.
Qed.

Lemma star_loop_stop (p : char -> bool) (k : mstate -> option mstate)
    (consumed : str) (before : option char) (groups : list (nat * str))
    (c : char) (rest : str) :
  p c = false ->
  star_loop p k consumed before groups (c :: rest)
  = k (MState consumed before (c :: rest) groups).
Proof. intros H. cbn [star_loop]. now rewrite H. Qed.

(** The text of a group that has run over [u]. *)
Lemma captured (u y : str) (n : nat) :
  length y = n -> rev (take (length (u ++ y) - n) (u ++ y)) = rev u.
Proof.
  intros <-. rewrite length_app, Nat.add_sub. now rewrite take_app_length.
Qed.

Lemma is_word_space : is_word 32 = false.
Proof. reflexivity. Qed.

Lemma isspace_space : isspace 32 = true.
Proof. reflexivity. Qed.

Lemma isspace_quote : isspace 34 = false.
Proof. reflexivity. Qed.

Lemma tag_line_eq (name value : str) :
  tag_line name value = 91%N :: name ++ 32%N :: 34%N :: value ++ [34; 93]%N.
Proof.
  unfold tag_line, QUOTE. norm_lits. cbn [app].
  rewrite <- ?app_assoc. reflexivity.
Qed.

(** The tag pattern reads a written tag line back. *)
Lemma tag_match_tag_line (name value : str) :
  name <> [] ->
  forallb is_word name = true ->
  forallb not_newline value = true ->
  tag_match (tag_line name value) = Some (name, value).
Proof.
  intros Hne Hname Hvalue.
  destruct name as [|a name]; [congruence|]. clear Hne.
  cbn in Hname. apply andb_prop in Hname as [Ha Hname].
  assert (H : exists m, re_match RULE_TAG (tag_line (a :: name) value) = Some m
                        /\ group m 1 = a :: name /\ group m 2 = value).
  { rewrite tag_line_eq.
    unfold re_match, match_at, RULE_TAG, Plus, QUOTE. norm_lits.
    eexists. split.
    - cbn [seq_of rmatch m_rest m_consumed m_before m_groups startswith
           N.eqb Pos.eqb andb length drop skipn app rev].
      rewrite Ha.
      apply star_loop_prefix; [exact Hname|].
      rewrite star_loop_stop by exact is_word_space.
      cbn [m_rest m_consumed m_before m_groups]. rewrite isspace_space.
      rewrite star_loop_stop by exact isspace_quote.
      cbn [rmatch m_rest m_consumed m_before m_groups startswith
           N.eqb Pos.eqb andb length drop skipn app rev].
      apply star_loop_prefix; [exact Hvalue|].
      cbn. reflexivity.
    - cbn [group m_groups lookup_group Nat.eqb].
      split.
      + replace (rev name ++ [a; 91%N]) with ((rev name ++ [a]) ++ [91%N])
          by now rewrite <- app_assoc.
        rewrite (captured (rev name ++ [a]) [91%N] 1 eq_refl).
        now rewrite rev_app_distr, rev_involutive.
      + rewrite (captured (rev value) (34%N :: 32%N :: rev name ++ [a; 91%N])
                   (S (S (length (rev name ++ [a; 91%N])))) eq_refl).
        apply rev_involutive. }
  destruct H as (m & Hm & H1 & H2).
  unfold tag_match. now rewrite Hm, H1, H2.
Qed.

(** ** Numerals *)

Lemma chars_of_uint_digits (d : Decimal.uint) :
  forallb is_digit (chars_of_uint d) = true.
Proof.
  induction d; cbn [chars_of_uint forallb]; try reflexivity;
    rewrite IHd; reflexivity.
Qed.

Lemma digits_value_acc (d : Decimal.uint) : forall acc : positive,
  fold_left (fun acc c => (acc * 10 + digit_value c)%N) (chars_of_uint d)
            (Npos acc)
  = Npos (Pos.of_uint_acc d acc).
Proof.
  induction d; intros acc; cbn [chars_of_uint fold_left Pos.of_uint_acc];
    [reflexivity|..];
    match goal with
    | |- fold_left _ _ (_ * 10 + digit_value ?c)%N = _ =>
        let v := eval vm_compute in (digit_value c) in
        change (digit_value c) with v
    end;
    match goal with
    | |- fold_left _ _ ?a = N.pos (Pos.of_uint_acc _ ?b) =>
        replace a with (N.pos b) by lia
    end; apply IHd.
Qed.

Lemma digits_value_uint (d : Decimal.uint) :
  digits_value (chars_of_uint d) = N.of_uint d.
Proof.
  unfold digits_value, N.of_uint.
  induction d; cbn [chars_of_uint fold_left Pos.of_uint]; [reflexivity|..];
    match goal with
    | |- fold_left _ _ (_ * 10 + digit_value ?c)%N = _ =>
        let v := eval vm_compute in (0 * 10 + digit_value c)%N in
        change (0 * 10 + digit_value c)%N with v
    end; [exact IHd|apply digits_value_acc..].
Qed.

Lemma digits_value_of_int (n : N) : digits_value (str_of_int n) = n.
Proof.
  unfold str_of_int. rewrite digits_value_uint.
  apply DecimalN.Unsigned.of_to.
Qed.

(** Reading a printed number gives the number, when its numeral is within
    the limit of the conversion. *)
Lemma int_of_str_of_int (n : N) :
  numeral_ok n -> int_of_str (str_of_int n) = Some n.
Proof.
  unfold numeral_ok, int_of_str. intros H.
  apply N.ltb_ge in H. now rewrite H, digits_value_of_int.
Qed.

Lemma str_of_int_digits (n : N) :
  exists d ds, str_of_int n = d :: ds
               /\ is_digit d = true /\ forallb is_digit ds = true.
Proof.
  unfold str_of_int.
  pose proof (chars_of_uint_digits (N.to_uint n)) as H.
  destruct (chars_of_uint (N.to_uint n)) as [|d ds] eqn:E.
  - exfalso. destruct n as [|p]; [discriminate E|].
    cbn [N.to_uint] in E.
    pose proof (DecimalPos.Unsigned.to_uint_nonnil p) as Hnn.
    destruct (Pos.to_uint p); [now apply Hnn|discriminate E..].
  - cbn in H. apply andb_prop in H as [Hd Hds]. eauto.
Qed.

Lemma is_digit_colon : is_digit 58 = false.
Proof. reflexivity. Qed.

(** The note pattern reads an entry [N:text] back when the text is not
    empty. *)
Lemma note_match_entry (n : N) (t : str) :
  numeral_ok n -> t <> [] -> forallb not_newline t = true ->
  note_match (note_entry n t) = Some (Some (n, t)).
Proof.
  intros Hn0 Hne Ht.
  destruct t as [|c t]; [congruence|]. clear Hne.
  cbn [forallb] in Ht. apply andb_prop in Ht as [Hc Ht].
  destruct (str_of_int_digits n) as (d & ds & Hn & Hd & Hds).
  assert (H : exists m, re_match RULE_NOTE (note_entry n (c :: t)) = Some m
                /\ group m 1 = str_of_int n /\ group m 2 = c :: t).
  { unfold note_entry. rewrite Hn.
    unfold re_match, match_at, RULE_NOTE, Plus. norm_lits.
    eexists. split.
    - cbn [seq_of rmatch m_rest m_consumed m_before m_groups app].
      rewrite Hd.
      apply star_loop_prefix; [exact Hds|].
      rewrite star_loop_stop by exact is_digit_colon.
      cbn [rmatch m_rest m_consumed m_before m_groups startswith
           N.eqb Pos.eqb andb length drop skipn app rev].
      rewrite Hc.
      apply star_loop_end; [exact Ht|].
      cbn. reflexivity.
    - cbn [group m_groups lookup_group Nat.eqb]. split.
      + replace (rev ds ++ [d]) with ((rev ds ++ [d]) ++ []) by apply app_nil_r.
        rewrite (captured (rev ds ++ [d]) [] 0 eq_refl).
        now rewrite rev_app_distr, rev_involutive.
      + replace (rev t ++ c :: 58%N :: rev ds ++ [d])
          with ((rev t ++ [c]) ++ 58%N :: rev ds ++ [d])
          by now rewrite <- app_assoc.
        rewrite (captured (rev t ++ [c]) (58%N :: rev ds ++ [d])
                   (S (length (rev ds ++ [d]))) eq_refl).
        now rewrite rev_app_distr, rev_involutive. }
  destruct H as (m & Hm & H1 & H2).
  unfold note_match. now rewrite Hm, H1, H2, int_of_str_of_int.
Qed.

(** ** Lines *)

Lemma lstrip_by_head (p : char -> bool) (c : char) (s : str) :
  p c = false -> lstrip_by p (c :: s) = c :: s.
Proof. intros H. cbn. now rewrite H. Qed.

Lemma tight_strip (s : str) : tight s = true -> strip s = s.
Proof.
  unfold tight. intros H. apply andb_prop in H as [Hh Hl].
  destruct s as [|c s]; [discriminate|].
  apply negb_true_iff in Hh.
  unfold strip, lstrip, rstrip, rstrip_by. rewrite (lstrip_by_head _ _ _ Hh).
  destruct (rev (c :: s)) as [|e r] eqn:E; [discriminate|].
  apply negb_true_iff in Hl.
  rewrite (lstrip_by_head _ _ _ Hl), <- E. apply rev_involutive.
Qed.

Lemma tight_nonempty (s : str) : tight s = true -> s <> [].
Proof. now destruct s. Qed.

Lemma tight_ends (c e : char) (s : str) :
  isspace c = false -> isspace e = false -> tight (c :: s ++ [e]) = true.
Proof.
  intros Hc He. unfold tight.
  change (c :: s ++ [e]) with ((c :: s) ++ [e]).
  rewrite rev_app_distr. cbn. now rewrite Hc, He.
Qed.

Lemma tight_app (a m b : str) :
  tight a = true -> tight b = true -> tight (a ++ m ++ b) = true.
Proof.
  unfold tight. intros Ha Hb.
  apply andb_prop in Ha as [Ha _]. apply andb_prop in Hb as [_ Hb].
  destruct a as [|c a]; [discriminate|]. cbn [app]. rewrite Ha.
  change (c :: a ++ m ++ b) with ((c :: a) ++ m ++ b).
  rewrite !rev_app_distr.
  destruct (rev b) as [|e r]; [discriminate|]. cbn [app]. now rewrite Hb.
Qed.

Lemma inline_app (a b : str) :
  inline a = true -> inline b = true -> inline (a ++ b) = true.
Proof. unfold inline. intros Ha Hb. now rewrite forallb_app, Ha, Hb. Qed.

Lemma inline_one_line (s : str) : inline s = true -> one_line s = true.
Proof.
  unfold inline, one_line. rewrite !forallb_forall. intros H c Hc.
  specialize (H c Hc).
  destruct (N.eqb_spec c 10) as [->|]; [discriminate H|].
  destruct (N.eqb_spec c 13) as [->|]; [discriminate H|]. reflexivity.
Qed.

Lemma one_line_not_newline (s : str) :
  one_line s = true -> forallb not_newline s = true.
Proof.
  unfold one_line, not_newline. rewrite !forallb_forall. intros H c Hc.
  specialize (H c Hc). now apply andb_prop in H as [H _].
Qed.

Lemma good_join2 (a b : str) : good a -> good b -> good (a ++ py " " ++ b).
Proof.
  intros [Ta Ia] [Tb Ib]. split.
  - now apply tight_app.
  - apply inline_app; [exact Ia|]. now apply inline_app.
Qed.

Lemma good_join (a : str) (l : list str) :
  good a -> Forall (fun s => good s) l -> good (join (py " ") (a :: l)).
Proof.
  revert a. induction l as [|b l IH]; intros a Ha Hl; [exact Ha|].
  inversion Hl as [|? ? Hb Hl']; subst.
  change (join (py " ") (a :: b :: l))
    with (a ++ py " " ++ join (py " ") (b :: l)).
  apply good_join2; [exact Ha|]. now apply IH.
Qed.

Lemma words_loop_good (s : str) : forall cur,
  forallb (fun c => negb (isspace c)) cur = true ->
  Forall (fun t => good t) (words_loop s cur).
Proof.
  assert (Hcur : forall cur : str,
    cur <> [] -> forallb (fun c => negb (isspace c)) cur = true -> good cur).
  { intros cur Hne Hall. split.
    - destruct cur as [|c cur]; [congruence|].
      destruct (exists_last (l := c :: cur)) as (u & e & Hu); [discriminate|].
      assert (He : isspace e = false).
      { rewrite Hu, forallb_app in Hall. apply andb_prop in Hall as [_ He].
        cbn in He. rewrite andb_true_r in He. now apply negb_true_iff. }
      cbn in Hall. apply andb_prop in Hall as [Hc _].
      apply negb_true_iff in Hc.
      unfold tight.
      replace (rev (c :: cur)) with (rev (u ++ [e])) by now rewrite Hu.
      rewrite rev_app_distr. cbn. now rewrite Hc, He.
    - unfold inline. rewrite forallb_forall in Hall |- *.
      intros x Hx. now rewrite (Hall x Hx). }
  induction s as [|a s IH]; intros cur Hall.
  - destruct cur as [|c cur]; cbn; constructor; [|constructor].
    now apply Hcur.
  - cbn [words_loop]. destruct (isspace a) eqn:Ha.
    + destruct cur as [|c cur]; [now apply IH|].
      constructor; [now apply Hcur|now apply IH].
    + apply IH. rewrite forallb_app, Hall. cbn. now rewrite Ha.
Qed.

Lemma group_bids_good_len (n : nat) : forall tokens,
  (length tokens <= n)%nat ->
  Forall (fun t => good t) tokens -> Forall (fun t => good t) (group_bids tokens).
Proof.
  induction n as [|n IH]; intros tokens Hlen Hg.
  - destruct tokens; [constructor|simpl in Hlen; lia].
  - destruct tokens as [|bid [|nxt rest]]; [constructor|exact Hg|].
    inversion Hg as [|? ? Hbid Hg1]; subst.
    inversion Hg1 as [|? ? Hnxt Hg2]; subst.
    simpl in Hlen. cbn [group_bids].
    destruct (is_flag_token nxt).
    + constructor; [now apply good_join2|]. apply IH; [lia|exact Hg2].
    + constructor; [exact Hbid|].
      apply (IH (nxt :: rest)); [simpl; lia|exact Hg1].
Qed.

Lemma chunk4_good_len (n : nat) : forall bids,
  (length bids <= n)%nat ->
  Forall (fun t => good t) bids -> Forall (fun t => good t) (chunk4 bids).
Proof.
  induction n as [|n IH]; intros bids Hlen Hg.
  - destruct bids; [constructor|simpl in Hlen; lia].
  - destruct bids as [|a [|b [|c [|d rest]]]]; [constructor|..].
    + constructor; [|constructor]. inversion Hg; subst. now apply good_join.
    + constructor; [|constructor]. inversion Hg; subst. now apply good_join.
    + constructor; [|constructor]. inversion Hg; subst. now apply good_join.
    + cbn [chunk4]. simpl in Hlen.
      inversion Hg as [|? ? Ha H1]; subst. inversion H1 as [|? ? Hb H2]; subst.
      inversion H2 as [|? ? Hc H3]; subst. inversion H3 as [|? ? Hd H4]; subst.
      constructor.
      * apply good_join; [exact Ha|].
        constructor; [exact Hb|]. constructor; [exact Hc|].
        constructor; [exact Hd|constructor].
      * apply IH; [lia|exact H4].
Qed.

(** The auction-body lines are not empty, have no white space at their
    ends and no line break. *)
Lemma auction_body_lines_good (auction_str : str) :
  Forall (fun l => good l) (auction_body_lines auction_str).
Proof.
  unfold auction_body_lines.
  apply (chunk4_good_len _ _ (Nat.le_refl _)).
  apply (group_bids_good_len _ _ (Nat.le_refl _)).
  now apply words_loop_good.
Qed.

Lemma unlines_app (a b : list str) : unlines (a ++ b) = unlines a ++ unlines b.
Proof. unfold unlines. now rewrite map_app, concat_app. Qed.

Lemma unlines_cons (l : str) (ls : list str) :
  unlines (l :: ls) = l ++ NL ++ unlines ls.
Proof. unfold unlines. cbn [map concat]. now rewrite <- app_assoc. Qed.

Lemma join_unlines (ls : list str) :
  ls <> [] -> join NL ls ++ NL = unlines ls.
Proof.
  induction ls as [|a ls IH]; [congruence|]. intros _.
  destruct ls as [|b ls]; [cbn; now rewrite app_nil_r|].
  change (join NL (a :: b :: ls)) with (a ++ NL ++ join NL (b :: ls)).
  rewrite <- !app_assoc, IH by congruence. symmetry. apply unlines_cons.
Qed.

(** The writes of a board are its lines, each ended by a line feed. *)
Lemma stage4_writes_lines (board : gmap str str) (row : row3) :
  unlines (stage4_writes board row) = unlines (stage4_lines board row).
Proof.
  unfold stage4_writes, stage4_lines, format_auction_lines.
  cbn [map fst snd app].
  rewrite !unlines_cons.
  do 32 apply (f_equal2 (@app N) eq_refl).
  destruct (auction_body_lines (r_auction row)) as [|l ls] eqn:E.
  - cbn [body_or_blank app join]. now rewrite unlines_cons.
  - cbn [body_or_blank].
    rewrite !unlines_app, <- (join_unlines (l :: ls)) by congruence.
    now rewrite <- !app_assoc.
Qed.

Lemma split_char_loop_line (l : str) : forall cur rest,
  forallb not_newline l = true ->
  split_char_loop 10 (l ++ NL ++ rest) cur
  = (cur ++ l) :: split_char_loop 10 rest [].
Proof.
  induction l as [|c l IH]; intros cur rest Hl.
  - cbn. now rewrite app_nil_r.
  - cbn in Hl. apply andb_prop in Hl as [Hc Hl].
    unfold not_newline in Hc. apply negb_true_iff in Hc.
    cbn [app split_char_loop]. rewrite Hc, IH by exact Hl.
    now rewrite <- app_assoc.
Qed.

(** Splitting written lines at the line feeds gives the lines. *)
Lemma split_char_unlines (ls : list str) (rest : str) :
  Forall (fun l => forallb not_newline l = true) ls ->
  split_char 10 (unlines ls ++ rest) = ls ++ split_char 10 rest.
Proof.
  unfold split_char. induction 1 as [|l ls Hl Hls IH]; [reflexivity|].
  rewrite unlines_cons, <- !app_assoc.
  now rewrite split_char_loop_line, IH.
Qed.

Lemma universal_newlines_id (s : str) :
  forallb (fun c => negb (c =? 13)%N) s = true -> universal_newlines s = s.
Proof.
  induction s as [|c s IH]; [reflexivity|]. intros H.
  cbn in H. apply andb_prop in H as [Hc Hs]. apply negb_true_iff in Hc.
  cbn [universal_newlines]. now rewrite Hc, IH.
Qed.

Lemma unlines_no_cr (ls : list str) :
  Forall (fun l => one_line l = true) ls ->
  forallb (fun c => negb (c =? 13)%N) (unlines ls) = true.
Proof.
  induction 1 as [|l ls Hl Hls IH]; [reflexivity|].
  rewrite unlines_cons, !forallb_app, IH.
  cbn [NL forallb N.eqb Pos.eqb negb andb]. rewrite andb_true_r.
  unfold one_line in Hl. rewrite forallb_forall in Hl |- *.
  intros c Hc. specialize (Hl c Hc). now apply andb_prop in Hl as [_ Hl].
Qed.

Lemma parse_lines_app (a b : list str) : forall st,
  parse_lines st (a ++ b)
  = match parse_lines st a with
    | Some st' => parse_lines st' b
    | None => None
    end.
Proof.
  induction a as [|l a IH]; intros st; [reflexivity|].
  cbn [app parse_lines]. destruct (parse_line st l); [apply IH|reflexivity].
Qed.

(** ** The parser, line by line *)

Lemma tag_line_tight (name value : str) : tight (tag_line name value) = true.
Proof.
  rewrite tag_line_eq.
  replace (91%N :: name ++ 32%N :: 34%N :: value ++ [34; 93]%N)
    with (91%N :: (name ++ 32%N :: 34%N :: value ++ [34%N]) ++ [93%N]).
  - now apply tight_ends.
  - rewrite <- !app_assoc. cbn [app]. now rewrite <- !app_assoc.
Qed.

Lemma parse_line_tag (st : pstate) (name value : str) :
  name <> [] -> forallb is_word name = true ->
  forallb not_newline value = true ->
  parse_line st (tag_line name value)
  = parse_tag st (tag_line name value) name value.
Proof.
  intros Hne Hw Hv. unfold parse_line.
  rewrite (tight_strip _ (tag_line_tight name value)).
  rewrite (tag_match_tag_line name value Hne Hw Hv).
  now rewrite tag_line_eq.
Qed.

Lemma meta_name_ok_inv (name : str) :
  meta_name_ok name = true ->
  name <> [] /\ forallb is_word name = true
  /\ str_eqb name (py "Event") = false
  /\ str_eqb name (py "Auction") = false
  /\ str_eqb name (py "Note") = false.
Proof.
  unfold meta_name_ok. intros H.
  repeat (apply andb_prop in H as [H ?]).
  repeat match goal with
         | H : negb _ = true |- _ => apply negb_true_iff in H
         end.
  apply bool_decide_eq_false in H. auto.
Qed.

Lemma parse_line_meta (B : list board_rec) (cur : board_rec) (ia ic : bool)
    (T name value : str) :
  meta_name_ok name = true -> forallb not_newline value = true ->
  parse_line (PState B (Some cur) ia ic T) (tag_line name value)
  = Some (PState B (Some (add_meta cur name value)) ia ic T).
Proof.
  intros Hn Hv.
  apply meta_name_ok_inv in Hn as (Hne & Hw & HE & HA & HN).
  rewrite parse_line_tag by assumption.
  unfold parse_tag. rewrite HE. cbn [p_current]. now rewrite HA, HN.
Qed.

Lemma parse_lines_meta (tags : list (str * str)) :
  forall B cur ia ic T,
  Forall (fun nv => meta_name_ok (fst nv) = true
                    /\ forallb not_newline (snd nv) = true) tags ->
  exists cur',
    parse_lines (PState B (Some cur) ia ic T)
                (map (fun nv => tag_line (fst nv) (snd nv)) tags)
    = Some (PState B (Some cur') ia ic T)
    /\ summary cur' = summary cur.
Proof.
  induction tags as [|[n v] tags IH]; intros B cur ia ic T Hall.
  - exists cur. split; reflexivity.
  - inversion Hall as [|? ? [Hn Hv] Hrest]; subst. cbn [fst snd] in *.
    cbn [map parse_lines fst snd]. rewrite parse_line_meta by assumption.
    destruct (IH B (add_meta cur n v) ia ic T Hrest) as (cur' & Hp & Hs).
    exists cur'. split; [exact Hp|]. now rewrite Hs.
Qed.

Lemma parse_line_event (st : pstate) (value : str) :
  forallb not_newline value = true ->
  parse_line st (tag_line (py "Event") value)
  = Some (PState (p_boards (flush st))
                 (Some (add_meta new_board (py "Event") value))
                 false false (commentary_text (flush st))).
Proof.
  intros Hv. rewrite parse_line_tag; [|discriminate|reflexivity|exact Hv].
  reflexivity.
Qed.

Lemma parse_line_auction (B : list board_rec) (cur : board_rec) (ia ic : bool)
    (T value : str) :
  forallb not_newline value = true ->
  parse_line (PState B (Some cur) ia ic T) (tag_line (py "Auction") value)
  = Some (PState B
            (Some (Board (meta_tags cur) value (auction_lines cur)
                         (b_notes cur) (note_lines cur) (commentary cur)))
            true ic T).
Proof.
  intros Hv. rewrite parse_line_tag; [|discriminate|reflexivity|exact Hv].
  reflexivity.
Qed.

Lemma body_line_ok_inv (l : str) :
  body_line_ok l = true ->
  startswith (py "%") l = false /\ startswith (py "{") l = false
  /\ tag_match l = None.
Proof.
  unfold body_line_ok. intros H.
  apply andb_prop in H as [H H3]. apply andb_prop in H as [H1 H2].
  apply negb_true_iff in H1, H2.
  destruct (tag_match l); [discriminate|]. auto.
Qed.

Lemma parse_line_body (B : list board_rec) (cur : board_rec) (T l : str) :
  good l -> body_line_ok l = true ->
  parse_line (PState B (Some cur) true false T) l
  = Some (PState B (Some (add_body cur [l])) true false T).
Proof.
  intros [Ht _] Hok. apply body_line_ok_inv in Hok as (H1 & H2 & H3).
  unfold parse_line. rewrite (tight_strip l Ht), H1, H3, H2.
  cbn [in_commentary in_auction p_current andb].
  rewrite bool_decide_eq_false_2 by now apply tight_nonempty.
  reflexivity.
Qed.

Lemma add_body_app (cur : board_rec) (a b : list str) :
  add_body (add_body cur a) b = add_body cur (a ++ b).
Proof. unfold add_body. cbn. now rewrite <- app_assoc. Qed.

Lemma parse_lines_body (body : list str) : forall B cur T,
  Forall (fun l => good l) body ->
  forallb body_line_ok body = true ->
  parse_lines (PState B (Some cur) true false T) body
  = Some (PState B (Some (add_body cur body)) true false T).
Proof.
  induction body as [|l body IH]; intros B cur T Hg Hok.
  - unfold add_body. rewrite app_nil_r. now destruct cur.
  - inversion Hg as [|? ? Hl Hg']; subst.
    cbn in Hok. apply andb_prop in Hok as [Hlok Hok].
    cbn [parse_lines]. rewrite parse_line_body by assumption.
    rewrite IH by assumption. now rewrite add_body_app.
Qed.

Lemma parse_line_blank (B : list board_rec) (cur : option board_rec)
    (ia : bool) (T : str) :
  parse_line (PState B cur ia false T) [] = Some (PState B cur ia false T).
Proof. now destruct ia. Qed.

(** *** Footnote lines *)

Lemma chars_of_uint_range (d : Decimal.uint) :
  forallb (fun c => (48 <=? c)%N && (c <=? 57)%N) (chars_of_uint d) = true.
Proof.
  induction d; cbn [chars_of_uint forallb]; try reflexivity;
    rewrite IHd; reflexivity.
Qed.

Lemma str_of_int_plain (n : N) (c : char) :
  In c (str_of_int n) -> c <> 10%N /\ c <> 13%N /\ c <> 124%N.
Proof.
  intros Hc. unfold str_of_int in Hc.
  pose proof (chars_of_uint_range (N.to_uint n)) as H.
  rewrite forallb_forall in H. specialize (H c Hc).
  apply andb_prop in H as [H1 H2].
  apply N.leb_le in H1, H2. lia.
Qed.

Lemma note_entry_chars (n : N) (t : str) (P : char -> bool) :
  P 58%N = true ->
  (forall c, c <> 10%N /\ c <> 13%N /\ c <> 124%N -> (48 <= c <= 57)%N -> P c = true) ->
  forallb P t = true ->
  forallb P (note_entry n t) = true.
Proof.
  intros Hcolon Hdig Ht. unfold note_entry. norm_lits.
  rewrite !forallb_app, Ht. cbn [forallb]. rewrite Hcolon, !andb_true_r.
  apply forallb_forall. intros c Hc.
  apply Hdig; [now apply (str_of_int_plain n)|].
  unfold str_of_int in Hc.
  pose proof (chars_of_uint_range (N.to_uint n)) as H.
  rewrite forallb_forall in H. specialize (H c Hc).
  apply andb_prop in H as [H1 H2]. apply N.leb_le in H1, H2. lia.
Qed.

Lemma note_text_ok_inv (t : str) :
  note_text_ok t = true ->
  t <> [] /\ forallb not_newline t = true
  /\ forallb (fun c => negb (c =? 124)%N) t = true.
Proof.
  destruct t as [|c t]; [discriminate|]. unfold note_text_ok.
  intros H. apply andb_prop in H as [H1 H2].
  split; [discriminate|]. split; [|exact H2].
  now apply one_line_not_newline.
Qed.

Lemma note_entry_not_newline (n : N) (t : str) :
  forallb not_newline t = true -> forallb not_newline (note_entry n t) = true.
Proof.
  apply note_entry_chars; [reflexivity|].
  intros c (H & _) _. unfold not_newline. now apply negb_true_iff, N.eqb_neq.
Qed.

Lemma note_entry_no_bar (n : N) (t : str) :
  forallb (fun c => negb (c =? 124)%N) t = true ->
  forallb (fun c => negb (c =? 124)%N) (note_entry n t) = true.
Proof.
  apply note_entry_chars; [reflexivity|].
  intros c (_ & _ & H) _. now apply negb_true_iff, N.eqb_neq.
Qed.

Lemma note_entry_nonempty (n : N) (t : str) : note_entry n t <> [].
Proof.
  unfold note_entry. destruct (str_of_int_digits n) as (d & ds & Hn & _).
  rewrite Hn. discriminate.
Qed.

Lemma split_char_loop_piece (c : char) (e : str) : forall cur rest,
  forallb (fun x => negb (x =? c)%N) e = true ->
  split_char_loop c (e ++ rest) cur = split_char_loop c rest (cur ++ e).
Proof.
  induction e as [|x e IH]; intros cur rest He.
  - now rewrite app_nil_r.
  - cbn in He. apply andb_prop in He as [Hx He]. apply negb_true_iff in Hx.
    cbn [app split_char_loop]. rewrite Hx, IH by exact He.
    now rewrite <- app_assoc.
Qed.

(** [split] undoes [join] when no element holds the separator. *)
Lemma split_char_join (c : char) (es : list str) :
  es <> [] ->
  Forall (fun e => forallb (fun x => negb (x =? c)%N) e = true) es ->
  split_char c (join [c] es) = es.
Proof.
  unfold split_char. induction es as [|e es IH]; [congruence|].
  intros _ Hall. inversion Hall as [|? ? He Hes]; subst.
  destruct es as [|e' es].
  - cbn [join]. rewrite <- (app_nil_r e) at 1.
    now rewrite split_char_loop_piece.
  - change (join [c] (e :: e' :: es)) with (e ++ [c] ++ join [c] (e' :: es)).
    rewrite split_char_loop_piece by exact He.
    cbn [app split_char_loop]. rewrite N.eqb_refl.
    now rewrite IH.
Qed.

Lemma join_nonempty (sep : str) (es : list str) :
  es <> [] -> Forall (fun e => e <> []) es -> join sep es <> [].
Proof.
  destruct es as [|e es]; [congruence|]. intros _ Hall.
  inversion Hall as [|? ? He _]; subst.
  destruct e as [|x e]; [congruence|].
  destruct es; cbn [join app]; discriminate.
Qed.

(** The footnote tags written for the footnotes [fs] *)
Lemma note_tags_of (fs : list (N * str)) :
  Forall (fun f => note_text_ok (snd f) = true) fs ->
  note_tags (bid_notes_of fs) = map note_tag fs.
Proof.
  intros Hfs. destruct fs as [|f fs]; [reflexivity|].
  unfold note_tags, bid_notes_of.
  set (es := map (fun f => note_entry (fst f) (snd f)) (f :: fs)).
  assert (Hne : es <> []) by discriminate.
  assert (Hjoin : join (py "|") es <> []).
  { apply join_nonempty; [exact Hne|].
    apply Forall_map, Forall_forall. intros x _. apply note_entry_nonempty. }
  destruct (join (py "|") es) as [|c s] eqn:E; [congruence|].
  rewrite <- E. change (py "|") with [124%N].
  rewrite split_char_join.
  - unfold es. now rewrite map_map.
  - exact Hne.
  - apply Forall_map. eapply Forall_impl; [exact Hfs|].
    intros x Hx. cbn beta. apply note_entry_no_bar.
    now apply note_text_ok_inv in Hx.
Qed.

Lemma parse_line_note (B : list board_rec) (cur : board_rec) (ia ic : bool)
    (T : str) (f : N * str) :
  numeral_ok (fst f) -> note_text_ok (snd f) = true ->
  parse_line (PState B (Some cur) ia ic T) (note_tag f)
  = Some (PState B (Some (add_notes cur [f])) false ic T).
Proof.
  intros Hn Hf. apply note_text_ok_inv in Hf as (Hne & Hnl & _).
  unfold note_tag.
  rewrite parse_line_tag;
    [|discriminate|reflexivity|now apply note_entry_not_newline].
  unfold parse_tag.
  replace (str_eqb (py "Note") (py "Event")) with false by reflexivity.
  cbn [p_current].
  replace (str_eqb (py "Note") (py "Auction")) with false by reflexivity.
  replace (str_eqb (py "Note") (py "Note")) with true by reflexivity.
  rewrite (note_match_entry (fst f) (snd f) Hn Hne Hnl).
  reflexivity.
Qed.

Lemma add_notes_app (cur : board_rec) (a b : list (N * str)) :
  add_notes (add_notes cur a) b = add_notes cur (a ++ b).
Proof.
  unfold add_notes. cbn. now rewrite fold_left_app, map_app, <- app_assoc.
Qed.

Lemma parse_lines_notes (fs : list (N * str)) : forall B cur ia T,
  Forall (fun f => numeral_ok (fst f)) fs ->
  Forall (fun f => note_text_ok (snd f) = true) fs ->
  exists ia',
    parse_lines (PState B (Some cur) ia false T) (map note_tag fs)
    = Some (PState B (Some (add_notes cur fs)) ia' false T).
Proof.
  induction fs as [|f fs IH]; intros B cur ia T Hnum Hall.
  - exists ia. unfold add_notes. cbn. rewrite app_nil_r. now destruct cur.
  - inversion Hall as [|? ? Hf Hfs]; subst.
    inversion Hnum as [|? ? Hn Hns]; subst.
    cbn [map parse_lines]. rewrite parse_line_note by assumption.
    destruct (IH B (add_notes cur [f]) false T Hns Hfs) as [ia' H].
    exists ia'. rewrite H. now rewrite add_notes_app.
Qed.

(** *** The commentary block *)

Lemma contains_suffix (p u : str) : contains p (u ++ p) = true.
Proof.
  induction u as [|c u IH]; cbn [app].
  - destruct p; cbn [contains]; [reflexivity|].
    rewrite <- (app_nil_r (_ :: _)) at 2. now rewrite startswith_app.
  - cbn [contains]. rewrite IH. apply orb_true_r.
Qed.

Lemma tag_match_other (c : char) (s : str) :
  c <> 91%N -> tag_match (c :: s) = None.
Proof.
  intros Hc. unfold tag_match, re_match, match_at, RULE_TAG. norm_lits.
  cbn [seq_of rmatch m_rest startswith].
  apply not_eq_sym, N.eqb_neq in Hc. now rewrite Hc.
Qed.

Lemma parse_line_block (B : list board_rec) (cur : option board_rec)
    (ia : bool) (T notes : str) :
  exists T',
    parse_line (PState B cur ia false T) (py "{ " ++ notes ++ py " }")
    = Some (PState B cur false false T').
Proof.
  norm_lits. cbn [app].
  assert (Ht : tight (123%N :: 32%N :: notes ++ [32; 125]%N) = true).
  { replace (123%N :: 32%N :: notes ++ [32; 125]%N)
      with (123%N :: (32%N :: notes ++ [32%N]) ++ [125%N])
      by (cbn [app]; now rewrite <- app_assoc).
    now apply tight_ends. }
  eexists. unfold parse_line. rewrite (tight_strip _ Ht).
  rewrite tag_match_other by discriminate.
  norm_lits. cbn [startswith N.eqb Pos.eqb andb drop skipn].
  replace (32%N :: notes ++ [32; 125]%N)
    with ((32%N :: notes ++ [32%N]) ++ [125%N])
    by (cbn [app]; now rewrite <- app_assoc).
  rewrite contains_suffix. reflexivity.
Qed.

Lemma parse_lines_block (B : list board_rec) (cur : option board_rec)
    (ia : bool) (T notes : str) :
  exists ia' T',
    parse_lines (PState B cur ia false T) (notes_block notes)
    = Some (PState B cur ia' false T').
Proof.
  destruct notes as [|c notes]; [now exists ia, T|].
  unfold notes_block.
  destruct (parse_line_block B cur ia T (c :: notes)) as [T' H].
  exists false, T'. cbn [parse_lines]. now rewrite H.
Qed.

(** ** A board, and a document *)

Lemma summaries_flush (st : pstate) :
  map summary (p_boards (flush st)) = summaries st.
Proof.
  unfold flush, summaries.
  destruct (p_current st) as [cur|]; [|now rewrite app_nil_r].
  destruct (commentary_text st); cbn [p_boards]; now rewrite map_app.
Qed.

Lemma get_one_line (board : gmap str str) (key dflt : str) :
  map_Forall (fun _ value => one_line value = true) board ->
  one_line dflt = true ->
  one_line (get board key dflt) = true.
Proof.
  intros H Hd. unfold get.
  destruct (board !! key) as [v|] eqn:E; [|exact Hd].
  exact (H key v E).
Qed.

Lemma get_not_newline (board : gmap str str) (key dflt : str) :
  map_Forall (fun _ value => one_line value = true) board ->
  one_line dflt = true ->
  forallb not_newline (get board key dflt) = true.
Proof. intros H Hd. now apply one_line_not_newline, get_one_line. Qed.

(** Reading the lines of one board: the boards before it stay, and the
    board read has the dealer, the auction-body lines and the footnotes
    that were written. *)
Lemma parse_lines_board (board : gmap str str) (row : row3)
    (fs : list (N * str)) (st : pstate) :
  row_ok board row fs ->
  exists st',
    parse_lines st (stage4_lines board row) = Some st'
    /\ summaries st'
       = summaries st
         ++ [(get board (py "Dealer") (py "N"),
              auction_body_lines (r_auction row), notes_map fs)]
    /\ in_commentary st' = false.
Proof.
  intros (Hbid & Hnum & Hfs & Hbody & Hdeal & Hnotes & Hget).
  unfold stage4_lines. rewrite Hbid, (note_tags_of fs Hfs).
  (* the Event tag *)
  rewrite parse_lines_app. cbn [parse_lines].
  rewrite parse_line_event by (now apply get_not_newline).
  (* the other tags before the auction *)
  rewrite parse_lines_app.
  match goal with
  | |- context [map (fun nv => tag_line (fst nv) (snd nv)) ?l] =>
      set (metas := l)
  end.
  assert (Hmetas : Forall (fun nv => meta_name_ok (fst nv) = true
                    /\ forallb not_newline (snd nv) = true) metas).
  { unfold metas.
    repeat (apply Forall_cons; split;
            [split; [reflexivity|cbn [snd]; first
               [reflexivity | now apply get_not_newline
               | now apply one_line_not_newline]]|]).
    constructor. }
  edestruct (parse_lines_meta metas) as (cur1 & Hp1 & Hs1); [exact Hmetas|].
  rewrite Hp1. clear Hp1.
  (* the Auction tag *)
  rewrite parse_lines_app. cbn [parse_lines].
  rewrite parse_line_auction by (now apply get_not_newline).
  (* the body of the auction *)
  rewrite parse_lines_app.
  set (cur2 := Board (meta_tags cur1) (get board (py "Dealer") (py "N"))
                     (auction_lines cur1) (b_notes cur1) (note_lines cur1)
                     (commentary cur1)).
  assert (Hbodyp : parse_lines
            (PState (p_boards (flush st)) (Some cur2) true false
                    (commentary_text (flush st)))
            (body_or_blank (auction_body_lines (r_auction row)))
          = Some (PState (p_boards (flush st))
                    (Some (add_body cur2 (auction_body_lines (r_auction row))))
                    true false (commentary_text (flush st)))).
  { pose proof (auction_body_lines_good (r_auction row)) as Hg.
    destruct (auction_body_lines (r_auction row)) as [|l ls] eqn:E.
    - cbn [body_or_blank parse_lines]. rewrite parse_line_blank.
      unfold add_body. rewrite app_nil_r. reflexivity.
    - now apply parse_lines_body. }
  rewrite Hbodyp. clear Hbodyp.
  (* the footnotes *)
  rewrite parse_lines_app.
  edestruct (parse_lines_notes fs) as (ia3 & Hp3); [exact Hnum|exact Hfs|].
  rewrite Hp3. clear Hp3.
  (* the deal-level notes and the blank line *)
  rewrite parse_lines_app.
  edestruct parse_lines_block as (ia4 & T4 & Hp4).
  rewrite Hp4. clear Hp4.
  cbn [parse_lines]. rewrite parse_line_blank.
  eexists. split; [reflexivity|]. split; [|reflexivity].
  unfold summaries at 1. cbn [p_boards p_current].
  rewrite summaries_flush. f_equal.
  unfold summary, add_notes, add_body, cur2. cbn.
  unfold summary in Hs1. cbn in Hs1. injection Hs1 as _ Hl Hn.
  rewrite Hl, Hn. reflexivity.
Qed.

Lemma tag_line_one_line (name value : str) :
  one_line name = true -> one_line value = true ->
  one_line (tag_line name value) = true.
Proof.
  unfold tag_line, one_line, QUOTE. intros Hn Hv. norm_lits.
  rewrite !forallb_app, Hn, Hv. reflexivity.
Qed.

Lemma note_entry_one_line (n : N) (t : str) :
  one_line t = true -> one_line (note_entry n t) = true.
Proof.
  apply note_entry_chars; [reflexivity|].
  intros c (H1 & H2 & _) _.
  apply N.eqb_neq in H1, H2. now rewrite H1, H2.
Qed.

Lemma stage4_lines_one_line (board : gmap str str) (row : row3)
    (fs : list (N * str)) :
  row_ok board row fs ->
  Forall (fun l => one_line l = true) (stage4_lines board row).
Proof.
  intros (Hbid & _ & Hfs & Hbody & Hdeal & Hnotes & Hget).
  unfold stage4_lines. rewrite Hbid, (note_tags_of fs Hfs).
  repeat apply Forall_app_2.
  - repeat constructor.
    apply tag_line_one_line; [reflexivity|now apply get_one_line].
  - cbn [map fst snd].
    repeat (apply Forall_cons; split;
            [apply tag_line_one_line;
             [reflexivity
             |first [reflexivity|now apply get_one_line|assumption]]|]).
    constructor.
  - repeat constructor.
    apply tag_line_one_line; [reflexivity|now apply get_one_line].
  - pose proof (auction_body_lines_good (r_auction row)) as Hg.
    destruct (auction_body_lines (r_auction row)) as [|l ls];
      [repeat constructor|].
    cbn [body_or_blank].
    eapply Forall_impl; [exact Hg|].
    intros x [_ Hx]. now apply inline_one_line.
  - apply Forall_map. eapply Forall_impl; [exact Hfs|].
    intros f Hf. cbn beta. unfold note_tag.
    apply tag_line_one_line; [reflexivity|]. apply note_entry_one_line.
    cbn beta in Hf. destruct (snd f) as [|c t]; [discriminate Hf|].
    unfold note_text_ok in Hf. now apply andb_prop in Hf as [Hf _].
  - destruct (r_notes row) as [|c t] eqn:E; [constructor|].
    unfold notes_block. repeat constructor.
    unfold one_line in *. norm_lits. rewrite !forallb_app, Hnotes. reflexivity.
  - repeat constructor.
Qed.

Lemma parse_lines_rows (boards : gmap str (gmap str str))
    (rows : list (row3 * list (N * str))) : forall st,
  rows_ok boards rows ->
  in_commentary st = false ->
  exists st',
    parse_lines st (concat (map (row_lines boards) (map fst rows))) = Some st'
    /\ summaries st' = summaries st ++ expected_summaries boards rows
    /\ in_commentary st' = false.
Proof.
  induction rows as [|[row fs] rows IH]; intros st Hok Hic.
  - exists st. cbn. now rewrite app_nil_r.
  - inversion Hok as [|? ? Hrow Hrows]; subst. cbn [fst snd] in Hrow.
    cbn [map concat fst expected_summaries]. rewrite parse_lines_app.
    unfold row_lines at 1.
    destruct (resolve boards row) as [board|] eqn:E.
    + destruct (parse_lines_board board row fs st (Hrow board eq_refl))
        as (st1 & -> & Hs1 & Hic1).
      destruct (IH st1 Hrows Hic1) as (st2 & Hp & Hs2 & Hic2).
      exists st2. split; [exact Hp|]. split; [|exact Hic2].
      rewrite Hs2, Hs1, <- app_assoc. reflexivity.
    + cbn [parse_lines]. now apply IH.
Qed.

Lemma stage4_unlines (boards : gmap str (gmap str str)) (rs : list row3) :
  stage4 boards rs
  = unlines (HEADER_LINES ++ concat (map (row_lines boards) rs)).
Proof.
  unfold stage4. rewrite unlines_app. f_equal.
  induction rs as [|r rs IH]; [reflexivity|].
  cbn [map concat]. rewrite unlines_app, <- IH. f_equal.
  unfold stage4_row, row_lines.
  destruct (resolve boards r); [apply stage4_writes_lines|reflexivity].
Qed.

Lemma rows_one_line (boards : gmap str (gmap str str))
    (rows : list (row3 * list (N * str))) :
  rows_ok boards rows ->
  Forall (fun l => one_line l = true)
    (concat (map (row_lines boards) (map fst rows))).
Proof.
  induction 1 as [|[row fs] rows Hrow Hrows IH]; [constructor|].
  cbn [map concat fst]. apply Forall_app_2; [|exact IH].
  unfold row_lines. cbn [fst snd] in Hrow.
  destruct (resolve boards row) as [board|]; [|constructor].
  now apply (stage4_lines_one_line board row fs), Hrow.
Qed.

(** *** C7 *)





(** ** Suit-symbol escaping: what a second run does *)

(** *** The character classes *)

Lemma is_suit_cases (X : char) :
  is_suit X = true -> X = 67%N \/ X = 68%N \/ X = 72%N \/ X = 83%N.
Proof.
  unfold is_suit, in_chars. norm_lits. cbn [existsb].
  intros H. repeat (apply orb_prop in H as [H|H]);
    try discriminate H; apply N.eqb_eq in H; auto 6.
Qed.

Lemma is_rank_cases (A : char) :
  is_rank A = true ->
  A = 75%N \/ A = 81%N \/ A = 65%N \/ A = 74%N \/ A = 84%N.
Proof.
  unfold is_rank, in_chars. norm_lits. cbn [existsb].
  intros H. repeat (apply orb_prop in H as [H|H]);
    try discriminate H; apply N.eqb_eq in H; auto 6.
Qed.

(** What is true of every suit letter *)
Lemma suit_facts (X : char) :
  is_suit X = true ->
  is_word X = true /\ is_digit X = false /\ is_rank X = false
  /\ is_count_char X = false /\ X <> 92%N /\ X <> 32%N /\ X <> 102%N.
Proof.
  intros H.
  destruct (is_suit_cases X H) as [-> | [-> | [-> | ->]]];
    repeat split; try reflexivity; discriminate.
Qed.

Lemma digit_count_char (d : char) : is_digit d = true -> is_count_char d = true.
Proof. intros H. unfold is_count_char. now rewrite H. Qed.

(** *** What the five patterns match *)

Lemma match_pair (P : char -> bool) (before : option char) (s : str) :
  match_at (RULE_PAIR P) before s
  = match s with
    | A :: X :: t =>
        if P A && is_suit X && at_boundary (Some X) t
        then Some (MState [X; A] before t [(2%nat, [X]); (1%nat, [A])])
        else None
    | _ => None
    end.
Proof.
  unfold match_at, RULE_PAIR.
  destruct s as [|A [|X t]]; cbn [seq_of rmatch m_rest m_consumed m_before
    m_groups m_prev length Nat.sub take firstn rev app]; [reflexivity|..].
  - now destruct (P A).
  - destruct (P A); [|reflexivity].
    destruct (is_suit X); [|reflexivity]. reflexivity.
Qed.

Lemma match_for (before : option char) (s : str) :
  match_at RULE_FOR before s
  = if startswith FOR_HEAD s then
      match drop 4 s with
      | X :: t =>
          if is_suit X && at_boundary (Some X) t
          then Some (MState [X; 32; 114; 111; 102]%N before t
                            [(2%nat, [X]); (1%nat, [102; 111; 114; 32]%N)])
          else None
      | [] => None
      end
    else None.
Proof.
  unfold match_at, RULE_FOR, FOR_HEAD. norm_lits.
  cbn [seq_of rmatch m_rest m_consumed m_before m_groups].
  destruct (startswith [102; 111; 114; 32]%N s) eqn:E; [|reflexivity].
  apply startswith_inv in E as [t ->].
  cbn [app length drop skipn rev m_rest m_consumed m_before m_groups].
  destruct t as [|X t]; [reflexivity|].
  cbn [m_prev m_consumed length Nat.sub take firstn rev app drop skipn].
  destruct (is_suit X); [|reflexivity]. reflexivity.
Qed.

Lemma match_keycard (before : option char) (s : str) :
  match_at RULE_KEYCARD before s
  = if at_boundary before s then
      match s with
      | X :: s1 =>
          if is_suit X && startswith KEYCARD_TAIL s1
          then Some (MState [100; 114; 97; 99; 121; 101; 107; 32; X]%N before
                            (drop 8 s1)
                            [(2%nat, [107; 101; 121; 99; 97; 114; 100]%N);
                             (1%nat, [X])])
          else None
      | [] => None
      end
    else None.
Proof.
  unfold match_at, RULE_KEYCARD, KEYCARD_TAIL. norm_lits.
  cbn [seq_of rmatch m_rest m_consumed m_before m_groups m_prev].
  destruct (at_boundary before s); [|reflexivity].
  destruct s as [|X s1]; [reflexivity|].
  destruct (is_suit X); [|reflexivity].
  cbn [m_rest m_consumed m_before m_groups andb].
  destruct s1 as [|c s2]; [reflexivity|].
  cbn [startswith length drop skipn].
  destruct (32 =? c)%N; cbn [andb]; [|reflexivity].
  destruct (startswith [107; 101; 121; 99; 97; 114; 100]%N s2); reflexivity.
Qed.

(** A greedy repetition whose continuation fails in front of every
    character of the class stops where the run of the class ends. *)
Lemma star_loop_max (p : char -> bool) (k : mstate -> option mstate) :
  (forall consumed before groups c rest,
     p c = true -> k (MState consumed before (c :: rest) groups) = None) ->
  forall run rest consumed before groups,
    forallb p run = true ->
    match rest with [] => True | c :: _ => p c = false end ->
    star_loop p k consumed before groups (run ++ rest)
    = k (MState (rev run ++ consumed) before rest groups).
Proof.
  intros Hk run. induction run as [|x run IH];
    intros rest consumed before groups Hrun Hrest.
  - destruct rest as [|c rest]; [reflexivity|].
    cbn [app rev star_loop]. now rewrite Hrest.
  - cbn in Hrun. apply andb_prop in Hrun as [Hx Hrun].
    cbn [app star_loop]. rewrite Hx, IH by assumption.
    cbn [rev]. rewrite <- app_assoc. cbn [app].
    match goal with
    | |- match ?e with _ => _ end = _ => destruct e eqn:E
    end; [reflexivity|].
    now apply Hk.
Qed.

(** Every text is a run of a class and a rest that does not start with a
    character of the class. *)
Lemma span_exists (p : char -> bool) (s : str) :
  exists run rest,
    s = run ++ rest /\ forallb p run = true
    /\ match rest with [] => True | c :: _ => p c = false end.
Proof.
  induction s as [|c s (run & rest & -> & Hrun & Hrest)].
  - now exists [], [].
  - destruct (p c) eqn:E.
    + exists (c :: run), rest. cbn. now rewrite E.
    + now exists [], (c :: run ++ rest).
Qed.

Lemma is_count_char_space : is_count_char 32 = false.
Proof. reflexivity. Qed.

Lemma match_count (before : option char) (d : char) (run rest : str) :
  forallb is_count_char run = true ->
  match rest with [] => True | c :: _ => is_count_char c = false end ->
  match_at RULE_COUNT before (d :: run ++ rest)
  = if is_digit d && count_tail rest then
      match rest with
      | _ :: X :: t =>
          Some (MState (X :: 32%N :: rev run ++ [d]) before t
                       [(2%nat, [X]); (1%nat, d :: run)])
      | _ => None
      end
    else None.
Proof.
  intros Hrun Hrest.
  unfold match_at, RULE_COUNT, count_tail. norm_lits.
  cbn [seq_of rmatch m_rest m_consumed m_before m_groups].
  destruct (is_digit d); [|reflexivity].
  rewrite star_loop_max; [| |exact Hrun|exact Hrest].
  2:{ intros consumed b groups c rest' Hc.
      cbn [rmatch m_rest m_consumed m_before m_groups startswith].
      destruct (N.eqb_spec 32 c) as [<-|]; [|reflexivity].
      now rewrite is_count_char_space in Hc. }
  cbn [rmatch m_rest m_consumed m_before m_groups length andb].
  rewrite Nat.sub_0_r, firstn_all, rev_app_distr, rev_involutive.
  cbn [rev app].
  destruct rest as [|c0 rest]; [reflexivity|].
  cbn [startswith]. destruct (32 =? c0)%N eqn:E0; cbn [andb];
    [|now destruct rest].
  destruct rest as [|X t]; [reflexivity|].
  cbn [length drop skipn m_rest m_consumed m_before m_groups rev app].
  destruct (is_suit X); cbn [andb]; [|reflexivity].
  cbn [m_prev m_rest m_consumed m_before m_groups].
  destruct (at_boundary (Some X) t); [|reflexivity].
  match goal with
  | |- context [take ?n _] => replace n with 1%nat by (cbn [length]; lia)
  end.
  reflexivity.
Qed.

(** *** The substitution loop *)

Lemma sub_miss (r : regex) (repl : mstate -> str) (before : option char)
    (c : char) (s : str) :
  match_at r before (c :: s) = None ->
  sub_loop r repl before 0 (c :: s) = c :: sub_loop r repl (Some c) 0 s.
Proof. intros H. cbn [sub_loop]. now rewrite H. Qed.

Lemma last_or_cons (before : option char) (c : char) (u : str) :
  last_or before (c :: u) = last_or (Some c) u.
Proof.
  unfold last_or. destruct u as [|x u]; [reflexivity|].
  change (last (c :: x :: u)) with (last (x :: u)).
  destruct (last (x :: u)) eqn:E; [reflexivity|].
  apply last_None in E. discriminate E.
Qed.

Lemma last_or_app (w : str) : forall before c u,
  last_or before (w ++ c :: u) = last_or (Some c) u.
Proof.
  induction w as [|x w IH]; intros before c u; cbn [app].
  - apply last_or_cons.
  - rewrite last_or_cons. apply IH.
Qed.

Lemma sub_skip (r : regex) (repl : mstate -> str) (u : str) :
  forall before t,
  sub_loop r repl before (length u) (u ++ t)
  = sub_loop r repl (last_or before u) 0 t.
Proof.
  induction u as [|c u IH]; intros before t; [reflexivity|].
  cbn [length app sub_loop]. rewrite IH. now rewrite last_or_cons.
Qed.

Lemma sub_hit (r : regex) (repl : mstate -> str) (before : option char)
    (c : char) (w t : str) (m : mstate) :
  match_at r before (c :: w ++ t) = Some m ->
  length (m_consumed m) = S (length w) ->
  sub_loop r repl before 0 (c :: w ++ t)
  = repl m ++ sub_loop r repl (last_or (Some c) w) 0 t.
Proof.
  intros Hm Hlen. cbn [sub_loop]. rewrite Hm, Hlen. now rewrite sub_skip.
Qed.

(** Where the pattern matches nowhere the substitution changes nothing. *)
Lemma sub_free (r : regex) (repl : mstate -> str) (s : str) :
  forall before, free r before s -> sub_loop r repl before 0 s = s.
Proof.
  induction s as [|c s IH]; intros before H; [reflexivity|].
  destruct H as [Hm Hf]. rewrite sub_miss by exact Hm. now rewrite IH.
Qed.

Lemma sub_head (r : regex) (repl : mstate -> str) (before : option char)
    (s : str) :
  keeps_head r repl -> head (sub_loop r repl before 0 s) = head s.
Proof.
  intros Hk. destruct s as [|c s]; [reflexivity|].
  cbn [sub_loop].
  destruct (match_at r before (c :: s)) as [m|] eqn:E; [|reflexivity].
  destruct (Hk _ _ _ _ E) as (n & out & -> & ->). reflexivity.
Qed.

(** *** Inserted backslashes *)

Lemma ins_prefix (G : char -> bool) (w : str) : forall before s y y',
  Ins G before s y ->
  y = w ++ y' ->
  Forall (fun c => c <> 92%N) w ->
  exists s', s = w ++ s' /\ Ins G (last_or before w) s' y'.
Proof.
  induction w as [|c w IH]; intros before s y y' HI Hy Hw.
  - exists s. cbn in Hy. subst y'. split; [reflexivity|exact HI].
  - inversion Hw as [|? ? Hc Hw']; subst. cbn [app] in HI.
    inversion HI as [b0 | b0 c0 s0 y0 HI0 | a X s0 y0 Ha HX HI0]; subst.
    + destruct (IH (Some c) s0 (w ++ y') y' HI0 eq_refl Hw') as (s' & -> & HI').
      exists s'. split; [reflexivity|]. now rewrite last_or_cons.
    + congruence.
Qed.

Lemma ins_head (G : char -> bool) (X : char) (s y : str) :
  Ins G (Some X) s y -> G X = false -> head y = head s.
Proof.
  intros HI HG. inversion HI; subst; try reflexivity. congruence.
Qed.

Lemma ins_boundary (G : char -> bool) (X : char) (s y : str) :
  Ins G (Some X) s y -> G X = false ->
  at_boundary (Some X) y = at_boundary (Some X) s.
Proof.
  intros HI HG. unfold at_boundary. now rewrite (ins_head G X s y HI HG).
Qed.

(** Backslashes put in where nothing matched leave it so, for a pattern
    that matches no text starting with a backslash, whose matches can be
    read off the text without the backslashes, and that does not match at
    an escaped suit letter. *)
Section free_preserved.
Variable r : regex.
Variable G : char -> bool.
Hypothesis no_backslash : forall before s, match_at r before (92%N :: s) = None.
Hypothesis transfer : forall before s y,
  Ins G before s y -> match_at r before s = None -> match_at r before y = None.
Hypothesis at_escaped : forall a X s y,
  G a = true -> is_suit X = true -> Ins G (Some X) s y ->
  match_at r (Some a) (X :: s) = None ->
  match_at r (Some 92%N) (X :: y) = None.

Lemma free_ins (before : option char) (s y : str) :
  Ins G before s y -> free r before s -> free r before y.
Proof.
  induction 1 as [before | before c s y HI IH | a X s y Ha HX HI IH];
    intros Hf.
  - exact I.
  - destruct Hf as [Hm Hf]. split; [|now apply IH].
    apply (transfer before (c :: s)); [now constructor|exact Hm].
  - destruct Hf as [Hm Hf]. cbn [free].
    split; [apply no_backslash|].
    split; [now apply (at_escaped a X s y)|now apply IH].
Qed.
End free_preserved.

(** *** The card rule and the bid rule *)

Section pair_rule.
Variable P : char -> bool.
Hypothesis P_backslash : P 92%N = false.
Hypothesis P_suit : forall X, is_suit X = true -> P X = false.

Lemma pair_no_backslash (before : option char) (s : str) :
  match_at (RULE_PAIR P) before (92%N :: s) = None.
Proof. rewrite match_pair. destruct s; [reflexivity|]. now rewrite P_backslash. Qed.

Lemma pair_no_suit (before : option char) (X : char) (s : str) :
  is_suit X = true -> match_at (RULE_PAIR P) before (X :: s) = None.
Proof.
  intros HX. rewrite match_pair. destruct s; [reflexivity|].
  now rewrite (P_suit X HX).
Qed.

Lemma pair_transfer (G : char -> bool) (before : option char) (s y : str) :
  (forall X, is_suit X = true -> G X = false) ->
  Ins G before s y ->
  match_at (RULE_PAIR P) before s = None ->
  match_at (RULE_PAIR P) before y = None.
Proof.
  intros HG HI Hs. rewrite match_pair in *.
  destruct y as [|A [|X t]]; [reflexivity..|].
  destruct (P A) eqn:HA; [|reflexivity].
  destruct (is_suit X) eqn:HX; [|reflexivity].
  destruct (at_boundary (Some X) t) eqn:Hb; [|reflexivity].
  exfalso.
  destruct (ins_prefix G [A; X] before s (A :: X :: t) t HI eq_refl)
    as (s' & -> & HI').
  { repeat constructor.
    - intros ->. congruence.
    - intros ->. discriminate HX. }
  change (last_or before [A; X]) with (Some X) in HI'.
  cbn [app] in Hs.
  rewrite HA, HX, <- (ins_boundary G X s' t HI' (HG X HX)), Hb in Hs.
  discriminate Hs.
Qed.

Lemma pair_hit (before : option char) (A X : char) (t : str) :
  P A = true -> is_suit X = true -> at_boundary (Some X) t = true ->
  sub_loop (RULE_PAIR P) repl_pair before 0 (A :: X :: t)
  = A :: 92%N :: X :: sub_loop (RULE_PAIR P) repl_pair (Some X) 0 t.
Proof.
  intros HA HX Hb. cbn [sub_loop]. rewrite match_pair, HA, HX, Hb.
  reflexivity.
Qed.

(** The substitution of a pair rule puts backslashes in, each after a
    character of [P]; what it returns has no match left. *)
Lemma pair_ins_free_len (n : nat) : forall before s,
  (length s <= n)%nat ->
  Ins P before s (sub_loop (RULE_PAIR P) repl_pair before 0 s)
  /\ free (RULE_PAIR P) before (sub_loop (RULE_PAIR P) repl_pair before 0 s).
Proof.
  induction n as [|n IH]; intros before s Hlen.
  - destruct s; [|simpl in Hlen; lia]. split; [constructor|exact I].
  - destruct s as [|c s]; [split; [constructor|exact I]|].
    simpl in Hlen.
    destruct (match_at (RULE_PAIR P) before (c :: s)) as [m|] eqn:E.
    + rewrite match_pair in E.
      destruct s as [|X t]; [discriminate E|].
      destruct (P c) eqn:HA; [|discriminate E].
      destruct (is_suit X) eqn:HX; [|discriminate E].
      destruct (at_boundary (Some X) t) eqn:Hb; [|discriminate E].
      rewrite pair_hit by assumption.
      destruct (IH (Some X) t) as [HI Hf]; [simpl in Hlen; lia|].
      split.
      * apply Ins_copy. now apply Ins_esc.
      * cbn [free]. repeat split.
        -- rewrite match_pair.
           replace (is_suit 92) with false by reflexivity.
           now rewrite andb_false_r.
        -- apply pair_no_backslash.
        -- now apply pair_no_suit.
        -- exact Hf.
    + rewrite sub_miss by exact E.
      destruct (IH (Some c) s) as [HI Hf]; [lia|].
      split; [now constructor|].
      split; [|exact Hf].
      apply (pair_transfer P before (c :: s)); [exact P_suit| |exact E].
      now constructor.
Qed.

Lemma pair_ins (before : option char) (s : str) :
  Ins P before s (sub_loop (RULE_PAIR P) repl_pair before 0 s).
Proof. now apply (pair_ins_free_len (length s)). Qed.

Lemma pair_own_free (before : option char) (s : str) :
  free (RULE_PAIR P) before (sub_loop (RULE_PAIR P) repl_pair before 0 s).
Proof. now apply (pair_ins_free_len (length s)). Qed.

(** Backslashes put in after characters that are no suit letters leave
    a text without match of a pair rule so. *)
Lemma pair_free_ins (G : char -> bool) (before : option char) (s y : str) :
  (forall X, is_suit X = true -> G X = false) ->
  Ins G before s y ->
  free (RULE_PAIR P) before s -> free (RULE_PAIR P) before y.
Proof.
  intros HG. apply free_ins.
  - apply pair_no_backslash.
  - intros b s0 y0. now apply pair_transfer.
  - intros a X s0 y0 _ HX _ _. now apply pair_no_suit.
Qed.
End pair_rule.

(** *** The for rule *)

Lemma for_first (before : option char) (c : char) (s : str) :
  c <> 102%N -> match_at RULE_FOR before (c :: s) = None.
Proof.
  intros Hc. rewrite match_for. unfold FOR_HEAD. cbn [startswith].
  destruct (N.eqb_spec 102 c) as [E|E]; [congruence|reflexivity].
Qed.

Lemma for_no_backslash (before : option char) (s : str) :
  match_at RULE_FOR before (92%N :: s) = None.
Proof. now apply for_first. Qed.

Lemma for_no_suit (before : option char) (X : char) (s : str) :
  is_suit X = true -> match_at RULE_FOR before (X :: s) = None.
Proof. intros HX. apply for_first. now apply suit_facts in HX. Qed.

Lemma match_for_some (before : option char) (s : str) (m : mstate) :
  match_at RULE_FOR before s = Some m ->
  exists X t, s = FOR_HEAD ++ X :: t /\ is_suit X = true
              /\ at_boundary (Some X) t = true.
Proof.
  rewrite match_for. intros H.
  destruct (startswith FOR_HEAD s) eqn:E; [|discriminate H].
  apply startswith_inv in E as [t ->].
  change (drop 4 (FOR_HEAD ++ t)) with t in H.
  destruct t as [|X t]; [discriminate H|].
  destruct (is_suit X) eqn:HX; [|discriminate H].
  destruct (at_boundary (Some X) t) eqn:Hb; [|discriminate H].
  now exists X, t.
Qed.

Lemma match_for_hit (before : option char) (X : char) (t : str) :
  is_suit X = true -> at_boundary (Some X) t = true ->
  match_at RULE_FOR before (FOR_HEAD ++ X :: t)
  = Some (MState [X; 32; 114; 111; 102]%N before t
                 [(2%nat, [X]); (1%nat, [102; 111; 114; 32]%N)]).
Proof.
  intros HX Hb. rewrite match_for, startswith_app.
  change (drop 4 (FOR_HEAD ++ X :: t)) with (X :: t). cbv beta iota.
  now rewrite HX, Hb.
Qed.

Lemma for_transfer (G : char -> bool) (before : option char) (s y : str) :
  (forall X, is_suit X = true -> G X = false) ->
  Ins G before s y ->
  match_at RULE_FOR before s = None ->
  match_at RULE_FOR before y = None.
Proof.
  intros HG HI Hs.
  destruct (match_at RULE_FOR before y) as [m|] eqn:E; [|reflexivity].
  exfalso. apply match_for_some in E as (X & t & -> & HX & Hb).
  destruct (ins_prefix G (FOR_HEAD ++ [X]) before s (FOR_HEAD ++ X :: t) t HI
              eq_refl) as (s' & -> & HI').
  { unfold FOR_HEAD. repeat constructor; try discriminate.
    intros ->. discriminate HX. }
  change (last_or before (FOR_HEAD ++ [X])) with (Some X) in HI'.
  change ((FOR_HEAD ++ [X]) ++ s') with (FOR_HEAD ++ X :: s') in Hs.
  rewrite match_for_hit in Hs; [discriminate Hs|exact HX|].
  now rewrite <- (ins_boundary G X s' t HI' (HG X HX)).
Qed.

Lemma for_hit (before : option char) (X : char) (t : str) :
  is_suit X = true -> at_boundary (Some X) t = true ->
  sub_loop RULE_FOR repl_pair before 0 (FOR_HEAD ++ X :: t)
  = FOR_HEAD ++ 92%N :: X :: sub_loop RULE_FOR repl_pair (Some X) 0 t.
Proof.
  intros HX Hb.
  change (FOR_HEAD ++ X :: t) with (102%N :: [111; 114; 32; X]%N ++ t) at 1.
  erewrite sub_hit; [|now apply match_for_hit|reflexivity].
  reflexivity.
Qed.

Lemma space_not_suit (X : char) : is_suit X = true -> is_space_char X = false.
Proof.
  intros HX. apply suit_facts in HX as (_ & _ & _ & _ & _ & HX & _).
  unfold is_space_char. now apply N.eqb_neq.
Qed.

(** The substitution of the for rule puts backslashes in, each after a
    space; what it returns has no match left. *)
Lemma for_ins_free_len (n : nat) : forall before s,
  (length s <= n)%nat ->
  Ins is_space_char before s (sub_loop RULE_FOR repl_pair before 0 s)
  /\ free RULE_FOR before (sub_loop RULE_FOR repl_pair before 0 s).
Proof.
  induction n as [|n IH]; intros before s Hlen.
  - destruct s; [|simpl in Hlen; lia]. split; [constructor|exact I].
  - destruct s as [|c s]; [split; [constructor|exact I]|].
    simpl in Hlen.
    destruct (match_at RULE_FOR before (c :: s)) as [m|] eqn:E.
    + apply match_for_some in E as (X & t & E & HX & Hb).
      rewrite E, for_hit by assumption.
      injection E as -> ->. cbn [length] in Hlen.
      destruct (IH (Some X) t) as [HI Hf]; [lia|].
      split.
      * unfold FOR_HEAD. cbn [app]. do 4 apply Ins_copy.
        now apply Ins_esc.
      * unfold FOR_HEAD. cbn [app free].
        split; [now rewrite match_for|].
        split; [now apply for_first|].
        split; [now apply for_first|].
        split; [now apply for_first|].
        split; [now apply for_no_backslash|].
        split; [now apply for_no_suit|exact Hf].
    + rewrite sub_miss by exact E.
      destruct (IH (Some c) s) as [HI Hf]; [lia|].
      split; [now constructor|].
      split; [|exact Hf].
      apply (for_transfer is_space_char before (c :: s));
        [exact space_not_suit| |exact E].
      now constructor.
Qed.

Lemma for_ins (before : option char) (s : str) :
  Ins is_space_char before s (sub_loop RULE_FOR repl_pair before 0 s).
Proof. now apply (for_ins_free_len (length s)). Qed.

Lemma for_own_free (before : option char) (s : str) :
  free RULE_FOR before (sub_loop RULE_FOR repl_pair before 0 s).
Proof. now apply (for_ins_free_len (length s)). Qed.

(** *** The keycard rule *)

Lemma match_keycard_some (before : option char) (s : str) (m : mstate) :
  match_at RULE_KEYCARD before s = Some m ->
  exists X t, s = X :: KEYCARD_TAIL ++ t /\ is_suit X = true
              /\ at_boundary before s = true.
Proof.
  rewrite match_keycard. intros H.
  destruct (at_boundary before s) eqn:Hb; [|discriminate H].
  destruct s as [|X s1]; [discriminate H|].
  destruct (is_suit X) eqn:HX; [|discriminate H].
  destruct (startswith KEYCARD_TAIL s1) eqn:E; [|discriminate H].
  apply startswith_inv in E as [t ->]. now exists X, t.
Qed.

Lemma match_keycard_hit (before : option char) (X : char) (t : str) :
  is_suit X = true -> at_boundary before (X :: KEYCARD_TAIL ++ t) = true ->
  match_at RULE_KEYCARD before (X :: KEYCARD_TAIL ++ t)
  = Some (MState [100; 114; 97; 99; 121; 101; 107; 32; X]%N before t
                 [(2%nat, [107; 101; 121; 99; 97; 114; 100]%N);
                  (1%nat, [X])]).
Proof.
  intros HX Hb. rewrite match_keycard, Hb, HX, startswith_app.
  reflexivity.
Qed.

Lemma keycard_no_backslash (before : option char) (s : str) :
  match_at RULE_KEYCARD before (92%N :: s) = None.
Proof.
  rewrite match_keycard. now destruct (at_boundary before (92%N :: s)).
Qed.

Lemma keycard_tail_plain : Forall (fun c => c <> 92%N) KEYCARD_TAIL.
Proof. unfold KEYCARD_TAIL. repeat constructor; discriminate. Qed.

Lemma keycard_transfer (G : char -> bool) (before : option char)
    (s y : str) :
  Ins G before s y ->
  match_at RULE_KEYCARD before s = None ->
  match_at RULE_KEYCARD before y = None.
Proof.
  intros HI Hs.
  destruct (match_at RULE_KEYCARD before y) as [m|] eqn:E; [|reflexivity].
  exfalso. apply match_keycard_some in E as (X & t & -> & HX & Hb).
  destruct (ins_prefix G (X :: KEYCARD_TAIL) before s
              (X :: KEYCARD_TAIL ++ t) t HI eq_refl) as (s' & -> & HI').
  { constructor; [|exact keycard_tail_plain]. intros ->. discriminate HX. }
  cbn [app] in Hs. rewrite match_keycard_hit in Hs;
    [discriminate Hs|exact HX|exact Hb].
Qed.

Lemma keycard_at_escaped (G : char -> bool) (a X : char) (s y : str) :
  is_word a = false -> is_suit X = true -> Ins G (Some X) s y ->
  match_at RULE_KEYCARD (Some a) (X :: s) = None ->
  match_at RULE_KEYCARD (Some 92%N) (X :: y) = None.
Proof.
  intros Ha HX HI Hs.
  destruct (match_at RULE_KEYCARD (Some 92%N) (X :: y)) as [m|] eqn:E;
    [|reflexivity].
  exfalso. apply match_keycard_some in E as (X' & t & E & _ & _).
  injection E as <- ->.
  destruct (ins_prefix G KEYCARD_TAIL (Some X) s (KEYCARD_TAIL ++ t) t HI
              eq_refl keycard_tail_plain) as (s' & -> & HI').
  rewrite match_keycard_hit in Hs; [discriminate Hs|exact HX|].
  unfold at_boundary. cbn [is_word_opt head]. rewrite Ha.
  apply suit_facts in HX as (-> & _). reflexivity.
Qed.

(** Backslashes put in after characters that are no word characters
    leave a text without match of the keycard rule so. *)
Lemma keycard_free_ins (G : char -> bool) (before : option char)
    (s y : str) :
  (forall a, G a = true -> is_word a = false) ->
  Ins G before s y ->
  free RULE_KEYCARD before s -> free RULE_KEYCARD before y.
Proof.
  intros HG. apply free_ins.
  - apply keycard_no_backslash.
  - apply keycard_transfer.
  - intros a X s0 y0 Ha. apply keycard_at_escaped. now apply HG.
Qed.

Lemma keycard_hit (before : option char) (X : char) (t : str) :
  is_suit X = true -> at_boundary before (X :: KEYCARD_TAIL ++ t) = true ->
  sub_loop RULE_KEYCARD repl_keycard before 0 (X :: KEYCARD_TAIL ++ t)
  = 92%N :: X :: KEYCARD_TAIL
    ++ sub_loop RULE_KEYCARD repl_keycard (Some 100%N) 0 t.
Proof.
  intros HX Hb.
  erewrite sub_hit; [|now apply match_keycard_hit|reflexivity].
  reflexivity.
Qed.

(** A text that the keycard rule returns as it is has no match of it. *)
Lemma keycard_fixed_free (s : str) : forall before,
  sub_loop RULE_KEYCARD repl_keycard before 0 s = s ->
  free RULE_KEYCARD before s.
Proof.
  induction s as [|c s IH]; intros before H; [exact I|].
  destruct (match_at RULE_KEYCARD before (c :: s)) as [m|] eqn:E.
  - exfalso. apply match_keycard_some in E as (X & t & E & HX & Hb).
    rewrite E in H, Hb. rewrite keycard_hit in H by assumption.
    injection H as H _. subst X. discriminate HX.
  - rewrite sub_miss in H by exact E. injection H as H.
    split; [exact E|now apply IH].
Qed.

(** *** The count rule *)

Lemma count_no_digit (before : option char) (c : char) (s : str) :
  is_digit c = false -> match_at RULE_COUNT before (c :: s) = None.
Proof.
  intros Hc.
  destruct (span_exists is_count_char s) as (run & rest & -> & Hrun & Hrest).
  rewrite match_count by assumption. now rewrite Hc.
Qed.

Lemma count_no_backslash (before : option char) (s : str) :
  match_at RULE_COUNT before (92%N :: s) = None.
Proof. now apply count_no_digit. Qed.

Lemma count_no_suit (before : option char) (X : char) (s : str) :
  is_suit X = true -> match_at RULE_COUNT before (X :: s) = None.
Proof. intros HX. apply count_no_digit. now apply suit_facts in HX. Qed.

Lemma count_tail_true (rest : str) :
  count_tail rest = true ->
  exists X t, rest = 32%N :: X :: t /\ is_suit X = true
              /\ at_boundary (Some X) t = true.
Proof.
  destruct rest as [|c0 [|X t]]; try discriminate. cbn [count_tail].
  intros H. apply andb_prop in H as [H Hb]. apply andb_prop in H as [Hc HX].
  apply N.eqb_eq in Hc. subst c0. now exists X, t.
Qed.

Lemma match_count_some (before : option char) (s : str) (m : mstate) :
  match_at RULE_COUNT before s = Some m ->
  exists d run X t,
    s = d :: run ++ 32%N :: X :: t /\ is_digit d = true
    /\ forallb is_count_char run = true /\ is_suit X = true
    /\ at_boundary (Some X) t = true
    /\ m = MState (X :: 32%N :: rev run ++ [d]) before t
                  [(2%nat, [X]); (1%nat, d :: run)].
Proof.
  intros H. destruct s as [|d s].
  - unfold match_at, RULE_COUNT in H. cbn [seq_of rmatch m_rest] in H.
    discriminate H.
  - destruct (span_exists is_count_char s) as (run & rest & -> & Hrun & Hrest).
    rewrite match_count in H by assumption.
    destruct (is_digit d) eqn:Hd; [|discriminate H].
    destruct (count_tail rest) eqn:Ht; [|discriminate H].
    apply count_tail_true in Ht as (X & t & -> & HX & Hb).
    cbn [andb] in H. injection H as <-. now exists d, run, X, t.
Qed.

Lemma match_count_hit (before : option char) (d : char) (run : str)
    (X : char) (t : str) :
  is_digit d = true -> forallb is_count_char run = true ->
  is_suit X = true -> at_boundary (Some X) t = true ->
  match_at RULE_COUNT before (d :: run ++ 32%N :: X :: t)
  = Some (MState (X :: 32%N :: rev run ++ [d]) before t
                 [(2%nat, [X]); (1%nat, d :: run)]).
Proof.
  intros Hd Hrun HX Hb.
  rewrite match_count; [|exact Hrun|exact is_count_char_space].
  cbn [count_tail]. now rewrite Hd, HX, Hb.
Qed.

(** Whether the count rule matches does not depend on the character in
    front of the position. *)
Lemma count_before (before before' : option char) (s : str) :
  match_at RULE_COUNT before s = None ->
  match_at RULE_COUNT before' s = None.
Proof.
  intros H.
  destruct (match_at RULE_COUNT before' s) as [m|] eqn:E; [|reflexivity].
  apply match_count_some in E as (d & run & X & t & -> & Hd & Hrun & HX & Hb & _).
  rewrite match_count_hit in H by assumption. discriminate H.
Qed.

Lemma count_free_before (before before' : option char) (s : str) :
  free RULE_COUNT before s -> free RULE_COUNT before' s.
Proof.
  destruct s as [|c s]; [trivial|]. intros [Hm Hf].
  split; [exact (count_before before before' _ Hm)|exact Hf].
Qed.

Lemma count_keeps_head : keeps_head RULE_COUNT repl_count.
Proof.
  intros before c s m H.
  apply match_count_some in H as (d & run & X & t & E & _ & _ & _ & _ & ->).
  injection E as -> ->.
  eexists _, _. split; reflexivity.
Qed.

Lemma count_hit (before : option char) (d : char) (run : str) (X : char)
    (t : str) :
  is_digit d = true -> forallb is_count_char run = true ->
  is_suit X = true -> at_boundary (Some X) t = true ->
  sub_loop RULE_COUNT repl_count before 0 (d :: run ++ 32%N :: X :: t)
  = d :: run ++ 92%N :: X :: 115%N
    :: sub_loop RULE_COUNT repl_count (Some X) 0 t.
Proof.
  intros Hd Hrun HX Hb.
  replace (d :: run ++ 32%N :: X :: t)
    with (d :: (run ++ [32%N; X]) ++ t) by now rewrite <- app_assoc.
  erewrite sub_hit.
  2:{ rewrite <- app_assoc. now apply match_count_hit. }
  2:{ cbn [m_consumed length]. rewrite !length_app, length_rev.
      cbn [length]. lia. }
  rewrite last_or_app.
  unfold repl_count, group. cbn [m_groups lookup_group Nat.eqb].
  norm_lits. unfold BACKSLASH. cbn [app]. rewrite <- app_assoc. reflexivity.
Qed.

(** The tail test of the count rule reads the same in front of a text
    and in front of what the substitution makes of it. *)
Lemma count_tail_sub (before : option char) (rest : str) :
  match rest with [] => True | c :: _ => is_digit c = false end ->
  count_tail (sub_loop RULE_COUNT repl_count before 0 rest) = count_tail rest.
Proof.
  destruct rest as [|c0 rest1]; [reflexivity|]. intros Hc0.
  rewrite sub_miss by now apply count_no_digit.
  destruct rest1 as [|X t]; [reflexivity|].
  destruct (is_suit X) eqn:HX.
  - rewrite sub_miss by now apply count_no_suit.
    cbn [count_tail]. rewrite HX. f_equal.
    unfold at_boundary. now rewrite (sub_head _ _ _ _ count_keeps_head).
  - pose proof (sub_head RULE_COUNT repl_count (Some c0) (X :: t)
                  count_keeps_head) as Hh.
    destruct (sub_loop RULE_COUNT repl_count (Some c0) 0 (X :: t))
      as [|X' t']; [discriminate Hh|].
    injection Hh as ->. cbn [count_tail]. now rewrite HX, andb_false_r.
Qed.

(** In front of a tail that fails the test, the substitution copies the
    run of digits and signs. *)
Lemma count_copy_run (run : str) : forall before rest,
  forallb is_count_char run = true ->
  match rest with [] => True | c :: _ => is_count_char c = false end ->
  count_tail rest = false ->
  sub_loop RULE_COUNT repl_count before 0 (run ++ rest)
  = run ++ sub_loop RULE_COUNT repl_count (last_or before run) 0 rest.
Proof.
  induction run as [|x run IH]; intros before rest Hrun Hrest Ht;
    [reflexivity|].
  cbn in Hrun. apply andb_prop in Hrun as [Hx Hrun].
  cbn [app]. rewrite sub_miss.
  - rewrite IH by assumption. now rewrite last_or_cons.
  - rewrite match_count by assumption. now rewrite Ht, andb_false_r.
Qed.

Lemma count_window_free (run : str) : forall before rest,
  forallb is_count_char run = true ->
  match rest with [] => True | c :: _ => is_count_char c = false end ->
  count_tail rest = false ->
  free RULE_COUNT (last_or before run) rest ->
  free RULE_COUNT before (run ++ rest).
Proof.
  induction run as [|x run IH]; intros before rest Hrun Hrest Ht Hf;
    [exact Hf|].
  cbn in Hrun. apply andb_prop in Hrun as [Hx Hrun].
  cbn [app free]. split.
  - rewrite match_count by assumption. now rewrite Ht, andb_false_r.
  - apply IH; try assumption. now rewrite <- (last_or_cons before).
Qed.

Lemma not_count_not_digit (c : char) :
  is_count_char c = false -> is_digit c = false.
Proof.
  intros H. destruct (is_digit c) eqn:E; [|reflexivity].
  apply digit_count_char in E. congruence.
Qed.

(** What the substitution of the count rule returns has no match left. *)
Lemma count_own_free_len (n : nat) : forall before s,
  (length s <= n)%nat ->
  free RULE_COUNT before (sub_loop RULE_COUNT repl_count before 0 s).
Proof.
  induction n as [|n IH]; intros before s Hlen.
  - destruct s; [exact I|simpl in Hlen; lia].
  - destruct s as [|c s]; [exact I|]. simpl in Hlen.
    destruct (is_digit c) eqn:Hd.
    2:{ rewrite sub_miss by now apply count_no_digit.
        split; [now apply count_no_digit|apply IH; lia]. }
    destruct (span_exists is_count_char s) as (run & rest & -> & Hrun & Hrest).
    rewrite length_app in Hlen.
    assert (Hcr : forallb is_count_char (c :: run) = true).
    { cbn [forallb]. now rewrite (digit_count_char c Hd), Hrun. }
    destruct (count_tail rest) eqn:Ht.
    + apply count_tail_true in Ht as (X & t & -> & HX & Hb).
      cbn [length] in Hlen.
      rewrite count_hit by assumption.
      apply (count_window_free (c :: run)); [exact Hcr|reflexivity..|].
      split; [now apply count_no_backslash|].
      split; [now apply count_no_suit|].
      split; [now apply count_no_digit|].
      apply (count_free_before (Some X)). apply IH. lia.
    + rewrite sub_miss
        by (rewrite match_count by assumption; now rewrite Ht, andb_false_r).
      rewrite count_copy_run by assumption.
      apply (count_window_free (c :: run)); [exact Hcr| | |].
      * pose proof (sub_head RULE_COUNT repl_count (last_or (Some c) run)
                      rest count_keeps_head) as Hh.
        destruct (sub_loop RULE_COUNT repl_count (last_or (Some c) run) 0
                    rest) as [|c1 out]; [exact I|].
        destruct rest as [|c0 rest1]; [discriminate Hh|].
        injection Hh as ->. exact Hrest.
      * rewrite count_tail_sub; [exact Ht|].
        destruct rest as [|c0 rest1]; [exact I|].
        now apply not_count_not_digit.
      * apply (count_free_before (last_or (Some c) run)). apply IH. lia.
Qed.

Lemma count_own_free (before : option char) (s : str) :
  free RULE_COUNT before (sub_loop RULE_COUNT repl_count before 0 s).
Proof. now apply (count_own_free_len (length s)). Qed.

Lemma count_char_plain (c : char) : is_count_char c = true -> c <> 92%N.
Proof. intros H ->. discriminate H. Qed.

Lemma count_run_plain (run : str) :
  forallb is_count_char run = true -> Forall (fun c => c <> 92%N) run.
Proof.
  induction run as [|c run IH]; intros H; [constructor|].
  cbn in H. apply andb_prop in H as [Hc H].
  constructor; [now apply count_char_plain|now apply IH].
Qed.

Lemma count_transfer (G : char -> bool) (before : option char) (s y : str) :
  (forall X, is_suit X = true -> G X = false) ->
  Ins G before s y ->
  match_at RULE_COUNT before s = None ->
  match_at RULE_COUNT before y = None.
Proof.
  intros HG HI Hs.
  destruct (match_at RULE_COUNT before y) as [m|] eqn:E; [|reflexivity].
  exfalso.
  apply match_count_some in E as (d & run & X & t & -> & Hd & Hrun & HX & Hb & _).
  destruct (ins_prefix G (d :: run ++ [32%N; X]) before s
              (d :: run ++ 32%N :: X :: t) t HI) as (s' & -> & HI').
  { cbn [app]. now rewrite <- app_assoc. }
  { constructor; [intros ->; discriminate Hd|].
    apply Forall_app. split.
    - now apply count_run_plain.
    - repeat constructor; [discriminate|]. intros ->. discriminate HX. }
  rewrite last_or_cons, last_or_app in HI'.
  change (last_or (Some 32%N) [X]) with (Some X) in HI'.
  cbn [app] in Hs. rewrite <- app_assoc in Hs. cbn [app] in Hs.
  rewrite match_count_hit in Hs; [discriminate Hs|try assumption..].
  now rewrite <- (ins_boundary G X s' t HI' (HG X HX)).
Qed.

(** Backslashes put in after characters that are no suit letters leave
    a text without match of the count rule so. *)
Lemma count_free_ins (G : char -> bool) (before : option char) (s y : str) :
  (forall X, is_suit X = true -> G X = false) ->
  Ins G before s y ->
  free RULE_COUNT before s -> free RULE_COUNT before y.
Proof.
  intros HG. apply free_ins.
  - apply count_no_backslash.
  - intros b s0 y0. now apply count_transfer.
  - intros a X s0 y0 _ HX _ _. now apply count_no_suit.
Qed.

(** *** The five passes together *)

Lemma rank_suit (X : char) : is_suit X = true -> is_rank X = false.
Proof. intros HX. now apply suit_facts in HX. Qed.

Lemma digit_suit (X : char) : is_suit X = true -> is_digit X = false.
Proof. intros HX. now apply suit_facts in HX. Qed.

Lemma space_not_word (a : char) : is_space_char a = true -> is_word a = false.
Proof. unfold is_space_char. intros H. apply N.eqb_eq in H. now subst a. Qed.

Lemma card_ins (before : option char) (s : str) :
  Ins is_rank before s (sub_loop RULE_CARD repl_pair before 0 s).
Proof.
  change RULE_CARD with (RULE_PAIR is_rank).
  apply pair_ins; [reflexivity|exact rank_suit].
Qed.

Lemma bid_ins (before : option char) (s : str) :
  Ins is_digit before s (sub_loop RULE_BID repl_pair before 0 s).
Proof.
  change RULE_BID with (RULE_PAIR is_digit).
  apply pair_ins; [reflexivity|exact digit_suit].
Qed.

Lemma card_own_free (before : option char) (s : str) :
  free RULE_CARD before (sub_loop RULE_CARD repl_pair before 0 s).
Proof.
  change RULE_CARD with (RULE_PAIR is_rank).
  apply pair_own_free; [reflexivity|exact rank_suit].
Qed.

Lemma bid_own_free (before : option char) (s : str) :
  free RULE_BID before (sub_loop RULE_BID repl_pair before 0 s).
Proof.
  change RULE_BID with (RULE_PAIR is_digit).
  apply pair_own_free; [reflexivity|exact digit_suit].
Qed.

Lemma card_free_ins (G : char -> bool) (before : option char) (s y : str) :
  (forall X, is_suit X = true -> G X = false) ->
  Ins G before s y ->
  free RULE_CARD before s -> free RULE_CARD before y.
Proof.
  change RULE_CARD with (RULE_PAIR is_rank).
  apply pair_free_ins; [reflexivity|exact rank_suit].
Qed.

Lemma bid_free_ins (G : char -> bool) (before : option char) (s y : str) :
  (forall X, is_suit X = true -> G X = false) ->
  Ins G before s y ->
  free RULE_BID before s -> free RULE_BID before y.
Proof.
  change RULE_BID with (RULE_PAIR is_digit).
  apply pair_free_ins; [reflexivity|exact digit_suit].
Qed.

Lemma add_suit_symbols_passes (text : str) :
  add_suit_symbols text
  = sub_for (sub_keycard (sub_bid (sub_card (sub_count text)))).
Proof. reflexivity. Qed.

(** A text in which none of the five patterns matches comes back as it
    is. *)
Lemma add_suit_symbols_free (text : str) :
  free RULE_COUNT None text -> free RULE_CARD None text ->
  free RULE_BID None text -> free RULE_KEYCARD None text ->
  free RULE_FOR None text ->
  add_suit_symbols text = text.
Proof.
  intros H1 H2 H3 H4 H5. rewrite add_suit_symbols_passes.
  unfold sub_for, sub_keycard, sub_bid, sub_card, sub_count, re_sub.
  rewrite (sub_free RULE_COUNT repl_count text None H1).
  rewrite (sub_free RULE_CARD repl_pair text None H2).
  rewrite (sub_free RULE_BID repl_pair text None H3).
  rewrite (sub_free RULE_KEYCARD repl_keycard text None H4).
  exact (sub_free RULE_FOR repl_pair text None H5).
Qed.



(** ** Tokens: [split] without argument and [join] *)

Lemma words_loop_token (t : str) : forall cur,
  forallb (fun c => negb (isspace c)) t = true ->
  cur ++ t <> [] ->
  words_loop t cur = [cur ++ t].
Proof.
  induction t as [|c t IH]; intros cur Ht Hne.
  - rewrite app_nil_r in *. cbn. now destruct cur.
  - cbn in Ht. apply andb_prop in Ht as [Hc Ht].
    apply negb_true_iff in Hc. cbn [words_loop]. rewrite Hc.
    rewrite IH; [now rewrite <- app_assoc|exact Ht|].
    now destruct cur.
Qed.

Lemma words_token (t : str) : is_token t = true -> words t = [t].
Proof.
  intros H. destruct t as [|c t]; [discriminate H|].
  unfold words. now rewrite words_loop_token.
Qed.

Lemma words_loop_tokens (s : str) : forall cur,
  forallb (fun c => negb (isspace c)) cur = true ->
  Forall (fun t => is_token t = true) (words_loop s cur).
Proof.
  induction s as [|a s IH]; intros cur Hcur.
  - destruct cur as [|c cur]; cbn [words_loop]; repeat constructor.
    exact Hcur.
  - cbn [words_loop]. destruct (isspace a) eqn:Ha.
    + destruct cur as [|c cur]; [now apply IH|].
      constructor; [exact Hcur|now apply IH].
    + apply IH. rewrite forallb_app, Hcur. cbn. now rewrite Ha.
Qed.

(** What [split] returns are tokens. *)
Lemma words_tokens (s : str) : Forall (fun t => is_token t = true) (words s).
Proof. now apply words_loop_tokens. Qed.

Lemma concat_words_tokens (toks : list str) :
  Forall (fun t => is_token t = true) toks -> concat (map words toks) = toks.
Proof.
  induction 1 as [|t toks Ht _ IH]; [reflexivity|].
  cbn [map concat]. now rewrite (words_token t Ht), IH.
Qed.

(** Tokens joined by white space are read back by [split]. *)
Lemma words_join_tokens (sp : char) (toks : list str) :
  isspace sp = true -> Forall (fun t => is_token t = true) toks ->
  words (join [sp] toks) = toks.
Proof.
  intros Hsp Ht. rewrite words_join by exact Hsp.
  now apply concat_words_tokens.
Qed.

(** ** Reading the bids: [parse_auction_bids] and [trim_trailing_passes] *)

(** Induction along the recursion of the token loops, which go on with
    the tail of the list or with the tail of its tail. *)
Lemma by_one_or_two (P : list str -> Prop) :
  P [] ->
  (forall tok tl,
     P tl -> (forall nxt rest, tl = nxt :: rest -> P rest) -> P (tok :: tl)) ->
  forall l, P l.
Proof.
  intros Hnil Hcons l.
  assert (H : P l /\ (forall nxt rest, l = nxt :: rest -> P rest)).
  { induction l as [|tok tl [IH1 IH2]].
    - split; [exact Hnil|discriminate].
    - split; [now apply Hcons|].
      intros nxt rest E. injection E as <- <-. exact IH1. }
  exact (proj1 H).
Qed.

Lemma index_of_seat (idx : nat) (dealer : str) :
  SEATS !! idx = Some dealer -> index_of_str dealer SEATS = Some idx.
Proof.
  destruct idx as [|[|[|[|idx]]]]; cbn; intros H; try discriminate H;
    injection H as <-; reflexivity.
Qed.

Lemma index_of_str_some (x : str) (l : list str) (k : nat) :
  index_of_str x l = Some k -> l !! k = Some x.
Proof.
  revert k. induction l as [|y l IH]; intros k H; [discriminate H|].
  cbn in H. unfold str_eqb in H.
  destruct (bool_decide_reflect (y = x)) as [->|_].
  - injection H as <-. reflexivity.
  - destruct (index_of_str x l) as [j|]; [|discriminate H].
    injection H as <-. cbn. now apply IH.
Qed.

Lemma index_of_str_none (x : str) (l : list str) :
  index_of_str x l = None -> x ∉ l.
Proof.
  induction l as [|y l IH]; intros H; [apply not_elem_of_nil|].
  cbn in H. unfold str_eqb in H.
  destruct (bool_decide_reflect (y = x)) as [->|Hne]; [discriminate H|].
  destruct (index_of_str x l) as [j|] eqn:E; [discriminate H|].
  apply not_elem_of_cons. split; [congruence|now apply IH].
Qed.

Lemma seat_at_SEATS (idx k : nat) :
  SEATS !! ((idx + k) mod 4)%nat = Some (seat_at idx k).
Proof.
  unfold seat_at.
  assert (H : ((idx + k) mod 4 < 4)%nat) by (apply Nat.mod_upper_bound; lia).
  destruct ((idx + k) mod 4)%nat as [|[|[|[|n]]]]; try reflexivity; lia.
Qed.

(** The seat of every bid of the loop is that of its turn. *)
Lemma bids_loop_seats (idx : nat) (tokens : list str) :
  forall k0 bids k b,
    bids_loop idx k0 tokens = Some bids ->
    bids !! k = Some b ->
    fst (fst b) = seat_at idx (k0 + k).
Proof.
  induction tokens as [|tok tl IH1 IH2] using by_one_or_two;
    intros k0 bids k b Hl H.
  { injection Hl as <-. discriminate H. }
  cbn [bids_loop] in Hl.
  destruct (str_eqb (lower tok) (py "or"));
    [injection Hl as <-; discriminate H|].
  destruct (is_note_flag tok); [now apply (IH1 k0 bids)|].
  destruct (negb (is_valid_bid_token tok));
    [injection Hl as <-; discriminate H|].
  destruct tl as [|nxt rest].
  - injection Hl as <-. destruct k as [|k]; [|discriminate H].
    injection H as <-. now rewrite Nat.add_0_r.
  - destruct (is_note_flag nxt).
    + destruct (flag_number nxt) as [n|]; [|discriminate Hl].
      destruct (bids_loop idx (S k0) rest) as [bs|] eqn:E;
        [|discriminate Hl].
      injection Hl as <-. destruct k as [|k].
      * injection H as <-. now rewrite Nat.add_0_r.
      * cbn in H. apply (IH2 nxt rest eq_refl _ _ _ _ E) in H. rewrite H.
        f_equal. lia.
    + destruct (bids_loop idx (S k0) (nxt :: rest)) as [bs|] eqn:E;
        [|discriminate Hl].
      injection Hl as <-. destruct k as [|k].
      * injection H as <-. now rewrite Nat.add_0_r.
      * cbn [lookup list_lookup] in H. apply (IH1 _ _ _ _ E) in H.
        rewrite H. f_equal. lia.
Qed.

Lemma lstrip_by_length (p : char -> bool) (s : str) :
  (length (lstrip_by p s) <= length s)%nat.
Proof.
  induction s as [|c s IH]; [reflexivity|].
  cbn [lstrip_by]. destruct (p c); cbn [length]; lia.
Qed.

Lemma rstrip_by_length (p : char -> bool) (s : str) :
  (length (rstrip_by p s) <= length s)%nat.
Proof.
  unfold rstrip_by. rewrite length_rev, <- (length_rev s).
  apply lstrip_by_length.
Qed.

(** The number of a flag of at most [INT_MAX_STR_DIGITS] characters is
    read. *)
Lemma flag_number_short (token : str) :
  (N.of_nat (length token) <=? INT_MAX_STR_DIGITS)%N = true ->
  exists n, flag_number token = Some n.
Proof.
  intros H. apply N.leb_le in H. unfold flag_number, int_of_str.
  pose proof (rstrip_by_length (fun c => (c =? 61)%N)
                (lstrip_by (fun c => (c =? 61)%N) token)) as H1.
  pose proof (lstrip_by_length (fun c => (c =? 61)%N) token) as H2.
  replace (INT_MAX_STR_DIGITS <? _)%N with false; [now eauto|].
  symmetry. apply N.ltb_ge. lia.
Qed.

Lemma bids_loop_short (idx : nat) (tokens : list str) :
  forallb (fun token => (N.of_nat (length token) <=? INT_MAX_STR_DIGITS)%N)
          tokens = true ->
  forall k0, exists bids, bids_loop idx k0 tokens = Some bids.
Proof.
  induction tokens as [|tok tl IH1 IH2] using by_one_or_two; intros Hs k0;
    [now eauto|].
  cbn [forallb] in Hs. apply andb_prop in Hs as [_ Hs].
  cbn [bids_loop].
  destruct (str_eqb (lower tok) (py "or")); [now eauto|].
  destruct (is_note_flag tok); [now apply IH1|].
  destruct (negb (is_valid_bid_token tok)); [now eauto|].
  destruct tl as [|nxt rest]; [now eauto|].
  destruct (is_note_flag nxt).
  - cbn [forallb] in Hs. apply andb_prop in Hs as [Hn Hr].
    destruct (flag_number_short nxt Hn) as [n ->].
    destruct (IH2 nxt rest eq_refl Hr (S k0)) as [bs ->]. now eauto.
  - destruct (IH1 Hs (S k0)) as [bs ->]. now eauto.
Qed.

(** X1: the bids that [parse_auction_bids] returns go round the table
    from the dealer.  Take a dealer that is the seat number [idx] of
    [N, E, S, W].  When no token of the auction lines has more than 4300
    characters (so that [int] converts the number of every footnote
    flag), the function returns a list; and whenever it returns a list,
    the seat of its bid number [k] (from 0) is the seat number
    [(idx + k) mod 4]: stray footnote flags and the footnote flag after a
    bid take no turn. *)
Theorem parse_auction_bids_round_the_table (auction_lines : list str)
    (dealer : str) (idx : nat) :
  SEATS !! idx = Some dealer ->
  (short_tokens auction_lines = true ->
   exists bids, parse_auction_bids auction_lines dealer = Some bids)
  /\ forall bids,
       parse_auction_bids auction_lines dealer = Some bids ->
       forall k b, bids !! k = Some b ->
         SEATS !! ((idx + k) mod 4)%nat = Some (fst (fst b)).
Proof.
  intros Hd. unfold parse_auction_bids.
  rewrite (index_of_seat idx dealer Hd). split.
  - intros Hs. now apply bids_loop_short.
  - intros bids Hl k b H.
    apply (bids_loop_seats _ _ _ _ _ _ Hl) in H. rewrite H.
    apply seat_at_SEATS.
Qed.

Lemma parse_auction_bids_round_the_table_witness :
  exists bids,
    parse_auction_bids [py "1C Pass 1D =1="; py "Pass 1NT"] (py "S") = Some bids
    /\ forall k b, bids !! k = Some b ->
         SEATS !! ((2 + k) mod 4)%nat = Some (fst (fst b)).
Proof.
  destruct (parse_auction_bids_round_the_table
              [py "1C Pass 1D =1="; py "Pass 1NT"] (py "S") 2 eq_refl)
    as [Hsome Hseats].
  destruct (Hsome eq_refl) as [bids Hb].
  exists bids. split; [exact Hb|]. exact (Hseats bids Hb).
Defined.

Lemma rotate_seat_some (s s' : str) :
  rotate_seat s = Some s' ->
  exists idx, (idx < 4)%nat /\ SEATS !! idx = Some s
              /\ SEATS !! ((idx + 2) mod 4)%nat = Some s'.
Proof.
  unfold rotate_seat, ROTATE_MAP. intros H.
  apply elem_of_list_to_map_2 in H.
  rewrite !elem_of_cons, elem_of_nil in H.
  destruct H as [H | [H | [H | [H | []]]]]; injection H as -> ->.
  - exists 0%nat. repeat split; lia.
  - exists 2%nat. repeat split; lia.
  - exists 1%nat. repeat split; lia.
  - exists 3%nat. repeat split; lia.
Qed.

Lemma rotate_seat_none (s : str) : rotate_seat s = None -> s ∉ SEATS.
Proof.
  intros H Hs.
  destruct (SEATS_inv s Hs) as [-> | [-> | [-> | ->]]]; vm_compute in H;
    discriminate H.
Qed.

Lemma rotate_seat_at (idx k : nat) :
  rotate_seat (seat_at idx k) = Some (seat_at ((idx + 2) mod 4) k).
Proof.
  unfold seat_at.
  rewrite (Nat.Div0.add_mod_idemp_l (idx + 2) k 4).
  replace (idx + 2 + k)%nat with ((idx + k) + 2)%nat by lia.
  rewrite <- (Nat.Div0.add_mod_idemp_l (idx + k) 2 4).
  assert (H : ((idx + k) mod 4 < 4)%nat) by (apply Nat.mod_upper_bound; lia).
  destruct ((idx + k) mod 4)%nat as [|[|[|[|n]]]]; try reflexivity; lia.
Qed.

(** Two runs of the loop that differ by the dealer differ by the seats. *)
Lemma bids_loop_rotated (idx : nat) (tokens : list str) :
  forall k0,
    match bids_loop idx k0 tokens, bids_loop ((idx + 2) mod 4) k0 tokens with
    | Some bids, Some bids' =>
        Forall2 (fun b b' =>
                   rotate_seat (fst (fst b)) = Some (fst (fst b'))
                   /\ snd (fst b) = snd (fst b') /\ snd b = snd b')
                bids bids'
    | None, None => True
    | _, _ => False
    end.
Proof.
  induction tokens as [|tok tl IH1 IH2] using by_one_or_two; intros k0;
    [constructor|].
  cbn [bids_loop].
  destruct (str_eqb (lower tok) (py "or")); [constructor|].
  destruct (is_note_flag tok); [apply IH1|].
  destruct (negb (is_valid_bid_token tok)); [constructor|].
  destruct tl as [|nxt rest].
  - repeat constructor. apply rotate_seat_at.
  - destruct (is_note_flag nxt).
    + destruct (flag_number nxt) as [n|]; [|exact I].
      pose proof (IH2 nxt rest eq_refl (S k0)) as H.
      destruct (bids_loop idx (S k0) rest) as [bs|],
               (bids_loop ((idx + 2) mod 4) (S k0) rest) as [bs'|];
        try exact H.
      constructor; [|exact H]. repeat split. apply rotate_seat_at.
    + pose proof (IH1 (S k0)) as H.
      destruct (bids_loop idx (S k0) (nxt :: rest)) as [bs|],
               (bids_loop ((idx + 2) mod 4) (S k0) (nxt :: rest)) as [bs'|];
        try exact H.
      constructor; [|exact H]. repeat split. apply rotate_seat_at.
Qed.

(** X2: rotating the dealer rotates the table.  When [rotate_seat] turns
    the dealer into [dealer'], [parse_auction_bids] does for [dealer'] what
    it does for [dealer]: either both calls raise (on a footnote number
    that [int] does not convert), or both return bids, with the same calls
    and footnote numbers, each at the rotated seat. *)
Theorem parse_auction_bids_rotated (auction_lines : list str)
    (dealer dealer' : str) :
  rotate_seat dealer = Some dealer' ->
  match parse_auction_bids auction_lines dealer,
        parse_auction_bids auction_lines dealer' with
  | Some bids, Some bids' =>
      Forall2 (fun b b' =>
                 rotate_seat (fst (fst b)) = Some (fst (fst b'))
                 /\ snd (fst b) = snd (fst b') /\ snd b = snd b')
              bids bids'
  | None, None => True
  | _, _ => False
  end.
Proof.
  intros H. apply rotate_seat_some in H as (idx & Hidx & Hd & Hd').
  unfold parse_auction_bids.
  rewrite (index_of_seat _ _ Hd), (index_of_seat _ _ Hd').
  apply bids_loop_rotated.
Qed.

Lemma parse_auction_bids_rotated_witness :
  Forall2 (fun b b' =>
             rotate_seat (fst (fst b)) = Some (fst (fst b'))
             /\ snd (fst b) = snd (fst b') /\ snd b = snd b')
    [(py "N", py "1C", None); (py "E", py "Pass", None);
     (py "S", py "1D", Some 1%N); (py "W", py "Pass", None);
     (py "N", py "1NT", None)]
    [(py "S", py "1C", None); (py "W", py "Pass", None);
     (py "N", py "1D", Some 1%N); (py "E", py "Pass", None);
     (py "S", py "1NT", None)].
Proof.
  exact (parse_auction_bids_rotated [py "1C Pass 1D =1="; py "Pass 1NT"]
           (py "N") (py "S") eq_refl).
Defined.

Lemma lstrip_by_idem (p : char -> bool) (s : str) :
  lstrip_by p (lstrip_by p s) = lstrip_by p s.
Proof.
  induction s as [|c s IH]; [reflexivity|].
  cbn [lstrip_by]. destruct (p c) eqn:E; [exact IH|].
  cbn [lstrip_by]. now rewrite E.
Qed.

Lemma rstrip_by_idem (p : char -> bool) (s : str) :
  rstrip_by p (rstrip_by p s) = rstrip_by p s.
Proof.
  unfold rstrip_by. now rewrite rev_involutive, lstrip_by_idem.
Qed.

Lemma is_valid_bid_token_rstrip (token : str) :
  is_valid_bid_token (rstrip_question token) = is_valid_bid_token token.
Proof.
  unfold is_valid_bid_token, rstrip_question. now rewrite rstrip_by_idem.
Qed.

Lemma str_eqb_false (a b : str) : str_eqb a b = false -> a <> b.
Proof. unfold str_eqb. intros H. now apply bool_decide_eq_false in H. Qed.

Lemma str_eqb_eq (a b : str) : str_eqb a b = true -> a = b.
Proof. unfold str_eqb. intros H. now apply bool_decide_eq_true in H. Qed.

(** What the loop makes of a valid token is a valid token, without
    question mark at its end, and not [P]. *)
Lemma clean_bid_normal (token : str) :
  is_valid_bid_token token = true ->
  is_valid_bid_token (clean_bid token) = true
  /\ rstrip_question (clean_bid token) = clean_bid token
  /\ upper (clean_bid token) <> py "P".
Proof.
  intros Hv. unfold clean_bid.
  destruct (str_eqb (upper (rstrip_question token)) (py "P")) eqn:E.
  - repeat split. vm_compute. discriminate.
  - split; [now rewrite is_valid_bid_token_rstrip|].
    split; [apply rstrip_by_idem|now apply str_eqb_false].
Qed.

Lemma bids_loop_normal (idx : nat) (tokens : list str) :
  forall k0 bids,
    bids_loop idx k0 tokens = Some bids ->
    Forall (fun b => is_valid_bid_token (snd (fst b)) = true
                     /\ rstrip_question (snd (fst b)) = snd (fst b)
                     /\ upper (snd (fst b)) <> py "P")
      bids.
Proof.
  induction tokens as [|tok tl IH1 IH2] using by_one_or_two;
    intros k0 bids Hl.
  { injection Hl as <-. constructor. }
  cbn [bids_loop] in Hl.
  destruct (str_eqb (lower tok) (py "or"));
    [injection Hl as <-; constructor|].
  destruct (is_note_flag tok); [now apply (IH1 k0)|].
  destruct (is_valid_bid_token tok) eqn:Hv;
    [|injection Hl as <-; constructor].
  cbn [negb] in Hl. pose proof (clean_bid_normal tok Hv) as Hc.
  destruct tl as [|nxt rest];
    [injection Hl as <-; repeat constructor; apply Hc|].
  destruct (is_note_flag nxt).
  - destruct (flag_number nxt) as [n|]; [|discriminate Hl].
    destruct (bids_loop idx (S k0) rest) as [bs|] eqn:E; [|discriminate Hl].
    injection Hl as <-. constructor; [exact Hc|].
    apply (IH2 nxt rest eq_refl _ _ E).
  - destruct (bids_loop idx (S k0) (nxt :: rest)) as [bs|] eqn:E;
      [|discriminate Hl].
    injection Hl as <-. constructor; [exact Hc|]. apply (IH1 _ _ E).
Qed.

(** X3: the bids that [parse_auction_bids] returns are normalized.  Each
    is a token that [is_valid_bid_token] accepts, has no question mark at
    its end, and is not [P] in any case: a [P] is returned as [Pass]. *)
Theorem parse_auction_bids_normalized (auction_lines : list str)
    (dealer : str) (bids : list (str * str * option N)) :
  parse_auction_bids auction_lines dealer = Some bids ->
  Forall (fun b => is_valid_bid_token (snd (fst b)) = true
                   /\ rstrip_question (snd (fst b)) = snd (fst b)
                   /\ upper (snd (fst b)) <> py "P") bids.
Proof.
  unfold parse_auction_bids.
  destruct (index_of_str dealer SEATS) as [idx|]; [|discriminate].
  apply bids_loop_normal.
Qed.

Lemma parse_auction_bids_normalized_witness :
  parse_auction_bids [py "1C? p 2H?? =1= P"] (py "N")
  = Some [(py "N", py "1C", None); (py "E", py "Pass", None);
          (py "S", py "2H", Some 1%N); (py "W", py "Pass", None)]
  /\ Forall (fun b => is_valid_bid_token (snd (fst b)) = true
                      /\ rstrip_question (snd (fst b)) = snd (fst b)
                      /\ upper (snd (fst b)) <> py "P")
       [(py "N", py "1C", None); (py "E", py "Pass", None);
        (py "S", py "2H", Some 1%N); (py "W", py "Pass", None)].
Proof.
  split; [vm_compute; reflexivity|].
  apply (parse_auction_bids_normalized [py "1C? p 2H?? =1= P"] (py "N")).
  vm_compute. reflexivity.
Defined.

(** A footnote flag starts with [=]. *)
Lemma is_note_flag_head (token : str) :
  is_note_flag token = true -> exists s, token = 61%N :: s.
Proof.
  unfold is_note_flag, re_match, match_at, RULE_FLAG. norm_lits.
  cbn [seq_of rmatch m_consumed m_before m_rest].
  destruct token as [|c s]; [discriminate|].
  cbn [startswith]. destruct (N.eqb_spec 61 c) as [<-|]; [|discriminate].
  intros _. now exists s.
Qed.

Lemma stops_reading_no_flag (token : str) :
  stops_reading token = true -> is_note_flag token = false.
Proof.
  unfold stops_reading. intros H. apply orb_prop in H as [H|H].
  - apply str_eqb_eq in H.
    destruct (is_note_flag token) eqn:E; [|reflexivity].
    apply is_note_flag_head in E as [s ->].
    vm_compute in H. discriminate H.
  - apply andb_prop in H as [H _]. now apply negb_true_iff in H.
Qed.

Lemma bids_loop_stop (idx : nat) (token : str) (t2 : list str) (k : nat) :
  stops_reading token = true -> bids_loop idx k (token :: t2) = Some [].
Proof.
  intros H. pose proof (stops_reading_no_flag token H) as Hf.
  unfold stops_reading in H. cbn [bids_loop].
  destruct (str_eqb (lower token) (py "or")); [reflexivity|].
  rewrite Hf in *. cbn in H. now rewrite H.
Qed.

Lemma bids_loop_until (idx : nat) (token : str) (t2 t1 : list str) :
  stops_reading token = true ->
  forall k, bids_loop idx k (t1 ++ token :: t2) = bids_loop idx k t1.
Proof.
  intros Hs.
  induction t1 as [|tok tl IH1 IH2] using by_one_or_two; intros k.
  - now apply bids_loop_stop.
  - cbn [app bids_loop].
    destruct (str_eqb (lower tok) (py "or")); [reflexivity|].
    destruct (is_note_flag tok); [apply IH1|].
    destruct (negb (is_valid_bid_token tok)); [reflexivity|].
    destruct tl as [|nxt rest].
    + cbn [app]. rewrite (stops_reading_no_flag token Hs).
      now rewrite bids_loop_stop.
    + cbn [app]. destruct (is_note_flag nxt).
      * now rewrite (IH2 nxt rest eq_refl).
      * now rewrite <- IH1.
Qed.

(** X4: [parse_auction_bids] reads no further than the first token that
    is [or] (in any case) or that is neither a footnote flag nor a valid
    bid.  When the tokens of the auction lines are [t1], such a token and
    [t2], the result is that for the tokens [t1] alone: nothing after the
    token is read, and a bid before it keeps no footnote from beyond
    it. *)
Theorem parse_auction_bids_stops (auction_lines : list str) (dealer : str)
    (t1 t2 : list str) (token : str) :
  words (join (py " ") auction_lines) = t1 ++ token :: t2 ->
  stops_reading token = true ->
  parse_auction_bids auction_lines dealer = parse_auction_bids t1 dealer.
Proof.
  intros Hw Hs. unfold parse_auction_bids.
  destruct (index_of_str dealer SEATS) as [idx|]; [|reflexivity].
  rewrite Hw, bids_loop_until by exact Hs.
  f_equal. symmetry. change (py " ") with [32%N].
  apply words_join_tokens; [reflexivity|].
  pose proof (words_tokens (join (py " ") auction_lines)) as Ht.
  rewrite Hw in Ht. now apply Forall_app in Ht as [Ht _].
Qed.

Lemma parse_auction_bids_stops_witness :
  parse_auction_bids [py "1C Pass 1D or"; py "1H Pass"] (py "N")
  = parse_auction_bids [py "1C"; py "Pass"; py "1D"] (py "N").
Proof.
  apply (parse_auction_bids_stops _ _ [py "1C"; py "Pass"; py "1D"]
           [py "1H"; py "Pass"] (py "or")); vm_compute; reflexivity.
Defined.

Lemma lstrip_by_app_all (p : char -> bool) (a b : str) :
  forallb p a = true -> lstrip_by p (a ++ b) = lstrip_by p b.
Proof.
  induction a as [|c a IH]; intros H; [reflexivity|].
  cbn in H. apply andb_prop in H as [Hc Ha].
  cbn [app lstrip_by]. now rewrite Hc, IH.
Qed.

Lemma rstrip_question_app (token marks : str) :
  forallb (fun c => (c =? 63)%N) marks = true ->
  rstrip_question (token ++ marks) = rstrip_question token.
Proof.
  intros H. unfold rstrip_question, rstrip_by.
  rewrite rev_app_distr, lstrip_by_app_all; [reflexivity|].
  now rewrite forallb_rev.
Qed.

(** X20: question marks at the end of a token are not read.  A token
    followed by any number of question marks is a valid bid exactly when
    the token is, has the same cleaned form (the bid that the loop of
    [parse_auction_bids] records for a valid token), and is displayed by
    [format_bid_display] in the same way. *)
Theorem question_marks_ignored (token marks : str) :
  forallb (fun c => (c =? 63)%N) marks = true ->
  is_valid_bid_token (token ++ marks) = is_valid_bid_token token
  /\ clean_bid (token ++ marks) = clean_bid token
  /\ format_bid_display (token ++ marks) = format_bid_display token.
Proof.
  intros H. pose proof (rstrip_question_app token marks H) as E.
  unfold is_valid_bid_token, clean_bid, format_bid_display.
  fold (rstrip_question (token ++ marks)). fold (rstrip_question token).
  now rewrite E.
Qed.

Lemma question_marks_ignored_witness :
  is_valid_bid_token (py "2H??") = is_valid_bid_token (py "2H")
  /\ clean_bid (py "2H??") = clean_bid (py "2H")
  /\ format_bid_display (py "2H??") = format_bid_display (py "2H").
Proof.
  apply (question_marks_ignored (py "2H") (py "??")). reflexivity.
Defined.

(** ** [trim_trailing_passes] *)

Lemma pop_passes_spec (l : list (str * str * option N)) :
  exists passes,
    l = passes ++ pop_passes l
    /\ Forall (fun b => is_plain_pass b = true) passes
    /\ forall b, head (pop_passes l) = Some b -> is_plain_pass b = false.
Proof.
  induction l as [|b l (ps & E & Hps & Hh)].
  - exists []. repeat split; [constructor|discriminate].
  - cbn [pop_passes]. destruct (is_plain_pass b) eqn:Hb.
    + exists (b :: ps). split; [cbn; now rewrite <- E|].
      split; [now constructor|exact Hh].
    + exists []. repeat split; [constructor|].
      intros b' H. injection H as <-. exact Hb.
Qed.

Lemma last_rev {A : Type} (l : list A) : last (rev l) = head l.
Proof. destruct l as [|a l]; [reflexivity|]. cbn [rev]. apply last_snoc. Qed.

Lemma pop_passes_fixed (l : list (str * str * option N)) :
  (forall b, head l = Some b -> is_plain_pass b = false) -> pop_passes l = l.
Proof.
  destruct l as [|b l]; [reflexivity|]. intros H.
  cbn [pop_passes]. now rewrite (H b eq_refl).
Qed.

(** X5: [trim_trailing_passes] removes the passes without footnote at the
    end of the list and nothing else.  The bids are what it returns
    followed by passes without footnote; what it returns does not end
    with such a pass; and trimming again changes nothing. *)
Theorem trim_trailing_passes_spec (bids : list (str * str * option N)) :
  (exists passes,
     bids = trim_trailing_passes bids ++ passes
     /\ Forall (fun b => is_plain_pass b = true) passes)
  /\ (forall b, last (trim_trailing_passes bids) = Some b ->
        is_plain_pass b = false)
  /\ trim_trailing_passes (trim_trailing_passes bids)
     = trim_trailing_passes bids.
Proof.
  unfold trim_trailing_passes.
  destruct (pop_passes_spec (rev bids)) as (ps & E & Hps & Hh).
  split; [|split].
  - exists (rev ps). split.
    + rewrite <- rev_app_distr, <- E. now rewrite rev_involutive.
    + now apply Forall_rev.
  - intros b. rewrite last_rev. apply Hh.
  - rewrite rev_involutive. now rewrite pop_passes_fixed.
Qed.

(** ** [write_lesson_pbn]: when it fails *)

Lemma rotate_seat_none_iff (s : str) : rotate_seat s = None <-> s ∉ SEATS.
Proof.
  split; [apply rotate_seat_none|]. intros Hs.
  destruct (rotate_seat s) as [s'|] eqn:E; [|reflexivity].
  apply rotate_seat_some in E as (idx & _ & E & _).
  exfalso. apply Hs. now apply list_elem_of_lookup_2 in E.
Qed.

Lemma rotate_deal_tag_none (value : str) :
  rotate_deal_tag value = None
  <-> forall c, head value = Some c -> [c] ∉ SEATS.
Proof.
  destruct value as [|c rest]; cbn [rotate_deal_tag head].
  - split; [discriminate|reflexivity].
  - destruct (rotate_seat [c]) as [s'|] eqn:E.
    + split; [discriminate|]. intros H. exfalso.
      apply (H c eq_refl). apply rotate_seat_some in E as (idx & _ & E & _).
      now apply list_elem_of_lookup_2 in E.
    + split; [|reflexivity]. intros _ c' Hc. injection Hc as <-.
      now apply rotate_seat_none_iff.
Qed.

Lemma meta_lines_none (event_name : str) (do_rotate : bool)
    (tags : list (str * str)) :
  meta_lines event_name do_rotate tags = None
  <-> do_rotate = true
      /\ exists value, (py "Deal", value) ∈ tags
                       /\ rotate_deal_tag value = None.
Proof.
  induction tags as [|[tag value] tags IH].
  - split; [discriminate|]. intros (_ & v & Hv & _).
    now apply elem_of_nil in Hv.
  - cbn [meta_lines]. unfold meta_value.
    assert (Hup : meta_lines event_name do_rotate tags = None ->
                  do_rotate = true
                  /\ exists v, (py "Deal", v) ∈ (tag, value) :: tags
                               /\ rotate_deal_tag v = None).
    { intros H. apply IH in H as (Hr & v & Hv & Hn).
      split; [exact Hr|]. exists v.
      split; [now apply elem_of_cons; right|exact Hn]. }
    assert (Hdown : forall v, (py "Deal", v) ∈ tags ->
                    rotate_deal_tag v = None -> do_rotate = true ->
                    meta_lines event_name do_rotate tags = None).
    { intros v Hv Hn Hr. apply IH. now eauto. }
    destruct (str_eqb tag (py "Event")) eqn:Ee.
    + apply str_eqb_eq in Ee. subst tag.
      destruct (meta_lines event_name do_rotate tags) as [ls|].
      * split; [discriminate|]. intros (Hr & v & Hv & Hn).
        apply elem_of_cons in Hv as [Hv|Hv]; [discriminate Hv|].
        exfalso. enough (X : Some ls = None) by discriminate X.
        now apply (Hdown v).
      * split; [|reflexivity]. intros _. now apply Hup.
    + destruct (str_eqb tag (py "Deal")) eqn:Ed.
      * apply str_eqb_eq in Ed. subst tag.
        destruct do_rotate; cbn [andb].
        -- destruct (rotate_deal_tag value) as [v'|] eqn:Er.
           ++ destruct (meta_lines event_name true tags) as [ls|].
              ** split; [discriminate|]. intros (_ & v & Hv & Hn).
                 apply elem_of_cons in Hv as [Hv|Hv].
                 --- injection Hv as ->. congruence.
                 --- exfalso. enough (X : Some ls = None) by discriminate X.
        now apply (Hdown v).
              ** split; [|reflexivity]. intros _. now apply Hup.
           ++ split; [|reflexivity]. intros _. split; [reflexivity|].
              exists value. split; [now apply elem_of_cons; left|exact Er].
        -- destruct (meta_lines event_name false tags) as [ls|].
           ++ split; [discriminate|]. now intros [Hr _].
           ++ split; [|reflexivity]. intros _. now apply Hup.
      * apply str_eqb_false in Ed. cbn [andb].
        destruct (meta_lines event_name do_rotate tags) as [ls|].
        -- split; [discriminate|]. intros (Hr & v & Hv & Hn).
           apply elem_of_cons in Hv as [Hv|Hv]; [congruence|].
           exfalso. enough (X : Some ls = None) by discriminate X.
        now apply (Hdown v).
        -- split; [|reflexivity]. intros _. now apply Hup.
Qed.

Lemma parse_auction_bids_none (auction_lines : list str) (dealer : str) :
  short_tokens auction_lines = true ->
  parse_auction_bids auction_lines dealer = None <-> dealer ∉ SEATS.
Proof.
  intros Hs. unfold parse_auction_bids.
  destruct (index_of_str dealer SEATS) as [idx|] eqn:E.
  - destruct (bids_loop_short idx _ Hs 0) as [bids ->].
    split; [discriminate|]. intros H. exfalso. apply H.
    apply index_of_str_some in E. now apply list_elem_of_lookup_2 in E.
  - split; [|reflexivity]. intros _. now apply index_of_str_none.
Qed.

Lemma lesson_board_none (event_name skill_path : str) (do_rotate : bool)
    (board : board_rec) :
  short_tokens (auction_lines board) = true ->
  lesson_board event_name skill_path do_rotate board = None
  <-> lesson_board_fails do_rotate board.
Proof.
  intros Hs. unfold lesson_board, lesson_board_fails.
  destruct (meta_lines event_name do_rotate (meta_tags board)) as [metas|]
    eqn:Em.
  - assert (Hm : ~ (do_rotate = true
                    /\ exists value, (py "Deal", value) ∈ meta_tags board
                         /\ forall c, head value = Some c -> [c] ∉ SEATS)).
    { intros (Hr & v & Hv & Hn).
      assert (H : meta_lines event_name do_rotate (meta_tags board) = None).
      { apply meta_lines_none. split; [exact Hr|]. exists v.
        split; [exact Hv|]. now apply rotate_deal_tag_none. }
      congruence. }
    unfold lesson_dealer. destruct do_rotate.
    + destruct (rotate_seat (auction_dealer board)) as [d'|] eqn:Er.
      * pose proof Er as Er'.
        apply rotate_seat_some in Er as (idx & _ & Hd & Hd').
        assert (Hin : d' ∈ SEATS) by now apply list_elem_of_lookup_2 in Hd'.
        destruct (parse_auction_bids (auction_lines board) d') as [bids|]
          eqn:Ep.
        -- split; [discriminate|]. intros [H|H]; [|now apply Hm in H].
           exfalso. apply H. now apply list_elem_of_lookup_2 in Hd.
        -- apply (parse_auction_bids_none _ _ Hs) in Ep. contradiction.
      * split; [|reflexivity]. intros _. left.
        now apply rotate_seat_none_iff.
    + destruct (parse_auction_bids (auction_lines board)
                  (auction_dealer board)) as [bids|] eqn:Ep.
      * split; [discriminate|]. intros [H|H]; [|now apply Hm in H].
        apply (parse_auction_bids_none (auction_lines board) _ Hs) in H.
        congruence.
      * split; [|reflexivity]. intros _. left.
        now apply (parse_auction_bids_none _ _ Hs) in Ep.
  - split; [|reflexivity]. intros _.
    apply meta_lines_none in Em as (Hr & v & Hv & Hn).
    right. split; [exact Hr|]. exists v. split; [exact Hv|].
    now apply rotate_deal_tag_none.
Qed.

Lemma lesson_boards_none (event_name skill_path rotate : str)
    (boards : list board_rec) :
  Forall (fun board => short_tokens (auction_lines board) = true) boards ->
  forall k0,
    lesson_boards event_name skill_path rotate k0 boards = None
    <-> exists k board,
          boards !! k = Some board
          /\ lesson_board_fails (do_rotate_at rotate (k0 + k)) board.
Proof.
  induction 1 as [|b boards Hb Hbs IH]; intros k0.
  - split; [discriminate|]. now intros (k & board & H & _).
  - cbn [lesson_boards].
    destruct (lesson_board event_name skill_path (do_rotate_at rotate k0) b)
      as [text|] eqn:Eb.
    + destruct (lesson_boards event_name skill_path rotate (S k0) boards)
        as [rest|] eqn:Er.
      * split; [discriminate|]. intros (k & board & Hk & Hf).
        destruct k as [|k].
        -- injection Hk as <-. rewrite Nat.add_0_r in Hf.
           apply (lesson_board_none event_name skill_path _ _ Hb) in Hf.
           congruence.
        -- cbn in Hk.
           assert (H : lesson_boards event_name skill_path rotate (S k0)
                         boards = None).
           { apply IH. exists k, board. split; [exact Hk|].
             now replace (S k0 + k)%nat with (k0 + S k)%nat by lia. }
           congruence.
      * split; [|reflexivity]. intros _.
        apply IH in Er as (k & board & Hk & Hf).
        exists (S k), board. split; [exact Hk|].
        now replace (k0 + S k)%nat with (S k0 + k)%nat by lia.
    + split; [|reflexivity]. intros _.
      exists 0%nat, b. split; [reflexivity|].
      rewrite Nat.add_0_r. now apply (lesson_board_none _ _ _ _ Hb) in Eb.
Qed.

(** X6: [write_lesson_pbn] fails exactly on a board that it cannot seat,
    footnote numbers too long for [int] apart.  Take boards whose auction
    lines hold no token of more than 4300 characters.  Then the function
    raises an exception (and leaves the file unfinished) if and only if
    some board has a dealer that is none of [N], [E], [S], [W], or is
    rotated ([rotate] is ['all'], or ['alternate'] and the board has an odd
    index, counted from 0) and has a [Deal] tag whose value is empty or
    starts with no seat letter.  The event name, the skill path, the notes
    and the commentary never make it fail. *)
Theorem write_lesson_pbn_fails_iff (boards : list board_rec)
    (event_name skill_path rotate : str) :
  Forall (fun board => short_tokens (auction_lines board) = true) boards ->
  write_lesson_pbn boards event_name skill_path rotate = None
  <-> exists k board,
        boards !! k = Some board
        /\ lesson_board_fails (do_rotate_at rotate k) board.
Proof.
  intros Hs. unfold write_lesson_pbn.
  rewrite <- (lesson_boards_none event_name skill_path rotate boards Hs 0).
  destruct (lesson_boards event_name skill_path rotate 0 boards);
    split; congruence.
Qed.

Lemma write_lesson_pbn_fails_iff_witness :
  write_lesson_pbn
    [Board [(py "Board", py "1")] (py "N") [py "1C Pass"] ∅ [] [];
     Board [(py "Board", py "2")] (py "Q") [py "1C =1= Pass"] ∅ [] []]
    (py "Lesson") (py "precision") (py "none") = None
  <-> exists k board,
        [Board [(py "Board", py "1")] (py "N") [py "1C Pass"] ∅ [] [];
         Board [(py "Board", py "2")] (py "Q") [py "1C =1= Pass"] ∅ [] []]
          !! k = Some board
        /\ lesson_board_fails (do_rotate_at (py "none") k) board.
Proof.
  apply (write_lesson_pbn_fails_iff
           [Board [(py "Board", py "1")] (py "N") [py "1C Pass"] ∅ [] [];
            Board [(py "Board", py "2")] (py "Q") [py "1C =1= Pass"] ∅ [] []]).
  repeat constructor.
Defined.

(** ** The reader of the deal file: [parse_pbn_boards] *)

Lemma contains_char (c : char) (s : str) :
  contains [c] s = existsb (fun a => (a =? c)%N) s.
Proof.
  induction s as [|a s IH]; [reflexivity|].
  cbn [contains startswith existsb]. rewrite IH, andb_true_r.
  now rewrite (N.eqb_sym c a).
Qed.

Lemma index_of_none (c : char) (s : str) :
  index_of c s = None <-> existsb (fun a => (a =? c)%N) s = false.
Proof.
  induction s as [|a s IH]; [now split|].
  cbn [index_of existsb]. destruct (a =? c)%N; [now split|].
  cbn [orb]. rewrite <- IH. now destruct (index_of c s).
Qed.

Lemma existsb_rev {A : Type} (p : A -> bool) (l : list A) :
  existsb p (rev l) = existsb p l.
Proof.
  induction l as [|a l IH]; [reflexivity|].
  cbn [rev existsb]. rewrite existsb_app, IH. cbn [existsb].
  rewrite orb_false_r. apply orb_comm.
Qed.

Lemma rindex_of_none (c : char) (s : str) :
  rindex_of c s = None <-> existsb (fun a => (a =? c)%N) s = false.
Proof.
  unfold rindex_of. rewrite <- (existsb_rev _ s), <- index_of_none.
  now destruct (index_of c (rev s)).
Qed.

(** The only exception of a round of the loop is that of
    [line.index(' ')]. *)
Lemma pbn_line_none (st : pbn_state) (line : str) :
  pbn_line st line = None <-> bad_tag_line line = true.
Proof.
  unfold pbn_line, bad_tag_line.
  destruct (strip line) as [|c s] eqn:E; [now split|].
  destruct (startswith (py "[") (c :: s)); [|now split].
  destruct (contains QUOTE (c :: s)) eqn:Eq; [|now split].
  cbn [andb].
  unfold QUOTE in Eq. rewrite contains_char in Eq.
  destruct (index_of 32 (c :: s)) as [tag_end|] eqn:Es.
  - assert (Hs : existsb (fun a => (a =? 32)%N) (c :: s) = true).
    { destruct (existsb (fun a => (a =? 32)%N) (c :: s)) eqn:Ex;
        [reflexivity|]. apply index_of_none in Ex. congruence. }
    rewrite Hs.
    destruct (index_of 34 (c :: s)) as [first|] eqn:E1.
    2:{ apply index_of_none in E1. congruence. }
    destruct (rindex_of 34 (c :: s)) as [last|] eqn:E2.
    2:{ apply rindex_of_none in E2. congruence. }
    now split.
  - apply index_of_none in Es. rewrite Es. now split.
Qed.

Lemma pbn_lines_none (lines : list str) : forall st,
  pbn_lines st lines = None
  <-> Exists (fun line => bad_tag_line line = true) lines.
Proof.
  induction lines as [|line lines IH]; intros st.
  - split; [discriminate|]. intros H. inversion H.
  - cbn [pbn_lines]. destruct (pbn_line st line) as [st'|] eqn:E.
    + rewrite IH. split; [now right|]. intros H.
      inversion H as [? ? Hb|]; subst; [|assumption].
      apply (pbn_line_none st) in Hb. congruence.
    + split; [|reflexivity]. intros _. left.
      now apply (pbn_line_none st).
Qed.

(** X7: [parse_pbn_boards] fails exactly on a tag line without space.
    It raises the [ValueError] of [line.index(' ')] if and only if some
    line of the file, stripped, starts with an opening bracket, holds a
    double quote and holds no space; every other text is read to its
    end. *)
Theorem parse_pbn_boards_fails_iff (content : str) :
  parse_pbn_boards content = None
  <-> Exists (fun line => bad_tag_line line = true) (file_lines content).
Proof.
  unfold parse_pbn_boards.
  rewrite <- (pbn_lines_none (file_lines content) (PbnState ∅ ∅)).
  destruct (pbn_lines (PbnState ∅ ∅) (file_lines content));
    split; congruence.
Qed.

(** *** Reading tag lines back *)

Lemma file_lines_loop_line (l : str) : forall cur rest,
  forallb not_newline l = true ->
  file_lines_loop (l ++ NL ++ rest) cur
  = (cur ++ l ++ NL) :: file_lines_loop rest [].
Proof.
  induction l as [|c l IH]; intros cur rest Hl.
  - reflexivity.
  - cbn in Hl. apply andb_prop in Hl as [Hc Hl].
    unfold not_newline in Hc. apply negb_true_iff in Hc.
    cbn [app file_lines_loop]. rewrite Hc, IH by exact Hl.
    now rewrite <- app_assoc.
Qed.

Lemma file_lines_unlines (ls : list str) (rest : str) :
  Forall (fun l => forallb not_newline l = true) ls ->
  file_lines (unlines ls ++ rest)
  = map (fun l => l ++ NL) ls ++ file_lines rest.
Proof.
  unfold file_lines. induction 1 as [|l ls Hl Hls IH]; [reflexivity|].
  rewrite unlines_cons, <- !app_assoc.
  rewrite file_lines_loop_line by exact Hl. cbn [map app]. now rewrite IH.
Qed.

Lemma strip_line (l : str) : tight l = true -> strip (l ++ NL) = l.
Proof.
  intros H. pose proof (tight_strip l H) as Hs.
  unfold tight in H. apply andb_prop in H as [Hh _].
  destruct l as [|c s]; [discriminate|]. apply negb_true_iff in Hh.
  unfold strip, lstrip, rstrip, rstrip_by in Hs |- *.
  rewrite (lstrip_by_head _ _ _ Hh) in Hs.
  change ((c :: s) ++ NL) with (c :: s ++ NL).
  rewrite (lstrip_by_head _ _ _ Hh).
  change (c :: s ++ NL) with ((c :: s) ++ NL).
  rewrite rev_app_distr.
  change (rev NL ++ rev (c :: s)) with (10%N :: rev (c :: s)).
  change (lstrip_by isspace (10%N :: rev (c :: s)))
    with (lstrip_by isspace (rev (c :: s))).
  exact Hs.
Qed.

Lemma index_of_skip (c : char) (u : str) (t : str) :
  forallb (fun a => negb (a =? c)%N) u = true ->
  index_of c (u ++ c :: t) = Some (length u).
Proof.
  induction u as [|a u IH]; intros Hu.
  - cbn. now rewrite N.eqb_refl.
  - cbn in Hu. apply andb_prop in Hu as [Ha Hu].
    apply negb_true_iff in Ha. cbn [app index_of length].
    now rewrite Ha, IH.
Qed.

Lemma pbn_name_ok_inv (name : str) :
  pbn_name_ok name = true ->
  forallb (fun a => negb (a =? 32)%N) name = true
  /\ forallb (fun a => negb (a =? 34)%N) name = true
  /\ forallb not_newline name = true.
Proof.
  unfold pbn_name_ok, not_newline. rewrite !forallb_forall.
  intros H. repeat split; intros c Hc; specialize (H c Hc);
    apply andb_prop in H as [H H3]; apply andb_prop in H as [H1 H2];
    assumption.
Qed.

(** A written tag line is read back as its name and its value. *)
Lemma pbn_line_tag (st : pbn_state) (name value : str) :
  pbn_name_ok name = true ->
  pbn_line st (tag_line name value ++ NL)
  = Some (PbnState (pb_boards st) (<[name := value]> (current_tags st))).
Proof.
  intros Hn. apply pbn_name_ok_inv in Hn as (H32 & H34 & _).
  unfold pbn_line. rewrite strip_line by apply tag_line_tight.
  rewrite tag_line_eq. norm_lits. cbn [startswith andb N.eqb Pos.eqb].
  assert (Hq : contains QUOTE (91%N :: name ++ 32%N :: 34%N :: value
                                  ++ [34; 93]%N) = true).
  { unfold QUOTE. rewrite contains_char. cbn [existsb].
    rewrite existsb_app. cbn [existsb].
    change (34 =? 34)%N with true. now rewrite !orb_true_r. }
  rewrite Hq.
  assert (E32 : index_of 32 (91%N :: name ++ 32%N :: 34%N :: value
                               ++ [34; 93]%N) = Some (S (length name))).
  { apply (index_of_skip 32 (91%N :: name)). cbn [forallb].
    now rewrite H32. }
  assert (E34 : index_of 34 (91%N :: name ++ 32%N :: 34%N :: value
                               ++ [34; 93]%N) = Some (length name + 2)%nat).
  { replace (91%N :: name ++ 32%N :: 34%N :: value ++ [34; 93]%N)
      with ((91%N :: name ++ [32%N]) ++ 34%N :: value ++ [34; 93]%N)
      by (cbn [app]; now rewrite <- app_assoc).
    rewrite index_of_skip.
    - cbn [length]. rewrite length_app. cbn [length]. f_equal. lia.
    - cbn [forallb]. rewrite forallb_app, H34. reflexivity. }
  assert (R34 : rindex_of 34 (91%N :: name ++ 32%N :: 34%N :: value
                                ++ [34; 93]%N)
                = Some (length name + length value + 3)%nat).
  { unfold rindex_of.
    replace (91%N :: name ++ 32%N :: 34%N :: value ++ [34; 93]%N)
      with ((91%N :: name ++ 32%N :: 34%N :: value) ++ [34; 93]%N)
      by (cbn [app]; rewrite <- !app_assoc; reflexivity).
    rewrite rev_app_distr. cbn [rev app index_of].
    change (93 =? 34)%N with false. change (34 =? 34)%N with true.
    cbv iota. cbn [option_map]. f_equal. cbn [length].
    rewrite !length_app. cbn [length]. lia. }
  rewrite E32, E34, R34.
  assert (Sn : slice 1 (S (length name))
                 (91%N :: name ++ 32%N :: 34%N :: value ++ [34; 93]%N)
               = name).
  { unfold slice. cbn [drop skipn].
    replace (S (length name) - 1)%nat with (length name) by lia.
    now rewrite drop_0, take_app_length. }
  assert (Sv : slice (length name + 2 + 1) (length name + length value + 3)
                 (91%N :: name ++ 32%N :: 34%N :: value ++ [34; 93]%N)
               = value).
  { unfold slice.
    replace (91%N :: name ++ 32%N :: 34%N :: value ++ [34; 93]%N)
      with ((91%N :: name ++ [32; 34]%N) ++ value ++ [34; 93]%N)
      by (cbn [app]; rewrite <- !app_assoc; reflexivity).
    replace (length name + 2 + 1)%nat
      with (length (91%N :: name ++ [32; 34]%N))
      by (cbn [length]; rewrite length_app; cbn [length]; lia).
    rewrite drop_app_length.
    replace (length name + length value + 3
             - length (91%N :: name ++ [32; 34]%N))%nat
      with (length value)
      by (cbn [length]; rewrite length_app; cbn [length]; lia).
    now rewrite take_app_length. }
  now rewrite Sn, Sv.
Qed.

Lemma pbn_line_blank (st : pbn_state) :
  pbn_line st ([] ++ NL) = Some (close_block st).
Proof. reflexivity. Qed.

Lemma pbn_lines_app (a b : list str) : forall st,
  pbn_lines st (a ++ b)
  = match pbn_lines st a with
    | Some st' => pbn_lines st' b
    | None => None
    end.
Proof.
  induction a as [|l a IH]; intros st; [reflexivity|].
  cbn [app pbn_lines]. destruct (pbn_line st l); [apply IH|reflexivity].
Qed.

Lemma pbn_lines_tags (tags : list (str * str)) : forall st,
  block_ok tags = true ->
  pbn_lines st (map (fun l => l ++ NL)
                  (map (fun nv => tag_line (fst nv) (snd nv)) tags))
  = Some (PbnState (pb_boards st) (add_tags tags (current_tags st))).
Proof.
  induction tags as [|[name value] tags IH]; intros st Hok.
  - now destruct st.
  - cbn in Hok. apply andb_prop in Hok as [Hnv Hok].
    apply andb_prop in Hnv as [Hn _].
    cbn [map pbn_lines fst snd]. rewrite pbn_line_tag by exact Hn.
    now rewrite IH.
Qed.

Lemma block_lines_one_line (tags : list (str * str)) :
  block_ok tags = true ->
  Forall (fun l => forallb not_newline l = true)
    (map (fun nv => tag_line (fst nv) (snd nv)) tags ++ [[]]).
Proof.
  intros Hok. apply Forall_app. split; [|repeat constructor].
  apply Forall_forall. intros l Hl.
  apply list_elem_of_fmap in Hl as ([name value] & -> & Hnv).
  unfold block_ok in Hok. rewrite forallb_forall in Hok.
  specialize (Hok (name, value)).
  assert (Hin : In (name, value) tags) by now apply list_elem_of_In.
  apply Hok in Hin. cbn [fst snd] in *.
  apply andb_prop in Hin as [Hn Hv].
  apply pbn_name_ok_inv in Hn as (_ & _ & Hn).
  rewrite tag_line_eq. cbn [forallb]. rewrite forallb_app. cbn [forallb].
  rewrite forallb_app, Hn, Hv. reflexivity.
Qed.

(** A closed block of tag lines in front of a text is read as
    [read_block] says. *)
Lemma pbn_lines_block (tags : list (str * str)) (rest : str)
    (st : pbn_state) :
  block_ok tags = true ->
  pbn_lines st (file_lines (block_text tags ++ rest))
  = pbn_lines (read_block st tags) (file_lines rest).
Proof.
  intros Hok. unfold block_text.
  rewrite file_lines_unlines by now apply block_lines_one_line.
  rewrite map_app, <- app_assoc, pbn_lines_app.
  rewrite pbn_lines_tags by exact Hok.
  cbn [map app pbn_lines]. now rewrite pbn_line_blank.
Qed.

Lemma close_block_idem (st : pbn_state) :
  close_block (close_block st) = close_block st.
Proof.
  unfold close_block.
  destruct (current_tags st !! BOARD) as [number|] eqn:E.
  - cbn [current_tags]. now rewrite lookup_empty.
  - now rewrite E.
Qed.

Lemma pbn_lines_blocks (blocks : list (list (str * str))) : forall st,
  Forall (fun tags => block_ok tags = true) blocks ->
  pbn_lines st (file_lines (concat (map block_text blocks)))
  = Some (fold_left read_block blocks st).
Proof.
  induction blocks as [|tags blocks IH]; intros st Hok; [reflexivity|].
  inversion Hok as [|? ? Ht Hb]; subst.
  cbn [map concat fold_left]. rewrite pbn_lines_block by exact Ht.
  now apply IH.
Qed.

Lemma fold_read_block_closed (blocks : list (list (str * str))) : forall st,
  close_block st = st ->
  close_block (fold_left read_block blocks st) = fold_left read_block blocks st.
Proof.
  induction blocks as [|tags blocks IH]; intros st Hst; [exact Hst|].
  cbn [fold_left]. apply IH. apply close_block_idem.
Qed.

(** A file of closed blocks of tag lines is read block by block. *)
Lemma parse_pbn_boards_blocks (blocks : list (list (str * str))) :
  Forall (fun tags => block_ok tags = true) blocks ->
  parse_pbn_boards (concat (map block_text blocks))
  = Some (pb_boards (fold_left read_block blocks (PbnState ∅ ∅))).
Proof.
  intros Hok. unfold parse_pbn_boards.
  rewrite pbn_lines_blocks by exact Hok.
  now rewrite fold_read_block_closed.
Qed.

Lemma fold_read_block_filed (blocks : list (list (str * str))) :
  forall boards,
    Forall (fun tags => add_tags tags ∅ !! BOARD <> None) blocks ->
    fold_left read_block blocks (PbnState boards ∅)
    = PbnState (fold_left file_block blocks boards) ∅.
Proof.
  induction blocks as [|tags blocks IH]; intros boards Hb; [reflexivity|].
  inversion Hb as [|? ? Ht Hbs]; subst. cbn [fold_left].
  unfold read_block at 2, file_block at 2, close_block.
  cbn [pb_boards current_tags].
  destruct (add_tags tags ∅ !! BOARD) as [number|]; [|congruence].
  now apply IH.
Qed.

(** X8: [parse_pbn_boards] reads back what is written as blocks of tag
    lines.  For blocks of tags [[name "value"]], each closed by an empty
    line, whose names hold no space, double quote or line break, whose
    values hold no line break (they may hold double quotes and brackets),
    and each of which has a [Board] tag, the function returns the
    dictionary that holds, under the [Board] value of each block, the tags
    of the block; within a block the last tag of a name counts, and among
    blocks of the same number the last block. *)
Theorem parse_pbn_boards_reads_back (blocks : list (list (str * str))) :
  Forall (fun tags => block_ok tags = true) blocks ->
  Forall (fun tags => add_tags tags ∅ !! BOARD <> None) blocks ->
  parse_pbn_boards (concat (map block_text blocks))
  = Some (fold_left file_block blocks ∅).
Proof.
  intros Hok Hb. rewrite parse_pbn_boards_blocks by exact Hok.
  now rewrite fold_read_block_filed.
Qed.

Lemma parse_pbn_boards_reads_back_witness :
  let blocks := [[(py "Board", py "1"); (py "Dealer", py "N")];
                 [(py "Dealer", py "S"); (py "Board", py "2");
                  (py "Dealer", py "E")]] in
  parse_pbn_boards (concat (map block_text blocks))
  = Some (fold_left file_block blocks ∅)
  /\ fold_left file_block blocks ∅ !! py "2"
     = Some (add_tags [(py "Board", py "2"); (py "Dealer", py "E")] ∅).
Proof.
  split.
  - apply (parse_pbn_boards_reads_back
             [[(py "Board", py "1"); (py "Dealer", py "N")];
              [(py "Dealer", py "S"); (py "Board", py "2");
               (py "Dealer", py "E")]]).
    + repeat constructor.
    + repeat constructor; vm_compute; discriminate.
  - vm_compute. reflexivity.
Defined.

(** X9: a block without [Board] tag is not filed, and its tags stay.  For
    two closed blocks of tag lines of which the first has no [Board] tag
    and the two together have the [Board] value [number],
    [parse_pbn_boards] returns one board, [number], which holds the tags
    of both blocks: the empty line after the first block leaves the
    current dictionary as it is. *)
Theorem parse_pbn_boards_keeps_unfiled_tags (tags1 tags2 : list (str * str))
    (number : str) :
  block_ok tags1 = true -> block_ok tags2 = true ->
  add_tags tags1 ∅ !! BOARD = None ->
  add_tags (tags1 ++ tags2) ∅ !! BOARD = Some number ->
  parse_pbn_boards (block_text tags1 ++ block_text tags2)
  = Some {[ number := add_tags (tags1 ++ tags2) ∅ ]}.
Proof.
  intros H1 H2 Hn Hb.
  pose proof (parse_pbn_boards_blocks [tags1; tags2]) as H.
  cbn [map concat fold_left] in H. rewrite app_nil_r in H.
  rewrite H by (repeat constructor; assumption).
  assert (E1 : read_block (PbnState ∅ ∅) tags1
               = PbnState ∅ (add_tags tags1 ∅)).
  { unfold read_block, close_block. cbn [pb_boards current_tags].
    now rewrite Hn. }
  rewrite E1. unfold read_block, close_block. cbn [pb_boards current_tags].
  unfold add_tags in Hb |- *. rewrite fold_left_app in Hb. rewrite Hb.
  cbn [pb_boards]. rewrite fold_left_app. now rewrite insert_empty.
Qed.

Lemma parse_pbn_boards_keeps_unfiled_tags_witness :
  parse_pbn_boards (block_text [(py "Event", py "Club night")]
                    ++ block_text [(py "Board", py "7")])
  = Some {[ py "7" := add_tags [(py "Event", py "Club night");
                                (py "Board", py "7")] ∅ ]}.
Proof.
  apply (parse_pbn_boards_keeps_unfiled_tags
           [(py "Event", py "Club night")] [(py "Board", py "7")] (py "7"));
    vm_compute; reflexivity.
Defined.

(** ** Stage 2: references to another deal *)

Lemma raw_by_deal_skip (rows : list row2) (deal : str) :
  forall m : gmap str str,
  Forall (fun r => r2_deal r <> deal) rows ->
  fold_left (fun m row => <[r2_deal row := r2_auction row]> m) rows m !! deal
  = m !! deal.
Proof.
  induction rows as [|r rows IH]; intros m Hne; [reflexivity|].
  inversion Hne as [|? ? Hr Hrs]; subst.
  cbn [fold_left]. rewrite IH by exact Hrs. now apply lookup_insert_ne.
Qed.

(** The lookup table holds, for a deal, the auction of the last row of
    the deal. *)
Lemma raw_by_deal_last (rows1 rows2 : list row2) (target : row2) :
  Forall (fun r => r2_deal r <> r2_deal target) rows2 ->
  raw_by_deal (rows1 ++ target :: rows2) !! r2_deal target
  = Some (r2_auction target).
Proof.
  intros Hne. unfold raw_by_deal. rewrite fold_left_app. cbn [fold_left].
  rewrite raw_by_deal_skip by exact Hne. apply lookup_insert_eq.
Qed.

Lemma raw_by_deal_missing (rows : list row2) (deal : str) :
  Forall (fun r => r2_deal r <> deal) rows -> raw_by_deal rows !! deal = None.
Proof.
  intros Hne. unfold raw_by_deal. rewrite raw_by_deal_skip by exact Hne.
  apply lookup_empty.
Qed.

Lemma ref_num_of_like (deal : str) :
  forallb (fun x => negb (x =? 35)%N) deal = true -> strip deal = deal ->
  ref_num_of (LIKE ++ deal) = deal.
Proof.
  intros Hd Hs. unfold ref_num_of, split_char, LIKE.
  cbn [app split_char_loop N.eqb Pos.eqb].
  rewrite <- (app_nil_r deal) at 1.
  rewrite split_char_loop_piece by exact Hd. cbn. exact Hs.
Qed.

(** X10: a row ['Like #N'] of Stage 2 is written with the expansion of the
    raw auction of deal [N], taken from the last row of that deal in the
    table, wherever that row stands (before or after the referring row),
    and as that row gives it: a reference in it is not followed.  [N] is
    a deal id without [#] and without white space at its ends.  The deal
    id and the notes of the referring row are kept. *)
Theorem stage2_like_reference (rows1 rows2 : list row2) (target row : row2)
    (k : nat) :
  let rows := rows1 ++ target :: rows2 in
  Forall (fun r => r2_deal r <> r2_deal target) rows2 ->
  forallb (fun x => negb (x =? 35)%N) (r2_deal target) = true ->
  strip (r2_deal target) = r2_deal target ->
  rows !! k = Some row ->
  r2_auction row = LIKE ++ r2_deal target ->
  stage2 rows !! k
  = Some (Row2 (r2_deal row) (expand_auction (r2_auction target))
               (r2_notes row)).
Proof.
  intros rows Hne Hd Hs Hk Ha. unfold stage2.
  rewrite list_lookup_fmap, Hk. cbn [fmap option_fmap option_map].
  unfold stage2_row, resolve_like. rewrite Ha, startswith_app.
  rewrite ref_num_of_like by assumption.
  unfold rows. now rewrite raw_by_deal_last.
Qed.

Lemma stage2_like_reference_witness :
  stage2 [Row2 (py "1") (py "Like #2") (py "a");
          Row2 (py "2") (py "1C - 1D") (py "b");
          Row2 (py "2") (py "Like #1") (py "c")] !! 0%nat
  = Some (Row2 (py "1") (expand_auction (py "Like #1")) (py "a")).
Proof.
  apply (stage2_like_reference
           [Row2 (py "1") (py "Like #2") (py "a");
            Row2 (py "2") (py "1C - 1D") (py "b")] []
           (Row2 (py "2") (py "Like #1") (py "c"))
           (Row2 (py "1") (py "Like #2") (py "a")) 0).
  - constructor.
  - reflexivity.
  - vm_compute. reflexivity.
  - reflexivity.
  - reflexivity.
Defined.

(** X11: a reference to a deal that the table does not have is expanded
    as if it were an auction.  When no row has the deal id that a row
    ['Like #...'] refers to, Stage 2 writes for the row the expansion of
    its own text. *)
Theorem stage2_like_missing (rows : list row2) (row : row2) (k : nat) :
  rows !! k = Some row ->
  startswith LIKE (r2_auction row) = true ->
  Forall (fun r => r2_deal r <> ref_num_of (r2_auction row)) rows ->
  stage2 rows !! k
  = Some (Row2 (r2_deal row) (expand_auction (r2_auction row))
               (r2_notes row)).
Proof.
  intros Hk Hl Hne. unfold stage2.
  rewrite list_lookup_fmap, Hk. cbn [fmap option_fmap option_map].
  unfold stage2_row, resolve_like. rewrite Hl.
  now rewrite raw_by_deal_missing.
Qed.

Lemma stage2_like_missing_witness :
  stage2 [Row2 (py "1") (py "1C - 1D") []; Row2 (py "2") (py "Like #9") []]
    !! 1%nat
  = Some (Row2 (py "2") (expand_auction (py "Like #9")) [])
  /\ expand_auction (py "Like #9") = py "Like #9 Pass Pass Pass".
Proof.
  split; [|vm_compute; reflexivity].
  apply (stage2_like_missing
           [Row2 (py "1") (py "1C - 1D") []; Row2 (py "2") (py "Like #9") []]
           (Row2 (py "2") (py "Like #9") []) 1).
  - reflexivity.
  - reflexivity.
  - repeat constructor; vm_compute; discriminate.
Defined.

(** ** [format_auction_lines]: the tokens *)

Lemma concat_words_group_bids (tokens : list str) :
  concat (map words (group_bids tokens)) = concat (map words tokens).
Proof.
  induction tokens as [|bid tl IH1 IH2] using by_one_or_two; [reflexivity|].
  cbn [group_bids]. destruct tl as [|nxt rest]; [reflexivity|].
  destruct (is_flag_token nxt).
  - cbn [map concat]. rewrite (IH2 nxt rest eq_refl).
    change (bid ++ py " " ++ nxt) with (bid ++ 32%N :: nxt).
    rewrite words_app by reflexivity. now rewrite <- app_assoc.
  - cbn [map concat]. now rewrite IH1.
Qed.

Lemma concat_words_chunk4_len (n : nat) : forall bids,
  (length bids <= n)%nat ->
  concat (map words (chunk4 bids)) = concat (map words bids).
Proof.
  induction n as [|n IH]; intros bids Hlen.
  - destruct bids; [reflexivity|simpl in Hlen; lia].
  - destruct bids as [|a [|b [|c [|d rest]]]]; [reflexivity|..];
      cbn [chunk4 map concat]; change (py " ") with [32%N].
    + reflexivity.
    + rewrite (words_join 32 [a; b]) by reflexivity.
      cbn [map concat]. now rewrite !app_nil_r.
    + rewrite (words_join 32 [a; b; c]) by reflexivity.
      cbn [map concat]. now rewrite !app_nil_r.
    + rewrite (words_join 32 [a; b; c; d]) by reflexivity.
      rewrite IH by (simpl in Hlen; lia).
      cbn [map concat]. now rewrite app_nil_r, <- !app_assoc.
Qed.

(** X12: [format_auction_lines] moves white space only.  The tokens of
    the text it returns are the tokens of the text it is given, in the
    same order, so that formatting a formatted auction changes nothing. *)
Theorem format_auction_lines_keeps_tokens (auction_str : str) :
  words (format_auction_lines auction_str) = words auction_str
  /\ format_auction_lines (format_auction_lines auction_str)
     = format_auction_lines auction_str.
Proof.
  assert (H : words (format_auction_lines auction_str) = words auction_str).
  { unfold format_auction_lines, auction_body_lines.
    change NL with [10%N]. rewrite words_join by reflexivity.
    rewrite (concat_words_chunk4_len _ _ (Nat.le_refl _)).
    rewrite concat_words_group_bids.
    apply concat_words_tokens, words_tokens. }
  split; [exact H|].
  unfold format_auction_lines at 1 3, auction_body_lines. now rewrite H.
Qed.

(** ** The commentary: one prompt for every call of South *)

Lemma call_line_subject (subject pass double redouble bids bid display : str) :
  exists rest,
    call_line subject pass double redouble bids bid display = subject ++ rest.
Proof.
  unfold call_line.
  destruct (str_eqb (upper bid) (py "PASS")); [now eexists|].
  destruct (str_eqb bid (py "X")); [now eexists|].
  destruct (str_eqb bid (py "XX")); [now eexists|].
  eexists. reflexivity.
Qed.

(** The prompt for a bid *)
Lemma prompt_is_prompt (display : str) :
  is_prompt (py "What will you bid now? [BID " ++ display ++ py "]") = true.
Proof. apply (startswith_app PROMPT). Qed.

(** What a round of the loop adds to the lines, and the prompts in it. *)
Lemma commentary_step_adds (notes : gmap N str) (lines : list str)
    (b : str * str * option N) :
  exists added,
    commentary_step notes lines b = lines ++ added
    /\ List.filter is_prompt added
       = if is_south b
         then [PROMPT ++ format_bid_display (snd (fst b)) ++ py "]"]
         else [].
Proof.
  destruct b as [[seat bid] note_num]. unfold commentary_step, is_south.
  cbn [fst snd].
  destruct (str_eqb seat (py "N")) eqn:EN.
  - apply str_eqb_eq in EN. subst seat. eexists. split; [reflexivity|].
    destruct (call_line_subject (py "North") (py " passes") (py " doubles")
                (py " redoubles") (py " bids ") bid (format_bid_display bid))
      as [rest ->].
    reflexivity.
  - destruct (str_eqb seat (py "S")) eqn:ES.
    + eexists. split; [reflexivity|].
      destruct (call_line_subject (py "You") (py " pass") (py " double")
                  (py " redouble") (py " bid ") bid (format_bid_display bid))
        as [rest ->].
      cbn [List.filter]. rewrite prompt_is_prompt. reflexivity.
    + destruct (str_eqb seat (py "E") || str_eqb seat (py "W"));
        [|exists []; split; [now rewrite app_nil_r|reflexivity]].
      destruct (negb (str_eqb (upper bid) (py "PASS")));
        [|exists []; split; [now rewrite app_nil_r|reflexivity]].
      destruct (str_eqb bid (py "X")).
      { eexists. split; [reflexivity|]. now destruct (str_eqb seat (py "E")). }
      destruct (str_eqb bid (py "XX")).
      { eexists. split; [reflexivity|]. now destruct (str_eqb seat (py "E")). }
      eexists. split; [reflexivity|]. now destruct (str_eqb seat (py "E")).
Qed.

Lemma commentary_fold_prompts (notes : gmap N str)
    (bids : list (str * str * option N)) : forall lines,
  List.filter is_prompt (fold_left (commentary_step notes) bids lines)
  = List.filter is_prompt lines
    ++ map (fun b => PROMPT ++ format_bid_display (snd (fst b)) ++ py "]")
           (List.filter is_south bids).
Proof.
  induction bids as [|b bids IH]; intros lines.
  - cbn [fold_left List.filter map]. now rewrite app_nil_r.
  - cbn [fold_left]. rewrite IH.
    destruct (commentary_step_adds notes lines b) as (added & -> & Hc).
    rewrite List.filter_app, Hc, <- app_assoc. f_equal.
    cbn [List.filter]. now destruct (is_south b).
Qed.

(** X13: the commentary asks for a bid once for every call of South.  In
    the list [lines] that the loop of [generate_south_commentary] builds,
    the elements that start with ['What will you bid now? [BID '] are, in
    order, the prompts for the bids whose seat is [S], each with the
    display form of its call; so their number is the number of these bids,
    whatever the calls, the footnotes and the other seats are.  (The
    elements are joined with line feeds: each is one line of the
    commentary unless a call or a footnote holds a line feed itself.) *)
Theorem commentary_one_prompt_per_south_call (notes : gmap N str)
    (bids : list (str * str * option N)) :
  List.filter is_prompt (commentary_lines notes bids)
  = map (fun b => PROMPT ++ format_bid_display (snd (fst b)) ++ py "]")
        (List.filter is_south bids)
  /\ count_if is_prompt (commentary_lines notes bids)
     = count_if is_south bids.
Proof.
  assert (H : List.filter is_prompt (commentary_lines notes bids)
              = map (fun b => PROMPT ++ format_bid_display (snd (fst b))
                              ++ py "]")
                    (List.filter is_south bids)).
  { unfold commentary_lines. now rewrite commentary_fold_prompts. }
  split; [exact H|].
  unfold count_if. now rewrite H, length_map.
Qed.

(** ** Suit symbols: texts without suit letter *)

Lemma free_without_suit (r : regex) :
  (forall before s m, match_at r before s = Some m ->
                      existsb is_suit s = true) ->
  forall s before, existsb is_suit s = false -> free r before s.
Proof.
  intros Hr s. induction s as [|c s IH]; intros before Hs; [exact I|].
  split.
  - destruct (match_at r before (c :: s)) as [m|] eqn:E; [|reflexivity].
    apply Hr in E. congruence.
  - apply IH. cbn in Hs. now apply orb_false_elim in Hs as [_ Hs].
Qed.

Lemma match_count_suit (before : option char) (s : str) (m : mstate) :
  match_at RULE_COUNT before s = Some m -> existsb is_suit s = true.
Proof.
  intros H.
  apply match_count_some in H as (d & run & X & t & -> & _ & _ & HX & _).
  cbn [existsb]. rewrite existsb_app. cbn [existsb]. rewrite HX.
  now rewrite !orb_true_r.
Qed.

Lemma match_pair_suit (P : char -> bool) (before : option char) (s : str)
    (m : mstate) :
  match_at (RULE_PAIR P) before s = Some m -> existsb is_suit s = true.
Proof.
  rewrite match_pair. destruct s as [|A [|X t]]; try discriminate.
  destruct (P A); [|discriminate].
  destruct (is_suit X) eqn:HX; [|discriminate]. intros _.
  cbn [existsb]. rewrite HX. now rewrite orb_true_r.
Qed.

Lemma match_keycard_suit (before : option char) (s : str) (m : mstate) :
  match_at RULE_KEYCARD before s = Some m -> existsb is_suit s = true.
Proof.
  intros H. apply match_keycard_some in H as (X & t & -> & HX & _).
  cbn [existsb]. now rewrite HX.
Qed.

Lemma match_for_suit (before : option char) (s : str) (m : mstate) :
  match_at RULE_FOR before s = Some m -> existsb is_suit s = true.
Proof.
  intros H. apply match_for_some in H as (X & t & -> & HX & _).
  rewrite existsb_app. cbn [existsb]. rewrite HX. now rewrite orb_true_r.
Qed.

(** X14: [add_suit_symbols] leaves a text without suit letter as it is.
    A text in which none of the capital letters [C], [D], [H], [S] occurs
    comes back unchanged: each of the five rules needs one of them. *)
Theorem add_suit_symbols_without_suit_letter (text : str) :
  existsb is_suit text = false -> add_suit_symbols text = text.
Proof.
  intros H. apply add_suit_symbols_free.
  - exact (free_without_suit _ match_count_suit text None H).
  - exact (free_without_suit _ (match_pair_suit is_rank) text None H).
  - exact (free_without_suit _ (match_pair_suit is_digit) text None H).
  - exact (free_without_suit _ match_keycard_suit text None H).
  - exact (free_without_suit _ match_for_suit text None H).
Qed.

Lemma add_suit_symbols_without_suit_letter_witness :
  add_suit_symbols (py "1:shows 4+ diamonds, 5 hcp for game")
  = py "1:shows 4+ diamonds, 5 hcp for game".
Proof.
  apply (add_suit_symbols_without_suit_letter
           (py "1:shows 4+ diamonds, 5 hcp for game")).
  vm_compute. reflexivity.
Defined.

(** ** Footnote extraction: a parenthesis that is not closed *)

Lemma scan_close_plain (body : str) : forall d,
  (0 < d)%Z -> paren_free body = true -> scan_close body d = body.
Proof.
  induction body as [|c body IH]; intros d Hd Hb; [reflexivity|].
  cbn in Hb. apply andb_prop in Hb as [Hc Hb].
  apply andb_prop in Hc as [Hl Hr].
  apply negb_true_iff in Hl. apply negb_true_iff in Hr.
  cbn [scan_close]. rewrite Hl, Hr.
  replace (0 <? d)%Z with true by (symmetry; now apply Z.ltb_lt).
  f_equal. now apply IH.
Qed.

(** X15: a parenthesis that is never closed costs its footnote the last
    character.  For a text without parentheses followed by an opening
    parenthesis and a text without parentheses, [extract_bid_notes]
    returns one footnote, whose text is what follows the parenthesis less
    its last character, and puts the flag [=1=] where the parenthesis
    was. *)
Theorem extract_bid_notes_unclosed (pre body : str) :
  paren_free pre = true -> paren_free body = true ->
  extract_bid_notes (pre ++ LPAREN :: body)
  = (strip (collapse_spaces (rstrip pre ++ flag 1)),
     note_entry 1 (removelast body)).
Proof.
  intros Hp Hb. unfold extract_bid_notes.
  rewrite extract_loop_text by exact Hp.
  cbn [extract_loop]. rewrite N.eqb_refl.
  rewrite scan_close_plain by (try lia; exact Hb).
  rewrite <- (app_nil_r body) at 1. rewrite extract_loop_skip.
  reflexivity.
Qed.

Lemma extract_bid_notes_unclosed_witness :
  extract_bid_notes (py "1C Pass 2D (game forcing")
  = (py "1C Pass 2D =1=", py "1:game forcin").
Proof.
  apply (extract_bid_notes_unclosed (py "1C Pass 2D ") (py "game forcing"));
    reflexivity.
Defined.

(** ** [parse_boards]: the documents on which it fails *)

Lemma note_match_none (value : str) :
  note_match value = None
  <-> match re_match RULE_NOTE value with
      | Some m => (INT_MAX_STR_DIGITS <? N.of_nat (length (group m 1)))%N
      | None => false
      end = true.
Proof.
  unfold note_match, int_of_str.
  destruct (re_match RULE_NOTE value) as [m|]; [|split; discriminate].
  destruct (INT_MAX_STR_DIGITS <? N.of_nat (length (group m 1)))%N;
    split; (reflexivity || discriminate).
Qed.

(** With a current board, a line is read unless it is a footnote whose
    number is too long. *)
Lemma parse_line_current (st : pstate) (line : str) (cur : board_rec) :
  p_current st = Some cur ->
  if note_overflows line then parse_line st line = None
  else exists st' cur',
         parse_line st line = Some st' /\ p_current st' = Some cur'.
Proof.
  intros Hc. unfold parse_line, note_overflows.
  destruct (startswith (py "%") (strip line)); cbn [negb andb];
    [now eauto|].
  destruct (tag_match (strip line)) as [[tag value]|].
  - unfold parse_tag.
    destruct (str_eqb tag (py "Note")) eqn:En; cbn [andb].
    + apply str_eqb_eq in En. subst tag.
      change (str_eqb (py "Note") (py "Event")) with false.
      change (str_eqb (py "Note") (py "Auction")) with false.
      cbv iota. rewrite Hc.
      pose proof (note_match_none value) as Hn.
      destruct (note_match value) as [nm|].
      * destruct (match re_match RULE_NOTE value with
                  | Some m =>
                      (INT_MAX_STR_DIGITS <? N.of_nat (length (group m 1)))%N
                  | None => false
                  end);
          [exfalso; enough (X : Some nm = None) by discriminate X;
           now apply Hn
          |now eauto].
      * now rewrite (proj1 Hn eq_refl).
    + destruct (str_eqb tag (py "Event")); cbn [p_current];
        [|rewrite Hc];
        (destruct (str_eqb tag (py "Auction")); now eauto).
  - destruct (startswith (py "{") (strip line)); [now eauto|].
    destruct (in_commentary st); [now eauto|].
    destruct (in_auction st && negb (bool_decide (strip line = [])));
      [|now eauto].
    rewrite Hc. now eauto.
Qed.

Lemma parse_lines_current (lines : list str) : forall st cur,
  p_current st = Some cur ->
  parse_lines st lines = None <-> existsb note_overflows lines = true.
Proof.
  induction lines as [|line lines IH]; intros st cur Hc;
    [split; discriminate|].
  cbn [parse_lines existsb].
  pose proof (parse_line_current st line cur Hc) as H.
  destruct (note_overflows line).
  - rewrite H. now split.
  - destruct H as (st' & cur' & -> & Hc'). cbn [orb].
    now apply (IH st' cur').
Qed.

Lemma note_overflows_tag (line tag value : str) :
  tag_match (strip line) = Some (tag, value) ->
  str_eqb tag (py "Note") = false -> note_overflows line = false.
Proof.
  intros Ht Hn. unfold note_overflows. rewrite Ht, Hn.
  now rewrite andb_false_r.
Qed.

Lemma parse_lines_start (lines : list str) : forall st,
  p_current st = None -> in_auction st = false ->
  parse_lines st lines = None
  <-> (exists tag, first_tag lines = Some tag /\ tag <> py "Event")
      \/ existsb note_overflows lines = true.
Proof.
  induction lines as [|line lines IH]; intros st Hc Ha.
  - split; [discriminate|]. intros [(tag & H & _)|H]; discriminate H.
  - cbn [parse_lines first_tag existsb]. unfold parse_line.
    destruct (startswith (py "%") (strip line)) eqn:Ep.
    { replace (note_overflows line) with false
        by (unfold note_overflows; now rewrite Ep).
      now apply IH. }
    destruct (tag_match (strip line)) as [[tag value]|] eqn:Et.
    + unfold parse_tag. destruct (str_eqb tag (py "Event")) eqn:Ee.
      * apply str_eqb_eq in Ee. subst tag. cbn [p_current].
        change (str_eqb (py "Event") (py "Auction")) with false.
        change (str_eqb (py "Event") (py "Note")) with false.
        cbv iota.
        rewrite (note_overflows_tag line (py "Event") value Et eq_refl).
        cbn [orb].
        match goal with
        | |- context [parse_lines ?s lines] =>
            rewrite (parse_lines_current lines s
                       (add_meta new_board (py "Event") value) eq_refl)
        end.
        split; [now right|].
        intros [(tag & H & Hne)|H]; [|exact H].
        now injection H as <-.
      * rewrite Hc. split; [|reflexivity]. intros _. left. exists tag.
        split; [reflexivity|now apply str_eqb_false].
    + replace (note_overflows line) with false
        by (unfold note_overflows; now rewrite Ep, Et).
      destruct (startswith (py "{") (strip line)); [now apply IH|].
      destruct (in_commentary st); [now apply IH|].
      rewrite Ha. cbn [andb]. now apply IH.
Qed.

(** X16: [parse_boards] fails exactly on a document whose first tag is
    not [Event] or that holds a footnote number too long for [int].  It
    raises an exception if and only if the first line that matches the tag
    pattern, lines starting with [%] left aside, has a tag name other than
    [Event] ([current] is [None] when the tag is filed), or some line is a
    [Note] tag whose value starts with more than 4300 digits, a colon and
    a further character; a document without tag gives no board. *)
Theorem parse_boards_fails_iff (content : str) :
  parse_boards content = None
  <-> (exists tag, first_tag (split_char 10 content) = Some tag
                   /\ tag <> py "Event")
      \/ existsb note_overflows (split_char 10 content) = true.
Proof.
  unfold parse_boards.
  rewrite <- (parse_lines_start (split_char 10 content) init_pstate
                eq_refl eq_refl).
  destruct (parse_lines init_pstate (split_char 10 content));
    split; congruence.
Qed.

(** ** Stage 1: the deal blocks *)

Lemma blocks_loop_step (line : str) (lines : list str)
    (deal_blocks : list block) (current_block : option block)
    (blanks : nat) :
  blocks_loop (line :: lines) deal_blocks current_block blanks
  = match blocks_step line deal_blocks current_block blanks with
    | Next deal_blocks' current_block' blanks' =>
        blocks_loop lines deal_blocks' current_block' blanks'
    | Break => Some (deal_blocks, current_block)
    | Raise => None
    end.
Proof.
  cbn [blocks_loop]. unfold blocks_step.
  destruct (strip line) as [|c s].
  - destruct current_block as [b|]; [|reflexivity].
    now destruct (2 <=? S blanks)%nat.
  - destruct current_block as [b|].
    + destruct (re_match RULE_DEAL (c :: s)) as [m|]; [|reflexivity].
      destruct (int_of_str (group m 1)) as [n|]; [|reflexivity].
      now destruct (40 <? n)%N.
    + destruct deal_blocks as [|d ds]; [|reflexivity].
      destruct (re_match RULE_DEAL (c :: s)) as [m|]; [|reflexivity].
      destruct (int_of_str (group m 1)) as [n|]; [|reflexivity].
      now destruct (40 <? n)%N.
Qed.

Lemma deal_blocks_of_finish (lines : list str) :
  deal_blocks_of lines
  = option_map finish_blocks (blocks_loop lines [] None 0).
Proof.
  unfold deal_blocks_of, finish_blocks.
  now destruct (blocks_loop lines [] None 0) as [[dbs [b|]]|].
Qed.

(** A round of the loop keeps the numbers of the blocks up to 40. *)
Lemma blocks_step_nums (line : str) (dbs dbs' : list block)
    (cur cur' : option block) (blanks blanks' : nat) :
  blocks_step line dbs cur blanks = Next dbs' cur' blanks' ->
  Forall (fun b => (b_num b <= 40)%N) (with_current dbs cur) ->
  Forall (fun b => (b_num b <= 40)%N) (with_current dbs' cur').
Proof.
  unfold blocks_step. intros Hs H.
  destruct (strip line) as [|c s].
  - destruct cur as [b|]; [|now injection Hs as <- <- <-].
    destruct (2 <=? S blanks)%nat; now injection Hs as <- <- <-.
  - assert (Hgo :
      match re_match RULE_DEAL (c :: s) with
      | Some m =>
          match int_of_str (group m 1) with
          | Some deal_num =>
              if (40 <? deal_num)%N then Break
              else Next (with_current dbs cur)
                        (Some (Block deal_num (strip (group m 2)) [])) 0%nat
          | None => Raise
          end
      | None =>
          match cur with
          | Some b =>
              Next dbs (Some (Block (b_num b) (b_auction b)
                                    (extra_lines b ++ [c :: s]))) 0%nat
          | None => Next dbs None 0%nat
          end
      end = Next dbs' cur' blanks' ->
      Forall (fun b => (b_num b <= 40)%N) (with_current dbs' cur')).
    { clear Hs. intros Hs.
      destruct (re_match RULE_DEAL (c :: s)) as [m|].
      - destruct (int_of_str (group m 1)) as [n|]; [|discriminate].
        destruct (40 <? n)%N eqn:E40; [discriminate|].
        injection Hs as <- <- <-. cbn [with_current].
        apply Forall_app. split; [exact H|].
        repeat constructor. cbn [b_num]. now apply N.ltb_ge in E40.
      - destruct cur as [b|]; injection Hs as <- <- <-; [|exact H].
        cbn [with_current] in *.
        apply Forall_app in H as [H1 H2]. apply Forall_app. split; [exact H1|].
        inversion H2; subst. now repeat constructor. }
    destruct cur as [b|]; [now apply Hgo|].
    destruct dbs as [|d dbs]; [now apply Hgo|discriminate].
Qed.

Lemma blocks_loop_nums (lines : list str) :
  forall dbs cur blanks state,
    Forall (fun b => (b_num b <= 40)%N) (with_current dbs cur) ->
    blocks_loop lines dbs cur blanks = Some state ->
    Forall (fun b => (b_num b <= 40)%N)
           (with_current (fst state) (snd state)).
Proof.
  induction lines as [|line lines IH]; intros dbs cur blanks state H Hl.
  - injection Hl as <-. exact H.
  - rewrite blocks_loop_step in Hl.
    destruct (blocks_step line dbs cur blanks) as [dbs' cur' blanks'| |]
      eqn:E.
    + apply (IH _ _ _ _ (blocks_step_nums _ _ _ _ _ _ _ E H) Hl).
    + injection Hl as <-. exact H.
    + discriminate Hl.
Qed.

Lemma finish_blocks_nums (dbs : list block) (cur : option block) :
  Forall (fun b => (b_num b <= 40)%N) (with_current dbs cur) ->
  finish_blocks (dbs, cur) = with_current dbs cur.
Proof.
  unfold finish_blocks. cbn [fst snd]. destruct cur as [b|]; [|reflexivity].
  cbn [with_current]. intros H. apply Forall_app in H as [_ H].
  inversion H as [|? ? Hb _]; subst. apply N.leb_le in Hb. now rewrite Hb.
Qed.

Lemma deal_blocks_of_nums (lines : list str) (deal_blocks : list block) :
  deal_blocks_of lines = Some deal_blocks ->
  Forall (fun b => (b_num b <= 40)%N) deal_blocks.
Proof.
  rewrite deal_blocks_of_finish.
  destruct (blocks_loop lines [] None 0) as [[dbs cur]|] eqn:E;
    [|discriminate].
  pose proof (blocks_loop_nums lines [] None 0 _ (Forall_nil_2 _) E) as H.
  cbn [fst snd] in H. cbn [option_map]. intros Hd. injection Hd as <-.
  now rewrite finish_blocks_nums.
Qed.

Lemma str_of_int_no_dash (n : N) :
  forallb (fun c => negb (c =? 45)%N) (str_of_int n) = true.
Proof.
  apply forallb_forall. intros c Hc. unfold str_of_int in Hc.
  pose proof (chars_of_uint_range (N.to_uint n)) as H.
  rewrite forallb_forall in H. specialize (H c Hc).
  apply andb_prop in H as [H1 H2]. apply N.leb_le in H1, H2.
  apply negb_true_iff, N.eqb_neq. lia.
Qed.

Lemma before_char_app (c : char) (u t : str) :
  forallb (fun a => negb (a =? c)%N) u = true ->
  before_char c (u ++ c :: t) = u.
Proof.
  induction u as [|a u IH]; intros H.
  - cbn. now rewrite N.eqb_refl.
  - cbn in H. apply andb_prop in H as [Ha Hu]. apply negb_true_iff in Ha.
    cbn [app before_char]. now rewrite Ha, IH.
Qed.

Lemma alt_rows_ids (deal_num : str) (alternates : list (str * str)) :
  forall i, (1 <= i)%N ->
    Forall (fun row => exists k, (1 <= k)%N
                         /\ r2_deal row = deal_num ++ py "-" ++ str_of_int k)
           (alt_rows deal_num i alternates).
Proof.
  induction alternates as [|[label alt] alternates IH]; intros i Hi;
    [constructor|].
  cbn [alt_rows]. constructor; [now exists i|]. apply IH. lia.
Qed.

(** X17: the deal ids of Stage 1 and the board that Stage 4 looks up.
    Every row that [stage1] writes has as deal id the numeral of a number
    [n] up to 40, or that numeral followed by [-] and the numeral of a
    number from 1 on (an alternate auction); in both cases the part
    before the first [-], under which [stage4] looks the board up, is the
    numeral of [n]: an alternate auction is given the board of its
    deal. *)
Theorem stage1_deal_ids (content : str) (rows : list row2) :
  stage1 content = Some rows ->
  Forall (fun row =>
            exists n, (n <= 40)%N
              /\ (r2_deal row = str_of_int n
                  \/ exists k, (1 <= k)%N
                       /\ r2_deal row = str_of_int n ++ py "-" ++ str_of_int k)
              /\ forall boards auction bid_notes notes,
                   resolve boards (Row3 (r2_deal row) auction bid_notes notes)
                   = resolve boards (Row3 (str_of_int n) auction bid_notes
                                          notes))
         rows.
Proof.
  unfold stage1, stage1_rows.
  destruct (deal_blocks_of (file_lines content)) as [dbs|] eqn:Ed;
    [|discriminate].
  intros H. injection H as <-. apply Forall_flat_map.
  eapply Forall_impl; [exact (deal_blocks_of_nums _ _ Ed)|].
  intros b Hb. unfold block_rows.
  destruct (extras_loop (extra_lines b) [] []) as [notes alternates].
  constructor.
  - exists (b_num b). split; [exact Hb|]. split; [now left|reflexivity].
  - eapply Forall_impl; [apply (alt_rows_ids _ alternates 1); lia|].
    intros row (k & Hk & Hrow). exists (b_num b). split; [exact Hb|].
    split; [right; now exists k|].
    intros boards auction bid_notes nts. unfold resolve. cbn [r_deal].
    rewrite Hrow. change (py "-" ++ str_of_int k) with (45%N :: str_of_int k).
    rewrite before_char_app by apply str_of_int_no_dash.
    now rewrite before_char_none by apply str_of_int_no_dash.
Qed.

Lemma stage1_deal_ids_witness :
  Forall (fun row =>
            exists n, (n <= 40)%N
              /\ (r2_deal row = str_of_int n
                  \/ exists k, (1 <= k)%N
                       /\ r2_deal row = str_of_int n ++ py "-" ++ str_of_int k)
              /\ forall boards auction bid_notes notes,
                   resolve boards (Row3 (r2_deal row) auction bid_notes notes)
                   = resolve boards (Row3 (str_of_int n) auction bid_notes
                                          notes))
         [Row2 (py "7") (py "1C - 1D") (py "a note");
          Row2 (py "7-1") (py "1C - 1H") (py "Alternative")].
Proof.
  apply (stage1_deal_ids
           (py "7) 1C - 1D" ++ NL ++ py "a note" ++ NL
            ++ py "Alternative: 1C - 1H" ++ NL)).
  vm_compute. reflexivity.
Defined.

(** *** Where the reading stops *)

Lemma blocks_loop_app (pre : list str) : forall rest dbs cur blanks,
  (forall dbs cur blanks,
     blocks_loop rest dbs cur blanks = Some (dbs, cur)) ->
  blocks_loop (pre ++ rest) dbs cur blanks = blocks_loop pre dbs cur blanks.
Proof.
  induction pre as [|line pre IH]; intros rest dbs cur blanks Hrest.
  - apply Hrest.
  - cbn [app]. rewrite !blocks_loop_step.
    destruct (blocks_step line dbs cur blanks) as [dbs' cur' blanks'| |];
      [now apply IH|reflexivity|reflexivity].
Qed.

Lemma re_match_deal_nonempty (m : mstate) : re_match RULE_DEAL [] <> Some m.
Proof. vm_compute. discriminate. Qed.

Lemma blocks_step_above_40 (line : str) (m : mstate) (n : N)
    (dbs : list block) (cur : option block) (blanks : nat) :
  re_match RULE_DEAL (strip line) = Some m ->
  int_of_str (group m 1) = Some n -> (40 < n)%N ->
  blocks_step line dbs cur blanks = Break.
Proof.
  intros Hm Hn H40. unfold blocks_step.
  destruct (strip line) as [|c s] eqn:Es.
  - now apply re_match_deal_nonempty in Hm.
  - rewrite Hm, Hn. apply N.ltb_lt in H40. rewrite H40.
    destruct cur; [reflexivity|now destruct dbs].
Qed.

(** X18: nothing is read from a deal numbered above 40 on.  When a line of
    the file, stripped, matches the deal pattern with a numeral that [int]
    converts to a number above 40, [stage1] does what it does for the
    lines before it alone: that line and all lines after it are left out,
    also deals with a number up to 40 among them. *)
Theorem stage1_stops_above_40 (content : str) (pre post : list str)
    (line : str) (m : mstate) (n : N) :
  file_lines content = pre ++ line :: post ->
  re_match RULE_DEAL (strip line) = Some m ->
  int_of_str (group m 1) = Some n -> (40 < n)%N ->
  stage1 content = stage1_rows pre.
Proof.
  intros Hl Hm Hn H40. unfold stage1, stage1_rows. rewrite Hl.
  rewrite !deal_blocks_of_finish.
  rewrite (blocks_loop_app pre (line :: post)); [reflexivity|].
  intros dbs cur blanks. rewrite blocks_loop_step.
  now rewrite (blocks_step_above_40 line m n dbs cur blanks Hm Hn H40).
Qed.

Lemma stage1_stops_above_40_witness :
  stage1 (py "1) 1C - 1D" ++ NL ++ py "41) 1C - 1H" ++ NL ++ py "2) 1C" ++ NL)
  = Some [Row2 (py "1") (py "1C - 1D") []].
Proof.
  refine (stage1_stops_above_40 _ [py "1) 1C - 1D" ++ NL]
            [py "2) 1C" ++ NL] (py "41) 1C - 1H" ++ NL)
            (MState (rev (py "41) 1C - 1H")) None []
                    [(2%nat, py "1C - 1H"); (1%nat, py "41")]) 41%N _ _ _ _);
    vm_compute; reflexivity.
Defined.

Lemma blocks_loop_closed (post : list str) : forall dbs blanks,
  dbs <> [] -> blocks_loop post dbs None blanks = Some (dbs, None).
Proof.
  induction post as [|line post IH]; intros dbs blanks Hne; [reflexivity|].
  rewrite blocks_loop_step. unfold blocks_step.
  destruct (strip line) as [|c s]; [now apply IH|].
  now destruct dbs.
Qed.

Lemma blocks_loop_two_blanks (b1 b2 : str) (post : list str)
    (dbs : list block) (cur : option block) (blanks : nat) :
  strip b1 = [] -> strip b2 = [] -> with_current dbs cur <> [] ->
  blocks_loop (b1 :: b2 :: post) dbs cur blanks
  = Some (with_current dbs cur, None).
Proof.
  intros H1 H2 Hne. rewrite blocks_loop_step. unfold blocks_step at 1.
  rewrite H1. destruct cur as [b|].
  - cbn [with_current] in *. destruct (2 <=? S blanks)%nat eqn:E.
    + rewrite blocks_loop_step. unfold blocks_step. rewrite H2.
      now apply blocks_loop_closed.
    + rewrite blocks_loop_step. unfold blocks_step. rewrite H2.
      apply Nat.leb_gt in E.
      replace (2 <=? S (S blanks))%nat with true
        by (symmetry; apply Nat.leb_le; lia).
      now apply blocks_loop_closed.
  - cbn [with_current] in *.
    rewrite blocks_loop_step. unfold blocks_step. rewrite H2.
    now apply blocks_loop_closed.
Qed.

Lemma blocks_loop_section (b1 b2 : str) (post pre : list str) :
  strip b1 = [] -> strip b2 = [] ->
  forall dbs cur blanks,
    Forall (fun b => (b_num b <= 40)%N) (with_current dbs cur) ->
    option_map finish_blocks (blocks_loop pre dbs cur blanks) <> Some [] ->
    option_map finish_blocks
      (blocks_loop (pre ++ b1 :: b2 :: post) dbs cur blanks)
    = option_map finish_blocks (blocks_loop pre dbs cur blanks).
Proof.
  intros H1 H2. induction pre as [|line pre IH];
    intros dbs cur blanks Hn Hne.
  - cbn [app].
    change (blocks_loop [] dbs cur blanks) with (Some (dbs, cur)) in *.
    cbn [option_map] in *.
    rewrite finish_blocks_nums in Hne by exact Hn.
    rewrite blocks_loop_two_blanks by (try assumption; congruence).
    cbn [option_map].
    rewrite (finish_blocks_nums dbs cur) by exact Hn.
    reflexivity.
  - cbn [app]. rewrite blocks_loop_step in Hne |- *.
    rewrite (blocks_loop_step line pre).
    destruct (blocks_step line dbs cur blanks) as [dbs' cur' blanks'| |]
      eqn:E; [|reflexivity|reflexivity].
    apply IH; [|exact Hne]. now apply (blocks_step_nums _ _ _ _ _ _ _ E).
Qed.

(** X19: two empty lines after a deal end the auction section.  When the
    file has two lines in a row that are empty or white space, and the
    lines before them alone do not give an empty list of deal blocks,
    [stage1] does what it does for the lines before them alone (it writes
    the same rows, or fails as it does for them): whatever follows, deal
    lines included, is left out. *)
Theorem stage1_section_ends (content : str) (pre post : list str)
    (blank1 blank2 : str) :
  file_lines content = pre ++ blank1 :: blank2 :: post ->
  strip blank1 = [] -> strip blank2 = [] ->
  deal_blocks_of pre <> Some [] ->
  stage1 content = stage1_rows pre.
Proof.
  intros Hl H1 H2 Hne. unfold stage1, stage1_rows. rewrite Hl.
  rewrite deal_blocks_of_finish in Hne. rewrite !deal_blocks_of_finish.
  rewrite blocks_loop_section; try assumption; [reflexivity|constructor].
Qed.

Lemma stage1_section_ends_witness :
  stage1 (py "1) 1C - 1D" ++ NL ++ NL ++ py "  " ++ NL ++ py "2) 1C" ++ NL)
  = Some [Row2 (py "1") (py "1C - 1D") []].
Proof.
  refine (stage1_section_ends _ [py "1) 1C - 1D" ++ NL] [py "2) 1C" ++ NL]
            NL (py "  " ++ NL) _ _ _ _);
    vm_compute; (reflexivity || discriminate).
Defined.

(** *** A file with one line for every deal *)

Lemma digit_char_not_space (c : char) :
  (48 <= c <= 57)%N -> isspace c = false.
Proof.
  intros Hc. unfold isspace, in_ranges, space_ranges.
  cbn [existsb fst snd].
  repeat match goal with
  | |- context [((?lo <=? c) && (c <=? ?hi))%N] =>
      replace ((lo <=? c) && (c <=? hi))%N with false
        by (symmetry; apply andb_false_iff;
            first [left; apply N.leb_gt; lia | right; apply N.leb_gt; lia])
  end.
  reflexivity.
Qed.

Lemma tight_token (t : str) : is_token t = true -> tight t = true.
Proof.
  intros H. destruct t as [|c t]; [discriminate H|].
  unfold is_token in H. unfold tight.
  assert (Hr : forallb (fun c => negb (isspace c)) (rev (c :: t)) = true)
    by now rewrite forallb_rev.
  cbn [forallb] in H. apply andb_prop in H as [Hc _]. rewrite Hc.
  destruct (rev (c :: t)) as [|e r] eqn:E.
  - apply (f_equal (@length N)) in E. rewrite length_rev in E.
    discriminate E.
  - cbn [forallb] in Hr. now apply andb_prop in Hr as [He _].
Qed.

Lemma str_of_int_token (n : N) : is_token (str_of_int n) = true.
Proof.
  destruct (str_of_int_digits n) as (d & ds & Hn & _).
  assert (H : forallb (fun c => negb (isspace c)) (str_of_int n) = true).
  { apply forallb_forall. intros c Hc. unfold str_of_int in Hc.
    pose proof (chars_of_uint_range (N.to_uint n)) as Hr.
    rewrite forallb_forall in Hr. specialize (Hr c Hc).
    apply andb_prop in Hr as [H1 H2]. apply N.leb_le in H1, H2.
    now rewrite digit_char_not_space. }
  rewrite Hn in *. exact H.
Qed.

Lemma deal_text_tight (deal : N * str) :
  tight (snd deal) = true -> tight (deal_text deal) = true.
Proof.
  intros H. unfold deal_text. apply tight_app; [|exact H].
  apply tight_token, str_of_int_token.
Qed.

Lemma str_of_int_not_newline (n : N) :
  forallb not_newline (str_of_int n) = true.
Proof.
  apply forallb_forall. intros c Hc. apply str_of_int_plain in Hc as (Hc & _).
  unfold not_newline. now apply negb_true_iff, N.eqb_neq.
Qed.

Lemma deal_text_not_newline (deal : N * str) :
  forallb not_newline (snd deal) = true ->
  forallb not_newline (deal_text deal) = true.
Proof.
  intros H. unfold deal_text.
  now rewrite !forallb_app, str_of_int_not_newline, H.
Qed.

(** The deal pattern reads a deal line back. *)
Lemma re_match_deal_text (n : N) (a : str) :
  tight a = true -> forallb not_newline a = true ->
  exists m, re_match RULE_DEAL (deal_text (n, a)) = Some m
            /\ group m 1 = str_of_int n /\ group m 2 = a.
Proof.
  intros Ht Ha. unfold tight in Ht. apply andb_prop in Ht as [Hc _].
  destruct a as [|c t]; [discriminate Hc|]. apply negb_true_iff in Hc.
  destruct (str_of_int_digits n) as (d & ds & Hn & Hd & Hds).
  unfold deal_text. cbn [fst snd]. rewrite Hn.
  unfold re_match, match_at, RULE_DEAL, Plus. norm_lits.
  eexists. split.
  - cbn [seq_of rmatch m_rest m_consumed m_before m_groups app].
    rewrite Hd.
    apply star_loop_prefix; [exact Hds|].
    rewrite star_loop_stop by reflexivity.
    cbn [rmatch m_rest m_consumed m_before m_groups startswith
         N.eqb Pos.eqb andb length drop skipn app rev].
    change (isspace 32) with true. cbv iota.
    rewrite star_loop_stop by exact Hc.
    cbn [rmatch m_rest m_consumed m_before m_groups].
    apply star_loop_end; [exact Ha|].
    cbn. reflexivity.
  - cbn [group m_groups lookup_group Nat.eqb]. split.
    + replace (rev ds ++ [d]) with ((rev ds ++ [d]) ++ []) by apply app_nil_r.
      rewrite (captured (rev ds ++ [d]) [] 0 eq_refl).
      now rewrite rev_app_distr, rev_involutive.
    + rewrite (captured (rev t ++ [c]) (32%N :: 41%N :: rev ds ++ [d])
                 (S (S (length (rev ds ++ [d])))) eq_refl).
      now rewrite rev_app_distr, rev_involutive.
Qed.

Lemma small_numeral_ok (n : N) : (n <= 40)%N -> numeral_ok n.
Proof.
  intros H. unfold numeral_ok.
  rewrite <- (N2Nat.id n).
  assert (Hk : (N.to_nat n <= 40)%nat) by lia.
  revert Hk. generalize (N.to_nat n). intros k Hk.
  do 41 (destruct k as [|k]; [vm_compute; discriminate|]).
  lia.
Qed.

Lemma blocks_step_deal (deal : N * str) (dbs : list block)
    (cur : option block) (blanks : nat) :
  deal_ok deal -> (cur <> None \/ dbs = []) ->
  blocks_step (deal_text deal ++ NL) dbs cur blanks
  = Next (with_current dbs cur) (Some (Block (fst deal) (snd deal) [])) 0%nat.
Proof.
  intros (H40 & Ht & Ha) Hc. destruct deal as [n a]. cbn [fst snd] in *.
  unfold blocks_step.
  rewrite strip_line by now apply (deal_text_tight (n, a)).
  destruct (re_match_deal_text n a Ht Ha) as (m & Hm & H1 & H2).
  pose proof (tight_nonempty _ (deal_text_tight (n, a) Ht)) as Hne.
  destruct (deal_text (n, a)) as [|c s] eqn:E; [congruence|].
  rewrite Hm, H1, H2, (int_of_str_of_int n (small_numeral_ok n H40)),
    (tight_strip a Ht).
  apply N.ltb_ge in H40. rewrite H40.
  destruct cur as [b|]; [reflexivity|].
  destruct Hc as [Hc| ->]; [congruence|reflexivity].
Qed.

Lemma blocks_loop_deals (deals : list (N * str)) :
  forall dbs cur blanks,
    Forall deal_ok deals -> (cur <> None \/ dbs = []) ->
    Forall (fun b => (b_num b <= 40)%N) (with_current dbs cur) ->
    option_map finish_blocks
      (blocks_loop (map (fun d => deal_text d ++ NL) deals) dbs cur blanks)
    = Some (with_current dbs cur
            ++ map (fun d => Block (fst d) (snd d) []) deals).
Proof.
  induction deals as [|deal deals IH]; intros dbs cur blanks Hok Hc Hn.
  - cbn [map blocks_loop option_map]. rewrite app_nil_r.
    f_equal. now apply finish_blocks_nums.
  - inversion Hok as [|? ? Hd Hds]; subst.
    cbn [map]. rewrite blocks_loop_step, blocks_step_deal by assumption.
    rewrite IH; [|exact Hds|left; discriminate|].
    + cbn [with_current]. now rewrite <- app_assoc.
    + cbn [with_current]. apply Forall_app. split; [exact Hn|].
      repeat constructor. cbn [b_num]. apply Hd.
Qed.

(** X21: a file with one line [N) auction] for every deal gives one row
    for every deal.  For deals with numbers up to 40 and auctions on one
    line that neither start nor end with white space, [stage1] returns, in
    order, the rows with the numeral of the number as deal id, the auction
    as written and empty notes: the number is read back from its numeral
    and the auction is all that follows the parenthesis and the space. *)
Theorem stage1_one_line_per_deal (deals : list (N * str)) :
  Forall deal_ok deals ->
  stage1 (unlines (map deal_text deals))
  = Some (map (fun d => Row2 (str_of_int (fst d)) (snd d) []) deals).
Proof.
  intros Hok. unfold stage1, stage1_rows.
  rewrite <- (app_nil_r (unlines (map deal_text deals))).
  rewrite file_lines_unlines.
  2:{ apply Forall_forall. intros l Hl.
      apply list_elem_of_fmap in Hl as (d & -> & Hd).
      rewrite Forall_forall in Hok. apply deal_text_not_newline.
      now apply Hok in Hd as (_ & _ & Hd). }
  change (file_lines []) with (@nil str). rewrite app_nil_r, map_map.
  rewrite deal_blocks_of_finish.
  rewrite blocks_loop_deals; [|exact Hok|now right|constructor].
  cbn [with_current app]. f_equal.
  induction deals as [|d deals IH]; [reflexivity|].
  inversion Hok; subst. cbn [map flat_map]. now rewrite IH.
Qed.

Lemma stage1_one_line_per_deal_witness :
  stage1 (unlines (map deal_text [(3%N, py "1C - [P] - 1D(0-7) - all pass");
                                  (12%N, py "Like #3")]))
  = Some [Row2 (py "3") (py "1C - [P] - 1D(0-7) - all pass") [];
          Row2 (py "12") (py "Like #3") []].
Proof.
  apply (stage1_one_line_per_deal
           [(3%N, py "1C - [P] - 1D(0-7) - all pass"); (12%N, py "Like #3")]).
  repeat (constructor; [split; [vm_compute; discriminate|now split]|]).
  constructor.
Defined.

(** ** Worked examples *)

Example expand_ex1 :
  expand_auction (py "1C - [P] - 1D(shows 4+ diamonds) - all pass")
  = py "1C Pass 1D(shows 4+ diamonds) Pass Pass Pass".
Proof. vm_compute. reflexivity. Qed.

Example expand_ex2 :
  expand_auction (py "P - all pass") = py "Pass Pass Pass Pass".
Proof. vm_compute. reflexivity. Qed.

Example expand_ex3 :
  expand_auction (py "1C Pass Pass Pass") = py "1C Pass Pass Pass Pass Pass Pass".
Proof. vm_compute. reflexivity. Qed.

Example split_ex :
  split_elements (py "1C (shows 4+ - or more C) - Pass")
  = [py "1C (shows 4+ - or more C)"; py "Pass"].
Proof. vm_compute. reflexivity. Qed.


Example extract_ex :
  extract_bid_notes (py "2C (shows (at least) 4+ clubs)")
  = (py "2C =1=", py "1:shows (at least) 4+ clubs").
Proof. vm_compute. reflexivity. Qed.

Example suit_ex1 : add_suit_symbols (py "5+ C, 4 S") = py "5+\Cs, 4\Ss".
Proof. vm_compute. reflexivity. Qed.

Example suit_ex2 :
  add_suit_symbols (py "QH or KS; 1S then 3D") = py "Q\H or K\S; 1\S then 3\D".
Proof. vm_compute. reflexivity. Qed.

Example suit_ex3 :
  add_suit_symbols (py "H keycard for C") = py "\H keycard for \C".
Proof. vm_compute. reflexivity. Qed.

Example suit_ex4 :
  add_suit_symbols (py "1:shows 4+ diamonds") = py "1:shows 4+ diamonds".
Proof. vm_compute. reflexivity. Qed.

Example suit_ex5 :
  add_suit_symbols (py "\H keycard") = py "\\H keycard".
Proof. vm_compute. reflexivity. Qed.

Example deal_line_ex :
  deal_line (py "3) 1C - [P] - 1D(shows 4+ diamonds) - all pass")
  = Some (3%N, py "1C - [P] - 1D(shows 4+ diamonds) - all pass").
Proof. vm_compute. reflexivity. Qed.

Example rotate_ex : rotate_deal_tag (py "N:AKQ.J.T.9 x x x") = Some (py "S:AKQ.J.T.9 x x x").
Proof. vm_compute. reflexivity. Qed.

Example display_ex : format_bid_display (py "2H") = py "2\H".
Proof. vm_compute. reflexivity. Qed.

(** The commentary scenario of the specification: South's turn is a prompt,
    a line in the second person and a blank line. *)
Example commentary_ex :
  commentary_lines ∅ [(py "N", py "1C", None); (py "S", py "1D", None)]
  = [py "North bids 1\C.";
     py "What will you bid now? [BID 1\D]"; py "You bid 1\D."; []].
Proof. vm_compute. reflexivity. Qed.

Example format_lines_ex :
  auction_body_lines (py "1C Pass 1D =1= Pass Pass Pass")
  = [py "1C Pass 1D =1= Pass"; py "Pass Pass"].
Proof. vm_compute. reflexivity. Qed.

Example tag_match_ex :
  tag_match (tag_line (py "Note") (py "1:shows 4+\Ds"))
  = Some (py "Note", py "1:shows 4+\Ds").
Proof. vm_compute. reflexivity. Qed.

Example note_match_ex :
  note_match (py "12:a:b") = Some (Some (12%N, py "a:b")).
Proof. vm_compute. reflexivity. Qed.

(** A numeral of 4301 digits is not converted: the footnote, the flag and
    the deal line that hold it make their readers fail. *)
Example int_of_str_ex :
  int_of_str (repeat 49%N 4300) <> None
  /\ int_of_str (repeat 48%N 4301) = None.
Proof. split; vm_compute; [discriminate|reflexivity]. Qed.

Example parse_boards_overflow_ex :
  parse_boards (tag_line (py "Event") [] ++ NL
                ++ tag_line (py "Note") (repeat 49%N 4301 ++ py ":x"))
  = None.
Proof. vm_compute. reflexivity. Qed.

Example parse_auction_bids_overflow_ex :
  parse_auction_bids [py "1C =" ++ repeat 49%N 4301 ++ py "="] (py "N") = None
  /\ parse_auction_bids [py "=" ++ repeat 49%N 4301 ++ py "= 1C"] (py "N")
     = Some [(py "N", py "1C", None)].
Proof. split; vm_compute; reflexivity. Qed.

Example stage1_overflow_ex :
  stage1 (repeat 49%N 4301 ++ py ") 1C" ++ NL) = None.
Proof. vm_compute. reflexivity. Qed.

Example stage1_ex :
  stage1 (py "Auctions" ++ NL ++ py "1) 1C - 1D(0-7)" ++ NL
          ++ py "Alternative: 1c - 1H" ++ NL ++ py "*Note: relay" ++ NL
          ++ py "comment" ++ NL ++ NL ++ NL ++ py "2) 1C" ++ NL)
  = Some [Row2 (py "1") (py "1C - 1D(0-7)") (py "relay comment");
          Row2 (py "1-1") (py "1c - 1H") (py "Alternative")].
Proof. vm_compute. reflexivity. Qed.

Example bids_ex :
  option_map trim_trailing_passes
    (parse_auction_bids [py "1C Pass 1D =1= Pass"; py "1NT Pass Pass Pass"]
       (py "N"))
  = Some [(py "N", py "1C", None); (py "E", py "Pass", None);
          (py "S", py "1D", Some 1%N); (py "W", py "Pass", None);
          (py "N", py "1NT", None)].
Proof. vm_compute. reflexivity. Qed.

Example pbn_ex :
  parse_pbn_boards (py "[Board " ++ QUOTE ++ py "3" ++ QUOTE ++ py "]" ++ NL
                    ++ py "[Dealer " ++ QUOTE ++ py "S" ++ QUOTE ++ py "]" ++ NL)
  = Some {[ py "3" := {[ py "Board" := py "3"; py "Dealer" := py "S" ]} ]}.
Proof. vm_compute. reflexivity. Qed.
